(** * Sharded on-device test execution: partitioning, device pool, step results

    A shallow embedding of the sharding layer of the Android test runner:

    - [build/android/pylib/local/device/local_device_gtest_run.py]
      ([_CreateShards], [_GetTests], [PullAppFilesImpl]),
    - [build/android/pylib/local/device/local_device_environment.py]
      ([SetUp], [TearDown], [BlacklistDevice], the [devices] property),
    - [build/android/bb_run_sharded_steps.py]
      ([_SaveResult], [_RunStepsPerDevice], [_RunShardedSteps],
      [_PrintStepOutput], [_PrintAllStepsOutput], [main]).

    Python lists are [list]s, dictionaries iterated in their key order are
    association lists, the result directory is a finite map from paths to
    records, exceptions are a sum type, and [print] appends to an explicit
    list of output lines.  The run of the steps is given twice: as it goes
    when the operating system grants every call ([bb_run_sharded_steps]),
    and with the calls that the content of a manifest can make fail
    ([Fallible]); the two agree on the steps that the system lets run. *)

From Stdlib Require Import ZArith Lia Ascii OrderedTypeEx.
From stdpp Require Import base list strings gmap pretty sorting.

Open Scope nat_scope.

(** ** Part I: definitions *)

(** *** Exceptions and results of fallible code *)

Inductive exn : Type :=
  | NoDevicesError
  | DeviceUnreachableError (msg : string)
  | AssertionError (msg : string)
  | IOError (msg : string)
  | TypeError (msg : string)
  | Exception (msg : string).

Inductive result (A : Type) : Type :=
  | Ok (a : A)
  | Raise (e : exn).
Arguments Ok {A} a.
Arguments Raise {A} e.

(** *** The fragments of Python's sequence protocol the sources use *)

Module Py.

(** [xrange(start, stop, step)] for a positive [step]: the numbers
    [start], [start + step], ... below [stop]. *)
Definition xrange (start stop step : nat) : list nat :=
  (λ k, start + k * step) <$> seq 0 ((stop - start + step - 1) / step).

(** [l[i::step]]: the items at the indices [xrange(i, len(l), step)]. *)
Definition slice_step {A} (l : list A) (i step : nat) : list A :=
  omap (λ k, l !! k) (xrange i (length l) step).

(** [l[a:b]] for non-negative bounds; out-of-range bounds are clamped. *)
Definition slice {A} (l : list A) (a b : nat) : list A :=
  take (b - a) (drop a l).

(** [enumerate(l)]. *)
Definition enumerate {A} (l : list A) : list (nat * A) :=
  zip (seq 0 (length l)) l.

(** The structural reading of [l[k::n]], used to reason about it: skip
    [k] items, keep one, skip [n - 1], keep one, and so on. *)
Fixpoint every {A} (n k : nat) (l : list A) : list A :=
  match l with
  | [] => []
  | x :: r =>
      match k with
      | 0 => x :: every n (n - 1) r
      | S k' => every n k' r
      end
  end.

(** [sorted] on strings: Python compares [str]s lexicographically by
    character code, which is [String.leb].  The order is total and
    antisymmetric, so the sorted list does not depend on the algorithm;
    an insertion sort stands for it. *)
Fixpoint insert_sorted (x : string) (l : list string) : list string :=
  match l with
  | [] => [x]
  | y :: r => if String.leb x y then x :: y :: r else y :: insert_sorted x r
  end.

Definition sorted (l : list string) : list string :=
  foldr insert_sorted [] l.

(** The order of [str]. *)
Definition str_le (a b : string) : Prop := String.leb a b = true.

(** A non-empty list is true, [None] and the empty list are false. *)
Definition truthy {A} (o : option (list A)) : bool :=
  match o with
  | Some (_ :: _) => true
  | _ => false
  end.

End Py.

(** *** Devices *)

(** A [DeviceUtils] handle.  Its class is not part of the sources at hand;
    all the code below asks of it is [adb.GetDeviceSerial()] and [str],
    which both give the serial of the device. *)
Record Device : Type := mkDevice { GetDeviceSerial : string }.

Definition str_of_device (d : Device) : string := GetDeviceSerial d.

#[global] Instance Device_eq_dec : EqDecision Device.
Proof. solve_decision. Defined.

(** The [devices] property of [LocalDeviceEnvironment]: it raises when the
    live set is empty. *)
Definition env_devices (devices : list Device) : result (list Device) :=
  match devices with
  | [] => Raise NoDevicesError
  | _ => Ok devices
  end.

(** *** local_device_environment.py: the device pool *)

Module LocalDeviceEnvironment.

(** Modelled from the spec: [device_blacklist.Blacklist] is not part of
    the sources at hand.  The blacklist is "a persisted set of worker
    identifiers with a reason string", and [Extend] "appends to the
    persisted blacklist": a list of entries, extended at its end. *)
Definition Blacklist : Type := list (string * string).

Definition Extend (bl : Blacklist) (serials : list string) (reason : string)
  : Blacklist :=
  bl ++ ((λ s, (s, reason)) <$> serials).

Definition blacklisted (bl : Blacklist) (serial : string) : bool :=
  bool_decide (serial ∈ bl.*1).

(** Modelled from the spec: [DeviceUtils.HealthyDevices] is not part of
    the sources at hand.  It "queries the underlying fleet" and the
    blacklist "excludes blacklisted workers from the pool"; [fleet] is
    the list of attached devices that pass the health check. *)
Definition HealthyDevices (blacklist : option Blacklist) (fleet : list Device)
  : list Device :=
  match blacklist with
  | None => fleet
  | Some bl => filter (λ d, blacklisted bl (GetDeviceSerial d) = false) fleet
  end.

(** The fields of the environment that discovery and blacklisting read
    and write, and the warnings sent to [logging]. *)
Record Env : Type := mkEnv {
  _blacklist : option Blacklist;
  _device_serial : option string;
  _devices : list Device;
  warnings : list string
}.

(** [__init__]: [args.blacklist_file] selects the blacklist store, given
    here by its persisted content ([None] without a file; a [Blacklist]
    object is true even when it holds no entry), [args.test_device] the
    single device asked for; the live set starts empty. *)
Definition init (blacklist_file : option Blacklist)
    (test_device : option string) : Env :=
  {| _blacklist := blacklist_file;
     _device_serial := test_device;
     _devices := [];
     warnings := [] |}.

(** [if self._device_serial:] holds for a non-empty string. *)
Definition requested_serial (env : Env) : option string :=
  match _device_serial env with
  | Some "" => None
  | o => o
  end.

(** ['Could not find device %r' % serial], for a serial that needs no
    escaping. *)
Definition unreachable_msg (serial : string) : string :=
  "Could not find device '" +:+ serial +:+ "'".

(** [SetUp], up to the choice of the live set (the rest of the method
    only loads the per-device caches):
<<
    available_devices = device_utils.DeviceUtils.HealthyDevices(
        self._blacklist, enable_device_files_cache=...)
    if not available_devices:
      raise device_errors.NoDevicesError
    if self._device_serial:
      self._devices = [d for d in available_devices
                       if d.adb.GetDeviceSerial() == self._device_serial]
      if not self._devices:
        raise device_errors.DeviceUnreachableError(
            'Could not find device %r' % self._device_serial)
    else:
      self._devices = available_devices
>>
    The environment is returned along with the outcome: the live set is
    assigned before [DeviceUnreachableError] is raised. *)
Definition set_devices (env : Env) (ds : list Device) : Env :=
  {| _blacklist := _blacklist env;
     _device_serial := _device_serial env;
     _devices := ds;
     warnings := warnings env |}.

Definition SetUp (env : Env) (fleet : list Device) : result unit * Env :=
  let available_devices := HealthyDevices (_blacklist env) fleet in
  match available_devices with
  | [] => (Raise NoDevicesError, env)
  | _ =>
      match requested_serial env with
      | Some serial =>
          let ds := filter (λ d, GetDeviceSerial d = serial) available_devices in
          let env' := set_devices env ds in
          match ds with
          | [] => (Raise (DeviceUnreachableError (unreachable_msg serial)), env')
          | _ => (Ok (), env')
          end
      | None => (Ok (), set_devices env available_devices)
      end
  end.

(** The [devices] property. *)
Definition devices (env : Env) : result (list Device) :=
  env_devices (_devices env).

(** [BlacklistDevice]:
<<
    if not self._blacklist:
      logging.warning(
          'Attempted to blacklist %s, but no blacklist was provided.',
          str(device))
      return
    device_serial = device.adb.GetDeviceSerial()
    self._blacklist.Extend([device_serial], reason=reason)
    with self._devices_lock:
      self._devices = [d for d in self._devices if str(d) != device_serial]
>> *)
Definition BlacklistDevice (env : Env) (device : Device) (reason : string)
  : Env :=
  match _blacklist env with
  | None =>
      {| _blacklist := None;
         _device_serial := _device_serial env;
         _devices := _devices env;
         warnings := warnings env ++
           ["Attempted to blacklist " +:+ str_of_device device
            +:+ ", but no blacklist was provided."] |}
  | Some bl =>
      let device_serial := GetDeviceSerial device in
      {| _blacklist := Some (Extend bl [device_serial] reason);
         _device_serial := _device_serial env;
         _devices :=
           filter (λ d, str_of_device d ≠ device_serial) (_devices env);
         warnings := warnings env |}
  end.

(** The default [reason] of [BlacklistDevice]. *)
Definition default_reason : string := "local_device_failure".

(** What may happen to an environment later on: more devices are
    blacklisted, the set of devices is discovered again (by this or a
    later process, from the same persisted blacklist). *)
Inductive call : Type :=
  | CallBlacklistDevice (device : Device) (reason : string)
  | CallSetUp (fleet : list Device).

Definition do_call (env : Env) (c : call) : Env :=
  match c with
  | CallBlacklistDevice device reason => BlacklistDevice env device reason
  | CallSetUp fleet => (SetUp env fleet).2
  end.

Definition do_calls (env : Env) (calls : list call) : Env :=
  foldl do_call env calls.

End LocalDeviceEnvironment.

(** *** local_device_gtest_run.py: the work partitioner *)

Module LocalDeviceGtestRun.

Definition _MAX_SHARD_SIZE : nat := 256.

(** The body of [_CreateShards] for a given [device_count], with the
    module constant [_MAX_SHARD_SIZE] as the parameter [max_shard_size]:
<<
    shards = []
    for i in xrange(0, device_count):
      unbounded_shard = tests[i::device_count]
      shards += [unbounded_shard[j:j+_MAX_SHARD_SIZE]
                 for j in xrange(0, len(unbounded_shard), _MAX_SHARD_SIZE)]
    return shards
>> *)
Definition unbounded_shard {A} (device_count : nat) (tests : list A) (i : nat)
  : list A :=
  Py.slice_step tests i device_count.

Definition bounded_shards {A} (max_shard_size : nat) (unbounded : list A)
  : list (list A) :=
  (λ j, Py.slice unbounded j (j + max_shard_size))
    <$> Py.xrange 0 (length unbounded) max_shard_size.

Definition create_shards {A} (max_shard_size device_count : nat)
    (tests : list A) : list (list A) :=
  foldl (λ shards i,
           shards ++ bounded_shards max_shard_size
                       (unbounded_shard device_count tests i))
        [] (Py.xrange 0 device_count 1).

(** [_CreateShards] reads [len(self._env.devices)] first, which raises on
    an empty live set. *)
Definition _CreateShards {A} (devices : list Device) (tests : list A)
  : result (list (list A)) :=
  match env_devices devices with
  | Raise e => Raise e
  | Ok ds => Ok (create_shards _MAX_SHARD_SIZE (length ds) tests)
  end.

(** [_GetTests], from the per-device test lists on.  [test_lists] is
    what [pMap(list_tests).pGet(None)] returned: one list per device,
    [None] for a device whose listing failed.
    The method returns the sorted list of the union of [set(tl)] for the
    [tl] in [test_lists] that are true (neither [None] nor empty).  The
    union keeps one copy of every name; the order in which a set is
    iterated does not matter under [sorted]. *)
Definition _GetTests (test_lists : list (option (list string)))
  : list string :=
  Py.sorted
    (remove_dups
       (concat (omap (λ tl, if Py.truthy tl then tl else None) test_lists))).

End LocalDeviceGtestRun.

(** *** bb_run_sharded_steps.py: running steps and keeping their results *)

Module bb_run_sharded_steps.

(** The pickled dictionary of a step's result. *)
Record StepResult : Type := mkStepResult {
  res_name : string;
  res_output : string;
  res_exit_code : Z;
  res_total_time : nat;
  res_device : string
}.

(** The dictionary handed to [_RunStepsPerDevice] for one step. *)
Record StepParams : Type := mkStepParams {
  step_name : string;
  step_device : string;
  step_is_flaky : bool;
  step_cmd : string
}.

(** What the script takes from its surroundings: the source root of
    [pylib.constants], the command runner ([pexpect.run] with
    [withexitstatus=True] gives the captured output and the exit status,
    [None] when the child did not exit by itself), the duration of a
    command in seconds, the rendering of a [datetime], the attached
    devices, the outcome of the port reset, and the parsed JSON files. *)
Record Host : Type := mkHost {
  DIR_SOURCE_ROOT : string;
  pexpect_run : string → string * option Z;
  elapsed : string → nat;
  str_of_time : nat → string;
  GetAttachedDevices : list string;
  ResetTestServerPortAllocation : bool;
  json_dict : string → list (string * string);
  json_list : string → list string
}.

(** What the script changes: the result directory [_OUTPUT_DIR] ([None]
    when it does not exist, else its files by name; a file holds a
    pickled result, read back as it was written), the standard output
    and the clock (in seconds). *)
Record World : Type := mkWorld {
  store : option (gmap string StepResult);
  stdout : list string;
  clock : nat
}.

(** State and exceptions: the world reached is kept when an exception is
    raised. *)
Definition M (A : Type) : Type := World → result A * World.

Definition ret {A} (a : A) : M A := λ w, (Ok a, w).

Definition raise {A} (e : exn) : M A := λ w, (Raise e, w).

Definition bind {A B} (m : M A) (k : A → M B) : M B :=
  λ w, match m w with
       | (Ok a, w') => k a w'
       | (Raise e, w') => (Raise e, w')
       end.

Notation "'let!' x ':=' m 'in' k" := (bind m (λ x, k))
  (at level 10, x pattern, m at level 100, k at level 200).

Definition print (line : string) : M unit :=
  λ w, (Ok (), {| store := store w; stdout := stdout w ++ [line];
                  clock := clock w |}).

Definition now : M nat := λ w, (Ok (clock w), w).

Definition sleep (seconds : nat) : M unit :=
  λ w, (Ok (), {| store := store w; stdout := stdout w;
                  clock := clock w + seconds |}).

Definition set_store (st : option (gmap string StepResult)) : M unit :=
  λ w, (Ok (), {| store := st; stdout := stdout w; clock := clock w |}).

Definition get_store : M (option (gmap string StepResult)) :=
  λ w, (Ok (store w), w).

(** [os.path.join] of two components. *)
Fixpoint last_char (s : string) : option Ascii.ascii :=
  match s with
  | EmptyString => None
  | String c EmptyString => Some c
  | String _ r => last_char r
  end.

Definition path_join (a b : string) : string :=
  if String.prefix "/" b then b
  else match last_char a with
       | None => b
       | Some c => if Ascii.eqb c "/"%char then a +:+ b else a +:+ "/" +:+ b
       end.

(** [sub in s] on strings. *)
Fixpoint contains (sub s : string) : bool :=
  String.prefix sub s ||
  match s with
  | EmptyString => false
  | String _ r => contains sub r
  end.

Definition _OUTPUT_DIR (h : Host) : string :=
  path_join (path_join (DIR_SOURCE_ROOT h) "out") "step_results".

(** [_SaveResult]: opening the file fails when the directory is absent. *)
Definition _SaveResult (h : Host) (result : StepResult) : M unit :=
  let! st := get_store in
  match st with
  | None => raise (IOError (path_join (_OUTPUT_DIR h) (res_name result)))
  | Some files => set_store (Some (<[res_name result := result]> files))
  end.

(** [pexpect.run(..., logfile=sys.stdout)]: the output is echoed and time
    passes. *)
Definition run (h : Host) (cmd : string) : M (string * option Z) :=
  let '(output, exit_code) := pexpect_run h cmd in
  let! _ := print output in
  let! _ := sleep (elapsed h cmd) in
  ret (output, exit_code).

(** [exit_code or 0]. *)
Definition or_zero (exit_code : option Z) : Z :=
  match exit_code with
  | Some c => if Z.eqb c 0 then 0%Z else c
  | None => 0%Z
  end.

(** [(end_time - start_time).seconds]: the seconds of a [timedelta] are
    counted within its day. *)
Definition timedelta_seconds (start_time end_time : nat) : nat :=
  (end_time - start_time) mod (24 * 60 * 60).

(** [_RunStepsPerDevice]:
<<
  results = []
  for step in steps:
    start_time = datetime.datetime.now()
    print 'Starting %s: %s %s at %s' % (step['name'], step['cmd'],
                                        start_time, step['device'])
    output, exit_code  = pexpect.run(
        step['cmd'], cwd=os.path.abspath(constants.DIR_SOURCE_ROOT),
        withexitstatus=True, logfile=sys.stdout, timeout=1800,
        env=os.environ)
    exit_code = exit_code or 0
    end_time = datetime.datetime.now()
    exit_msg = '%s %s' % (exit_code,
                          '(ignored, flaky step)' if step['is_flaky'] else '')
    print 'Finished %s: %s %s %s at %s' % (step['name'], exit_msg, step['cmd'],
                                           end_time, step['device'])
    if step['is_flaky']:
      exit_code = 0
    result = {'name': step['name'],
              'output': output,
              'exit_code': exit_code,
              'total_time': (end_time - start_time).seconds,
              'device': step['device']}
    _SaveResult(result)
    results += [result]
  return results
>> *)
Definition exit_msg (exit_code : Z) (is_flaky : bool) : string :=
  pretty exit_code +:+ " "
  +:+ (if is_flaky then "(ignored, flaky step)" else "").

Definition run_step (h : Host) (step : StepParams) : M StepResult :=
  let! start_time := now in
  let! _ := print ("Starting " +:+ step_name step +:+ ": " +:+ step_cmd step
                   +:+ " " +:+ str_of_time h start_time
                   +:+ " at " +:+ step_device step) in
  let! ran := run h (step_cmd step) in
  let output := ran.1 in
  let exit_code := or_zero ran.2 in
  let! end_time := now in
  let! _ := print ("Finished " +:+ step_name step +:+ ": "
                   +:+ exit_msg exit_code (step_is_flaky step)
                   +:+ " " +:+ step_cmd step
                   +:+ " " +:+ str_of_time h end_time
                   +:+ " at " +:+ step_device step) in
  let exit_code := if step_is_flaky step then 0%Z else exit_code in
  let result :=
    {| res_name := step_name step;
       res_output := output;
       res_exit_code := exit_code;
       res_total_time := timedelta_seconds start_time end_time;
       res_device := step_device step |} in
  let! _ := _SaveResult h result in
  ret result.

Fixpoint run_steps_from (h : Host) (steps : list StepParams)
    (results : list StepResult) : M (list StepResult) :=
  match steps with
  | [] => ret results
  | step :: rest =>
      let! result := run_step h step in
      run_steps_from h rest (results ++ [result])
  end.

Definition _RunStepsPerDevice (h : Host) (steps : list StepParams)
  : M (list StepResult) :=
  run_steps_from h steps [].

(** [pool.map_async(_RunStepsPerDevice, all_params)] followed by [get]:
    the calls are made one after the other here.  The processes of the
    pool share the directory and the standard output only; every step
    writes the file of its own name. *)
Fixpoint map_async {A B} (f : A → M B) (l : list A) : M (list B) :=
  match l with
  | [] => ret []
  | a :: rest =>
      let! b := f a in
      let! bs := map_async f rest in
      ret (b :: bs)
  end.

Fixpoint for_each {A} (f : A → M unit) (l : list A) : M unit :=
  match l with
  | [] => ret ()
  | a :: rest => let! _ := f a in for_each f rest
  end.

(** The parameters of the steps of the [i]-th device:
<<
    for s in steps.keys()[i * shard_size:(i + 1) * shard_size]:
      steps_per_device += [{'name': s,
                            'device': device,
                            'is_flaky': s in flaky_steps,
                            'cmd': steps[s] + ' --device ' + device +
                            ' --keep_test_server_ports'}]
>>
    [steps] lists the items of the dictionary in the order in which it
    iterates its keys; [steps[s]] is the command listed with [s]. *)
Definition step_params (flaky_steps : list string) (device : string)
    (item : string * string) : StepParams :=
  {| step_name := item.1;
     step_device := device;
     step_is_flaky := bool_decide (item.1 ∈ flaky_steps);
     step_cmd := item.2 +:+ " --device " +:+ device
                 +:+ " --keep_test_server_ports" |}.

Definition steps_per_device (steps : list (string * string))
    (flaky_steps : list string) (shard_size i : nat) (device : string)
  : list StepParams :=
  step_params flaky_steps device
    <$> Py.slice steps (i * shard_size) ((i + 1) * shard_size).

Definition all_params (steps : list (string * string))
    (flaky_steps : list string) (devices : list string)
  : list (list StepParams) :=
  let num_devices := length devices in
  let shard_size := (length steps + num_devices - 1) / num_devices in
  (λ p, steps_per_device steps flaky_steps shard_size p.1 p.2)
    <$> Py.enumerate devices.

Definition stars : string := String.concat "" (replicate 80 "*").

Definition summary_line (result : StepResult) : string :=
  res_name result +:+ " : exit_code=" +:+ pretty (res_exit_code result)
  +:+ " in " +:+ pretty (res_total_time result)
  +:+ " secs at " +:+ res_device result.

(** [_RunShardedSteps]: the two assertions, the fresh result directory,
    the sharding, the runs and the summary.  [step_names], the sorted
    keys, is computed and not used afterwards. *)
Definition _RunShardedSteps (h : Host) (steps : list (string * string))
    (flaky_steps : list string) (devices : list string) : M Z :=
  match steps with
  | [] => raise (AssertionError "")
  | _ =>
  match devices with
  | [] => raise (AssertionError "No devices connected?")
  | _ =>
      let! st := get_store in
      let! _ :=
        match st with
        | Some _ =>
            if contains "/step_results" (_OUTPUT_DIR h)
            then set_store None
            else raise (AssertionError "")
        | None => ret ()
        end in
      let! st := get_store in
      let! _ :=
        match st with
        | None => set_store (Some ∅)
        | Some _ => ret ()
        end in
      let step_names := Py.sorted steps.*1 in
      let params := all_params steps flaky_steps devices in
      let! _ := print "Start sharding (note: output is not synchronized...)" in
      let! _ := print stars in
      let! start_time := now in
      let! results_per_device := map_async (_RunStepsPerDevice h) params in
      let! end_time := now in
      let! _ := print stars in
      let! _ := print "Finished sharding." in
      let! _ := print "Summary" in
      let! _ := for_each (for_each (λ result, print (summary_line result)))
                         results_per_device in
      let total_time :=
        foldl (λ t result, t + res_total_time result) 0
              (concat results_per_device) in
      let! _ := print ("Step time: "
                       +:+ pretty (timedelta_seconds start_time end_time)
                       +:+ " secs") in
      let! _ := print ("Bots time: " +:+ pretty total_time +:+ " secs") in
      ret 0%Z
  end
  end.

(** [_PrintStepOutput]:
<<
  file_name = os.path.join(_OUTPUT_DIR, step_name)
  if not os.path.exists(file_name):
    print 'File not found ', file_name
    return 1
  with file(file_name, 'r') as f:
    result = pickle.loads(f.read())
  print result['output']
  return result['exit_code']
>> *)
Definition recorded (w : World) (step_name : string) : option StepResult :=
  match store w with
  | None => None
  | Some files => files !! step_name
  end.

Definition _PrintStepOutput (h : Host) (step_name : string) : M Z :=
  let file_name := path_join (_OUTPUT_DIR h) step_name in
  let! st := get_store in
  match st ≫= (λ files, files !! step_name) with
  | None =>
      let! _ := print ("File not found " +:+ " " +:+ file_name) in
      ret 1%Z
  | Some result =>
      let! _ := print (res_output result) in
      ret (res_exit_code result)
  end.

(** [_PrintAllStepsOutput]:
<<
  with file(steps, 'r') as f:
    steps = json.load(f)
  ret = 0
  for step_name in steps.keys():
    ret |= _PrintStepOutput(step_name)
  return ret
>> *)
Fixpoint print_steps_from (h : Host) (step_names : list string) (ret_ : Z)
  : M Z :=
  match step_names with
  | [] => ret ret_
  | step_name :: rest =>
      let! code := _PrintStepOutput h step_name in
      print_steps_from h rest (Z.lor ret_ code)
  end.

Definition _PrintAllStepsOutput (h : Host) (steps : string) : M Z :=
  let steps := json_dict h steps in
  print_steps_from h steps.*1 0%Z.

(** [_KillPendingServers] signals left-over servers and restarts adb,
    which leaves the result directory and the output alone; it then
    waits for a device:
<<
  i = 1
  while not android_commands.GetAttachedDevices():
    time.sleep(i)
    i *= 2
    if i > 10:
      break
>> *)
Fixpoint wait_for_devices (h : Host) (rounds i : nat) : M unit :=
  match rounds with
  | 0 => ret ()
  | S rounds' =>
      match GetAttachedDevices h with
      | [] =>
          let! _ := sleep i in
          if 10 <? i * 2 then ret ()
          else wait_for_devices h rounds' (i * 2)
      | _ => ret ()
      end
  end.

Definition _KillPendingServers (h : Host) : M unit :=
  wait_for_devices h 4 1.

(** The options of the command line; an option that is absent or empty
    is false. *)
Record Options : Type := mkOptions {
  opt_steps : option string;
  opt_flaky_steps : option string;
  opt_print_results : option string;
  opt_print_all : option string
}.

Definition given (o : option string) : option string :=
  match o with
  | Some "" => None
  | _ => o
  end.

(** [main], after the parsing of the options. *)
Definition main (h : Host) (options : Options) : M Z :=
  match given (opt_print_results options) with
  | Some step_name => _PrintStepOutput h step_name
  | None =>
  match given (opt_print_all options) with
  | Some steps => _PrintAllStepsOutput h steps
  | None =>
      let! _ := _KillPendingServers h in
      if negb (ResetTestServerPortAllocation h)
      then raise (Exception "Failed to reset test server port.")
      else
        let devices := Py.sorted (GetAttachedDevices h) in
        match devices with
        | [] =>
            let! _ := print "You must attach a device" in
            ret 1%Z
        | _ =>
            match opt_steps options with
            | None => raise (TypeError "coercing to Unicode: need string")
            | Some path =>
                let steps := json_dict h path in
                let flaky_steps :=
                  match given (opt_flaky_steps options) with
                  | Some flaky => json_list h flaky
                  | None => []
                  end in
                _RunShardedSteps h steps flaky_steps devices
            end
        end
  end
  end.

(** Closed forms of what a run of steps leaves behind; the properties
    below relate them to the monadic code. *)
Definition result_of (h : Host) (step : StepParams) : StepResult :=
  let ran := pexpect_run h (step_cmd step) in
  {| res_name := step_name step;
     res_output := ran.1;
     res_exit_code := if step_is_flaky step then 0%Z else or_zero ran.2;
     res_total_time := elapsed h (step_cmd step) mod (24 * 60 * 60);
     res_device := step_device step |}.

Definition starting_line (h : Host) (step : StepParams) (start_time : nat)
  : string :=
  "Starting " +:+ step_name step +:+ ": " +:+ step_cmd step
  +:+ " " +:+ str_of_time h start_time +:+ " at " +:+ step_device step.

Definition finished_line (h : Host) (step : StepParams) (end_time : nat)
  : string :=
  "Finished " +:+ step_name step +:+ ": "
  +:+ exit_msg (or_zero (pexpect_run h (step_cmd step)).2) (step_is_flaky step)
  +:+ " " +:+ step_cmd step
  +:+ " " +:+ str_of_time h end_time +:+ " at " +:+ step_device step.

Definition step_log (h : Host) (step : StepParams) (t : nat) : list string :=
  [starting_line h step t;
   (pexpect_run h (step_cmd step)).1;
   finished_line h step (t + elapsed h (step_cmd step))].

Fixpoint steps_log (h : Host) (steps : list StepParams) (t : nat)
  : list string :=
  match steps with
  | [] => []
  | step :: rest =>
      step_log h step t ++ steps_log h rest (t + elapsed h (step_cmd step))
  end.

Definition steps_elapsed (h : Host) (steps : list StepParams) : nat :=
  foldr (λ step t, elapsed h (step_cmd step) + t) 0 steps.

Definition save_all (files : gmap string StepResult) (rs : list StepResult)
  : gmap string StepResult :=
  foldl (λ m r, <[res_name r := r]> m) files rs.

(** The world after [_RunShardedSteps] has run the steps [params] (all
    devices' steps, in the order of the devices) from the world [w]. *)
Definition sharding_log (h : Host) (params : list StepParams) (t : nat)
  : list string :=
  ["Start sharding (note: output is not synchronized...)"; stars]
  ++ steps_log h params t
  ++ [stars; "Finished sharding."; "Summary"]
  ++ (summary_line <$> (result_of h <$> params))
  ++ ["Step time: "
      +:+ pretty (timedelta_seconds t (t + steps_elapsed h params))
      +:+ " secs";
      "Bots time: "
      +:+ pretty (foldl (λ t result, t + res_total_time result) 0
                        (result_of h <$> params))
      +:+ " secs"].

Definition after_sharding (h : Host) (params : list StepParams) (w : World)
  : World :=
  {| store := Some (save_all ∅ (result_of h <$> params));
     stdout := stdout w ++ sharding_log h params (clock w);
     clock := clock w + steps_elapsed h params |}.

(** The line a named step contributes to the output of
    [_PrintAllStepsOutput]. *)
Definition printed_line (h : Host) (w : World) (step_name : string) : string :=
  match recorded w step_name with
  | Some result => res_output result
  | None => "File not found " +:+ " " +:+ path_join (_OUTPUT_DIR h) step_name
  end.

Definition printed_code (w : World) (step_name : string) : Z :=
  match recorded w step_name with
  | Some result => res_exit_code result
  | None => 1%Z
  end.

End bb_run_sharded_steps.

(** *** bb_run_sharded_steps.py: a run whose system calls may raise *)

(** The definitions above follow a run in which the operating system
    grants every call.  The ones below follow the same functions when it
    may refuse: a command that cannot be spawned, a result file that
    cannot be opened, a manifest that cannot be read. *)
Module Fallible.
Import bb_run_sharded_steps.

(** The file that [file(path, 'w')] opens: an entry of the result
    directory, given by its name there, or a file somewhere else. *)
Inductive target : Type :=
  | InOutputDir (name : string)
  | Elsewhere.

(** What the operating system answers to the calls that the content of
    a manifest decides (the result directory itself can always be
    removed and made):
    - [spawn_error cmd] is the exception of [pexpect.run] when [cmd]
      cannot be spawned (the command is not found or not executable);
    - [open_w path] is the outcome of [file(path, 'w')]: the exception
      raised when the path cannot be opened (a directory of the path is
      missing, as for a step name with a separator; the path names a
      directory, as for an empty step name), the file that the path
      leads to otherwise;
    - [load_error path] is the exception raised when the manifest at
      [path] cannot be opened or is not JSON. *)
Record System : Type := mkSystem {
  spawn_error : string → option exn;
  open_w : string → result target;
  load_error : string → option exn
}.

(** [_SaveResult]:
<<
  with file(os.path.join(_OUTPUT_DIR, result['name']), 'w') as f:
    f.write(pickle.dumps(result))
>> *)
Definition _SaveResult (h : Host) (sys : System) (result : StepResult)
  : M unit :=
  let path := path_join (_OUTPUT_DIR h) (res_name result) in
  match open_w sys path with
  | Raise e => raise e
  | Ok Elsewhere => ret ()
  | Ok (InOutputDir name) =>
      let! st := get_store in
      match st with
      | None => raise (IOError path)
      | Some files => set_store (Some (<[name := result]> files))
      end
  end.

(** [pexpect.run]: nothing is echoed and no time is spent when the
    command cannot be spawned. *)
Definition run (h : Host) (sys : System) (cmd : string)
  : M (string * option Z) :=
  match spawn_error sys cmd with
  | Some e => raise e
  | None => bb_run_sharded_steps.run h cmd
  end.

(** The body of the loop of [_RunStepsPerDevice]. *)
Definition run_step (h : Host) (sys : System) (step : StepParams)
  : M StepResult :=
  let! start_time := now in
  let! _ := print ("Starting " +:+ step_name step +:+ ": " +:+ step_cmd step
                   +:+ " " +:+ str_of_time h start_time
                   +:+ " at " +:+ step_device step) in
  let! ran := run h sys (step_cmd step) in
  let output := ran.1 in
  let exit_code := or_zero ran.2 in
  let! end_time := now in
  let! _ := print ("Finished " +:+ step_name step +:+ ": "
                   +:+ exit_msg exit_code (step_is_flaky step)
                   +:+ " " +:+ step_cmd step
                   +:+ " " +:+ str_of_time h end_time
                   +:+ " at " +:+ step_device step) in
  let exit_code := if step_is_flaky step then 0%Z else exit_code in
  let result :=
    {| res_name := step_name step;
       res_output := output;
       res_exit_code := exit_code;
       res_total_time := timedelta_seconds start_time end_time;
       res_device := step_device step |} in
  let! _ := _SaveResult h sys result in
  ret result.

Fixpoint run_steps_from (h : Host) (sys : System) (steps : list StepParams)
    (results : list StepResult) : M (list StepResult) :=
  match steps with
  | [] => ret results
  | step :: rest =>
      let! result := run_step h sys step in
      run_steps_from h sys rest (results ++ [result])
  end.

Definition _RunStepsPerDevice (h : Host) (sys : System)
    (steps : list StepParams) : M (list StepResult) :=
  run_steps_from h sys steps [].

(** [_RunShardedSteps].  An exception of a process of the pool is raised
    again by [async_results.get]; the calls are made one after the other
    here, and the first exception ends them.  In the pool the other
    processes may still record results of their own steps by then: of a
    run that raised, the properties below state only what holds
    whichever steps were recorded. *)
Definition _RunShardedSteps (h : Host) (sys : System)
    (steps : list (string * string)) (flaky_steps : list string)
    (devices : list string) : M Z :=
  match steps with
  | [] => raise (AssertionError "")
  | _ =>
  match devices with
  | [] => raise (AssertionError "No devices connected?")
  | _ =>
      let! st := get_store in
      let! _ :=
        match st with
        | Some _ =>
            if contains "/step_results" (_OUTPUT_DIR h)
            then set_store None
            else raise (AssertionError "")
        | None => ret ()
        end in
      let! st := get_store in
      let! _ :=
        match st with
        | None => set_store (Some ∅)
        | Some _ => ret ()
        end in
      let step_names := Py.sorted steps.*1 in
      let params := all_params steps flaky_steps devices in
      let! _ := print "Start sharding (note: output is not synchronized...)" in
      let! _ := print stars in
      let! start_time := now in
      let! results_per_device :=
        map_async (_RunStepsPerDevice h sys) params in
      let! end_time := now in
      let! _ := print stars in
      let! _ := print "Finished sharding." in
      let! _ := print "Summary" in
      let! _ := for_each (for_each (λ result, print (summary_line result)))
                         results_per_device in
      let total_time :=
        foldl (λ t result, t + res_total_time result) 0
              (concat results_per_device) in
      let! _ := print ("Step time: "
                       +:+ pretty (timedelta_seconds start_time end_time)
                       +:+ " secs") in
      let! _ := print ("Bots time: " +:+ pretty total_time +:+ " secs") in
      ret 0%Z
  end
  end.

(** [with file(path, 'r') as f: ... json.load(f)], before the content is
    used. *)
Definition load (sys : System) (path : string) : M unit :=
  match load_error sys path with
  | Some e => raise e
  | None => ret ()
  end.

(** [main], after the parsing of the options. *)
Definition main (h : Host) (sys : System) (options : Options) : M Z :=
  match given (opt_print_results options) with
  | Some step_name => _PrintStepOutput h step_name
  | None =>
  match given (opt_print_all options) with
  | Some steps =>
      let! _ := load sys steps in
      _PrintAllStepsOutput h steps
  | None =>
      let! _ := _KillPendingServers h in
      if negb (ResetTestServerPortAllocation h)
      then raise (Exception "Failed to reset test server port.")
      else
        let devices := Py.sorted (GetAttachedDevices h) in
        match devices with
        | [] =>
            let! _ := print "You must attach a device" in
            ret 1%Z
        | _ =>
            match opt_steps options with
            | None => raise (TypeError "coercing to Unicode: need string")
            | Some path =>
                let! _ := load sys path in
                let steps := json_dict h path in
                let! flaky_steps :=
                  match given (opt_flaky_steps options) with
                  | Some flaky =>
                      let! _ := load sys flaky in
                      ret (json_list h flaky)
                  | None => ret []
                  end in
                _RunShardedSteps h sys steps flaky_steps devices
            end
        end
  end
  end.

(** The command line that [_RunShardedSteps] makes of the command [cmd]
    of a step for a device. *)
Definition command_line (cmd device : string) : string :=
  cmd +:+ " --device " +:+ device +:+ " --keep_test_server_ports".

(** A step of the manifest that the system lets run on the devices: its
    command line can be spawned for each of them, and the file of its
    result opens as the entry of its name in the result directory. *)
Definition runnable (h : Host) (sys : System) (devices : list string)
    (item : string * string) : Prop :=
  (∀ device, device ∈ devices →
     spawn_error sys (command_line item.2 device) = None)
  ∧ open_w sys (path_join (_OUTPUT_DIR h) item.1) = Ok (InOutputDir item.1).

(** The same for the parameters of a step, as [_RunStepsPerDevice] gets
    them. *)
Definition runs (h : Host) (sys : System) (step : StepParams) : Prop :=
  spawn_error sys (step_cmd step) = None
  ∧ open_w sys (path_join (_OUTPUT_DIR h) (step_name step))
    = Ok (InOutputDir (step_name step)).

(** The result directory exists and holds nothing but results of the
    steps [params], as [_RunStepsPerDevice] records them. *)
Definition only_results_of (h : Host) (params : list StepParams) (w : World)
  : Prop :=
  ∃ files, store w = Some files
    ∧ ∀ name r, files !! name = Some r →
        ∃ p, p ∈ params ∧ r = result_of h p.

End Fallible.

(** *** Concrete hosts and worlds for the examples *)

Module Scenario.
Import bb_run_sharded_steps.

(** A bot with one device: the command of [foo] exits with 1, that of
    [bar] is killed and reports no status, any other one passes. *)
Definition host : Host :=
  {| DIR_SOURCE_ROOT := "/b/build/src";
     pexpect_run := λ cmd,
       if String.prefix "run_foo" cmd then ("FAILED foo", Some 1%Z)
       else if String.prefix "run_bar" cmd then ("Killed", None)
       else ("ok", Some 0%Z);
     elapsed := λ _, 2;
     str_of_time := pretty;
     GetAttachedDevices := ["emulator-5554"];
     ResetTestServerPortAllocation := true;
     json_dict := λ path,
       if String.eqb path "steps.json"
       then [("foo", "run_foo"); ("bar", "run_bar")]
       else [];
     json_list := λ path,
       if String.eqb path "flaky.json" then ["foo"] else [] |}.

(** The same bot with no device attached. *)
Definition host_without_devices : Host :=
  {| DIR_SOURCE_ROOT := DIR_SOURCE_ROOT host;
     pexpect_run := pexpect_run host;
     elapsed := elapsed host;
     str_of_time := str_of_time host;
     GetAttachedDevices := [];
     ResetTestServerPortAllocation := true;
     json_dict := json_dict host;
     json_list := json_list host |}.

(** No result directory yet, nothing printed. *)
Definition fresh : World := {| store := None; stdout := []; clock := 0 |}.

(** A result directory left by an earlier run. *)
Definition old_files : gmap string StepResult :=
  {[ "old" := {| res_name := "old"; res_output := "old output";
                 res_exit_code := 3%Z; res_total_time := 1;
                 res_device := "emulator-5554" |} ]}.

Definition stale : World :=
  {| store := Some old_files; stdout := []; clock := 0 |}.



Definition run_options : Options :=
  {| opt_steps := Some "steps.json";
     opt_flaky_steps := Some "flaky.json";
     opt_print_results := None;
     opt_print_all := None |}.

(** The run on a given manifest file, without flaky steps. *)
Definition run_options_for (steps_file : string) : Options :=
  {| opt_steps := Some steps_file;
     opt_flaky_steps := None;
     opt_print_results := None;
     opt_print_all := None |}.

(** The same bot with more manifests: one with a command that is not
    installed (its two steps in the order in which CPython 2.7 iterates
    the keys [foo] and [nosuch]), one with a step named after a path. *)
Definition bot : Host :=
  {| DIR_SOURCE_ROOT := DIR_SOURCE_ROOT host;
     pexpect_run := pexpect_run host;
     elapsed := elapsed host;
     str_of_time := str_of_time host;
     GetAttachedDevices := GetAttachedDevices host;
     ResetTestServerPortAllocation := true;
     json_dict := λ path,
       if String.eqb path "nosuch.json"
       then [("foo", "run_foo"); ("nosuch", "nosuch")]
       else if String.eqb path "nested.json"
       then [("perf/foo", "run_foo")]
       else json_dict host path;
     json_list := json_list host |}.

(** The first bot when the port reset fails, with and without a
    device. *)
Definition bot_without_ports : Host :=
  {| DIR_SOURCE_ROOT := DIR_SOURCE_ROOT host;
     pexpect_run := pexpect_run host;
     elapsed := elapsed host;
     str_of_time := str_of_time host;
     GetAttachedDevices := GetAttachedDevices host;
     ResetTestServerPortAllocation := false;
     json_dict := json_dict host;
     json_list := json_list host |}.

Definition host_without_devices_and_ports : Host :=
  {| DIR_SOURCE_ROOT := DIR_SOURCE_ROOT host;
     pexpect_run := pexpect_run host;
     elapsed := elapsed host;
     str_of_time := str_of_time host;
     GetAttachedDevices := [];
     ResetTestServerPortAllocation := false;
     json_dict := json_dict host;
     json_list := json_list host |}.

(** What is left of [s] after the prefix [p]. *)
Fixpoint after_prefix (p s : string) : option string :=
  match p, s with
  | EmptyString, _ => Some s
  | String c p', String d s' =>
      if Ascii.eqb c d then after_prefix p' s' else None
  | String _ _, EmptyString => None
  end.

(** A name that can be given to a file of a directory. *)
Definition plain_name (name : string) : bool :=
  negb (String.eqb name "") && negb (String.eqb name ".")
  && negb (String.eqb name "..") && negb (contains "/" name).

(** The operating system of the bot.  The command [nosuch] is not
    installed, every other one can be spawned.  The result directory
    holds files only: a plain name opens the entry of that name, and any
    other step name of the manifests above cannot be opened (a step
    named after a path has no directory to be in).  The manifest
    [missing.json] does not exist. *)
Definition system : Fallible.System :=
  {| Fallible.spawn_error := λ cmd,
       if String.prefix "nosuch " cmd
       then Some (Exception
                    "The command was not found or was not executable: nosuch.")
       else None;
     Fallible.open_w := λ path,
       match after_prefix "/b/build/src/out/step_results/" path with
       | Some name =>
           if plain_name name then Ok (Fallible.InOutputDir name)
           else Raise (IOError path)
       | None => Ok Fallible.Elsewhere
       end;
     Fallible.load_error := λ path,
       if String.eqb path "missing.json" then Some (IOError "missing.json")
       else None |}.

(** An environment with a blacklist file, two live devices. *)
Definition device_a : Device := mkDevice "emulator-5554".

Definition device_b : Device := mkDevice "emulator-5556".

Definition env : LocalDeviceEnvironment.Env :=
  {| LocalDeviceEnvironment._blacklist := Some [];
     LocalDeviceEnvironment._device_serial := None;
     LocalDeviceEnvironment._devices := [device_a; device_b];
     LocalDeviceEnvironment.warnings := [] |}.

(** An environment asked for one device by its serial. *)
Definition env_for (serial : string) : LocalDeviceEnvironment.Env :=
  LocalDeviceEnvironment.init None (Some serial).

End Scenario.

(** *** local_device_environment.py: the device caches *)

Module DeviceCache.

Section Caches.
(** What the cache code takes from its surroundings: the state [Cache]
    that a device keeps, the two methods of a device that dump and load
    it (their class is not part of the sources at hand), and the output
    directory of [constants.GetOutDirectory()], which exists. *)
Context {Cache : Type}.
Variable DumpCacheData : Cache → string.
Variable LoadCacheData : string → Cache → Cache.
Variable GetOutDirectory : string.

(** The files of the host, the cache of every device (by serial) and
    the lines sent to [logging.info]. *)
Record World : Type := mkWorld {
  files : gmap string string;
  caches : string → Cache;
  info : list string
}.

(** [_DeviceCachePath]:
<<
  file_name = 'device_cache_%s.json' % device.adb.GetDeviceSerial()
  return os.path.join(constants.GetOutDirectory(), file_name)
>> *)
Definition _DeviceCachePath (device : Device) : string :=
  let file_name := "device_cache_" +:+ GetDeviceSerial device +:+ ".json" in
  bb_run_sharded_steps.path_join GetOutDirectory file_name.

(** The end of [SetUp]:
<<
    if self._enable_device_cache:
      for d in self._devices:
        cache_path = _DeviceCachePath(d)
        if os.path.exists(cache_path):
          logging.info('Using device cache: %s', cache_path)
          with open(cache_path) as f:
            d.LoadCacheData(f.read())
          os.unlink(cache_path)
>> *)
Definition load_cache (w : World) (d : Device) : World :=
  let cache_path := _DeviceCachePath d in
  match files w !! cache_path with
  | Some data =>
      {| files := delete cache_path (files w);
         caches := λ serial,
           if decide (serial = GetDeviceSerial d)
           then LoadCacheData data (caches w serial)
           else caches w serial;
         info := info w ++ ["Using device cache: " +:+ cache_path] |}
  | None => w
  end.

Definition load_caches (enable_device_cache : bool) (devices : list Device)
    (w : World) : World :=
  if enable_device_cache then foldl load_cache w devices else w.

(** [SetUp] as a whole: the choice of the live set, then the caches. *)
Definition SetUp (env : LocalDeviceEnvironment.Env) (fleet : list Device)
    (enable_device_cache : bool) (w : World)
  : result unit * LocalDeviceEnvironment.Env * World :=
  match LocalDeviceEnvironment.SetUp env fleet with
  | (Ok _, env') =>
      (Ok (), env',
       load_caches enable_device_cache
         (LocalDeviceEnvironment._devices env') w)
  | (Raise e, env') => (Raise e, env', w)
  end.

(** [TearDown]:
<<
    for d in self._devices:
      cache_path = _DeviceCachePath(d)
      with open(cache_path, 'w') as f:
        f.write(d.DumpCacheData())
        logging.info('Wrote device cache: %s', cache_path)
>> *)
Definition write_cache (w : World) (d : Device) : World :=
  let cache_path := _DeviceCachePath d in
  {| files := <[cache_path := DumpCacheData (caches w (GetDeviceSerial d))]>
                (files w);
     caches := caches w;
     info := info w ++ ["Wrote device cache: " +:+ cache_path] |}.

Definition TearDown (env : LocalDeviceEnvironment.Env) (w : World) : World :=
  foldl write_cache w (LocalDeviceEnvironment._devices env).

End Caches.

End DeviceCache.

(** *** local_device_gtest_run.py: pulling the files of the application *)

Module PullAppFiles.

Section Pull.
(** The paths come from the library: [device_path f] is
    [posixpath.join(device_dir, f)], and [host_split f] is
    [os.path.splitext] of the host path of [f] under the directory of
    the device.  [PullFile] is the method of the device, whose class is
    not part of the sources at hand: it is given the file of the device,
    the path on the host and the files of the host, and returns these
    files as it leaves them, or raises. *)
Variable device_path : string → string.
Variable host_split : string → string * string.
Variable PullFile :
  string → string → gmap string string → result unit * gmap string string.

(** ['%s_%d%s' % (host_file_base, i, ext)]. *)
Definition host_file_name (host_file_base ext : string) (i : nat) : string :=
  host_file_base +:+ "_" +:+ pretty i +:+ ext.

(** The search of a name that is free:
<<
    for i in itertools.count():
      host_file = '%s_%d%s' % (host_file_base, i, ext)
      if not os.path.exists(host_file):
        break
>>
    The loop has no bound of its own; [tries] bounds it here, and one
    try more than there are files on the host is always enough. *)
Fixpoint first_free (host : gmap string string) (host_file_base ext : string)
    (tries i : nat) : option string :=
  match tries with
  | 0 => None
  | S tries' =>
      let host_file := host_file_name host_file_base ext i in
      match host !! host_file with
      | None => Some host_file
      | Some _ => first_free host host_file_base ext tries' (S i)
      end
  end.

(** [PullAppFilesImpl], on the files of the host. *)
Fixpoint PullAppFilesImpl (files : list string) (host : gmap string string)
  : result unit * gmap string string :=
  match files with
  | [] => (Ok (), host)
  | f :: rest =>
      let device_file := device_path f in
      let host_file_base := (host_split f).1 in
      let ext := (host_split f).2 in
      match first_free host host_file_base ext (S (size host)) 0 with
      | None => (Raise (Exception "no free name"), host)
      | Some host_file =>
          match PullFile device_file host_file host with
          | (Ok _, host') => PullAppFilesImpl rest host'
          | (Raise e, host') => (Raise e, host')
          end
      end
  end.

End Pull.

End PullAppFiles.

(** *** A host for the examples on caches and pulled files *)

Module Scenario2.

(** The cache of a device is its dumped text; loading replaces it. *)
Definition dump (cache : string) : string := cache.

Definition load (data : string) (cache : string) : string := data.

Definition out_directory : string := "/b/build/src/out/Debug".

(** No file on the host; every device has some cache. *)
Definition world : DeviceCache.World :=
  {| DeviceCache.files := ∅;
     DeviceCache.caches := λ serial, "cache of " +:+ serial;
     DeviceCache.info := [] |}.

(** The files of the application on the device, and the paths of the
    library for a file name (no directory, no extension in the name). *)
Definition device_files : gmap string string :=
  {[ "/data/data/app/trace" := "first trace" ]}.

Definition device_path (f : string) : string := "/data/data/app/" +:+ f.

(** A device that copies the file asked for to the host, when it has
    it. *)
Definition pull_file (device_file host_file : string)
    (host : gmap string string) : result unit * gmap string string :=
  match device_files !! device_file with
  | Some content => (Ok (), <[host_file := content]> host)
  | None => (Raise (Exception ("Failed to pull " +:+ device_file)), host)
  end.

Definition host_split (f : string) : string * string :=
  ("/tmp/pulled/emulator-5554/" +:+ f, "").

(** A host that already holds the first pulled copy. *)
Definition host_files : gmap string string :=
  {[ "/tmp/pulled/emulator-5554/trace_0" := "older trace" ]}.

End Scenario2.

(** The same host with the attached devices reported as [devices]. *)
Definition host_with_devices (h : bb_run_sharded_steps.Host)
    (devices : list string) : bb_run_sharded_steps.Host :=
  {| bb_run_sharded_steps.DIR_SOURCE_ROOT :=
       bb_run_sharded_steps.DIR_SOURCE_ROOT h;
     bb_run_sharded_steps.pexpect_run := bb_run_sharded_steps.pexpect_run h;
     bb_run_sharded_steps.elapsed := bb_run_sharded_steps.elapsed h;
     bb_run_sharded_steps.str_of_time := bb_run_sharded_steps.str_of_time h;
     bb_run_sharded_steps.GetAttachedDevices := devices;
     bb_run_sharded_steps.ResetTestServerPortAllocation :=
       bb_run_sharded_steps.ResetTestServerPortAllocation h;
     bb_run_sharded_steps.json_dict := bb_run_sharded_steps.json_dict h;
     bb_run_sharded_steps.json_list := bb_run_sharded_steps.json_list h |}.

(** ** Part II: properties *)

(** *** Python sequences *)

Section PyFacts.
Context {A : Type}.
Implicit Types l : list A.

Lemma xrange_unit (n : nat) : Py.xrange 0 n 1 = seq 0 n.
Proof.
  unfold Py.xrange.
  replace ((n - 0 + 1 - 1) / 1) with n by (rewrite Nat.div_1_r; lia).
  induction n as [|n IH] using nat_ind; [done|].
  rewrite seq_S, fmap_app, IH. simpl. f_equal. f_equal. lia.
Qed.

Lemma xrange_succ (i m n : nat) :
  Py.xrange (S i) (S m) n = S <$> Py.xrange i m n.
Proof.
  unfold Py.xrange. rewrite <- list_fmap_compose.
  replace (S m - S i) with (m - i) by lia.
  apply list_fmap_ext. intros _ k _. simpl. lia.
Qed.

Lemma xrange_zero (m n : nat) :
  1 ≤ n → Py.xrange 0 (S m) n = 0 :: (S <$> Py.xrange (n - 1) m n).
Proof.
  intros Hn. unfold Py.xrange.
  replace (S m - 0 + n - 1) with (m + 1 * n) by lia.
  rewrite Nat.div_add by lia.
  replace ((m - (n - 1) + n - 1) / n) with (m / n); cycle 1.
  { destruct (decide (n - 1 ≤ m)) as [Hle|Hgt].
    - f_equal. lia.
    - rewrite !Nat.div_small by lia. done. }
  rewrite Nat.add_comm. simpl. f_equal.
  rewrite <- fmap_S_seq, <- !list_fmap_compose.
  apply list_fmap_ext. intros _ k _. simpl. lia.
Qed.

Lemma omap_lookup_cons (x : A) l (ks : list nat) :
  omap (λ k, (x :: l) !! k) (S <$> ks) = omap (λ k, l !! k) ks.
Proof.
  induction ks as [|k ks IH]; [done|].
  rewrite fmap_cons. cbn [omap list_omap]. by rewrite IH.
Qed.

(** [l[k::n]] is the structural [every n k l]. *)
Lemma slice_step_every l (n k : nat) :
  1 ≤ n → Py.slice_step l k n = Py.every n k l.
Proof.
  intros Hn. revert k. induction l as [|x l IH]; intros k.
  - unfold Py.slice_step, Py.xrange. simpl.
    replace (0 - k + n - 1) with (n - 1) by lia.
    rewrite Nat.div_small by lia. done.
  - unfold Py.slice_step in *. destruct k as [|k]; simpl length.
    + rewrite xrange_zero by done. simpl.
      rewrite omap_lookup_cons. f_equal. apply IH.
    + rewrite xrange_succ, omap_lookup_cons. apply IH.
Qed.

(** The item at position [j] of [l[k::n]] is the item of [l] at flat
    index [k + j * n]. *)
Lemma every_lookup l (n k j : nat) :
  1 ≤ n → Py.every n k l !! j = l !! (k + j * n).
Proof.
  intros Hn. revert k j. induction l as [|x l IH]; intros k j; [done|].
  destruct k as [|k].
  - destruct j as [|j]; [done|].
    replace (0 + S j * n) with (S (n - 1 + j * n)) by lia.
    simpl. apply IH.
  - simpl. apply IH.
Qed.

Lemma every_length_le l (n k : nat) : length (Py.every n k l) ≤ length l.
Proof.
  revert k. induction l as [|x l IH]; intros k; [done|].
  destruct k; simpl; [specialize (IH (n - 1))|specialize (IH k)]; lia.
Qed.

(** The [n] strided slices of a list together hold the items of the
    list, each one once. *)
Lemma every_concat_perm l (n : nat) :
  1 ≤ n → concat ((λ k, Py.every n k l) <$> seq 0 n) ≡ₚ l.
Proof.
  intros Hn. induction l as [|x l IH].
  - apply Permutation_nil_r.
    induction (seq 0 n) as [|k ks IHk]; [done|]. by simpl.
  - destruct n as [|n]; [lia|].
    rewrite <- cons_seq. simpl. rewrite <- fmap_S_seq, <- list_fmap_compose.
    replace (n - 0) with n by lia.
    change ((λ k, Py.every (S n) k (x :: l)) ∘ S)
      with (λ k, Py.every (S n) k l).
    constructor.
    rewrite seq_S, fmap_app, concat_app in IH. simpl in IH.
    rewrite app_nil_r in IH.
    etrans; [apply Permutation_app_comm|]. exact IH.
Qed.

(** Chunking: the pieces [u[j:j+m]] for [j] in [xrange(0, len(u), m)]. *)
Lemma slice_chunks_take l (m c : nat) :
  concat ((λ j, Py.slice l j (j + m)) <$> ((λ k, 0 + k * m) <$> seq 0 c))
  = take (c * m) l.
Proof.
  induction c as [|c IH]; [done|].
  rewrite seq_S, !fmap_app, concat_app, IH. simpl. rewrite app_nil_r.
  unfold Py.slice. replace (c * m + m - c * m) with m by lia.
  rewrite take_take_drop. f_equal. lia.
Qed.

Lemma xrange_count_covers (len m : nat) :
  1 ≤ m → len ≤ (len - 0 + m - 1) / m * m.
Proof.
  intros Hm. replace (len - 0 + m - 1) with (len + m - 1) by lia.
  pose proof (Nat.div_mod_eq (len + m - 1) m) as Hd.
  pose proof (Nat.mod_upper_bound (len + m - 1) m ltac:(lia)) as Hr.
  nia.
Qed.

End PyFacts.

(** *** Sorting *)

Lemma insert_sorted_perm (x : string) (l : list string) :
  Py.insert_sorted x l ≡ₚ x :: l.
Proof.
  induction l as [|y l IH]; [done|]. simpl.
  destruct (String.leb x y); [done|].
  rewrite IH. apply Permutation_swap.
Qed.

Lemma sorted_perm (l : list string) : Py.sorted l ≡ₚ l.
Proof.
  induction l as [|x l IH]; [done|].
  unfold Py.sorted. simpl. fold (Py.sorted l).
  by rewrite insert_sorted_perm, IH.
Qed.

Lemma sorted_nil_inv (l : list string) : Py.sorted l = [] → l = [].
Proof.
  intros H. apply Permutation_nil_r. rewrite <- H. by rewrite sorted_perm.
Qed.

#[global] Instance str_le_antisymm : AntiSymm (=) Py.str_le.
Proof. intros a b Hab Hba. by apply String.leb_antisym. Qed.

#[global] Instance str_le_total : Total Py.str_le.
Proof. intros a b. apply String.leb_total. Qed.

#[global] Instance str_le_trans : Transitive Py.str_le.
Proof.
  intros a b c. unfold Py.str_le, String.leb.
  change String.compare with String_as_OT.cmp.
  destruct (String_as_OT.cmp a b) eqn:Hab; [| |done];
    destruct (String_as_OT.cmp b c) eqn:Hbc; try done; intros _ _.
  - apply String_as_OT.cmp_eq in Hab as ->. by rewrite Hbc.
  - apply String_as_OT.cmp_eq in Hab as ->. by rewrite Hbc.
  - apply String_as_OT.cmp_eq in Hbc as <-. by rewrite Hab.
  - apply String_as_OT.cmp_lt in Hab, Hbc.
    pose proof (String_as_OT.lt_trans _ _ _ Hab Hbc) as Hac.
    apply String_as_OT.cmp_lt in Hac. by rewrite Hac.
Qed.

Lemma insert_sorted_sorted (x : string) (l : list string) :
  StronglySorted Py.str_le l → StronglySorted Py.str_le (Py.insert_sorted x l).
Proof.
  induction l as [|y l IH]; intros Hl; simpl.
  - by repeat constructor.
  - destruct (String.leb x y) eqn:Hxy.
    + constructor; [done|]. constructor; [done|].
      apply StronglySorted_cons in Hl as [Hy _].
      eapply Forall_impl; [exact Hy|]. intros z Hz. by etrans.
    + apply StronglySorted_cons in Hl as [Hy Hl].
      constructor; [by apply IH|].
      rewrite insert_sorted_perm. constructor; [|done].
      destruct (String.leb_total x y) as [H|H]; [congruence|done].
Qed.

Lemma sorted_sorted (l : list string) : StronglySorted Py.str_le (Py.sorted l).
Proof.
  induction l as [|x l IH]; [constructor|].
  unfold Py.sorted. simpl. by apply insert_sorted_sorted.
Qed.

(** [sorted] gives the same list for the same items, in whatever order
    they come. *)
Lemma sorted_unique (l1 l2 : list string) :
  l1 ≡ₚ l2 → Py.sorted l1 = Py.sorted l2.
Proof.
  intros Hperm. apply (StronglySorted_unique Py.str_le).
  - apply sorted_sorted.
  - apply sorted_sorted.
  - by rewrite !sorted_perm.
Qed.

(** *** The work partitioner *)

Section Partitioner.
Context {A : Type}.
Implicit Types (tests u : list A) (shards : list (list A)).
Import LocalDeviceGtestRun.

Lemma foldl_extend {B} (f : B → list (list A)) (ks : list B) shards :
  foldl (λ acc i, acc ++ f i) shards ks = shards ++ concat (f <$> ks).
Proof.
  revert shards. induction ks as [|k ks IH]; intros shards; simpl.
  - by rewrite app_nil_r.
  - by rewrite IH, app_assoc.
Qed.

(** The loop of [_CreateShards], read as one comprehension over the
    worker indices. *)
Lemma create_shards_concat (m n : nat) tests :
  create_shards m n tests
  = concat ((λ i, bounded_shards m (unbounded_shard n tests i)) <$> seq 0 n).
Proof. unfold create_shards. by rewrite foldl_extend, xrange_unit. Qed.

Lemma bounded_shards_concat (m : nat) u :
  1 ≤ m → concat (bounded_shards m u) = u.
Proof.
  intros Hm. unfold bounded_shards, Py.xrange.
  rewrite slice_chunks_take. apply take_ge. by apply xrange_count_covers.
Qed.

Lemma bounded_shards_length (m : nat) u :
  Forall (λ s, length s ≤ m) (bounded_shards m u).
Proof.
  unfold bounded_shards. apply Forall_fmap, Forall_forall. intros j _.
  simpl. unfold Py.slice. rewrite length_take. lia.
Qed.

Lemma concat_concat_fmap {B} (g : B → list (list A)) (ks : list B) :
  concat (concat (g <$> ks)) = concat ((λ k, concat (g k)) <$> ks).
Proof.
  induction ks as [|k ks IH]; [done|].
  rewrite !fmap_cons, !concat_cons, concat_app. by rewrite IH.
Qed.

Lemma create_shards_perm (m n : nat) tests :
  1 ≤ m → 1 ≤ n → concat (create_shards m n tests) ≡ₚ tests.
Proof.
  intros Hm Hn. rewrite create_shards_concat. rewrite concat_concat_fmap.
  etrans; [|exact (every_concat_perm tests n Hn)].
  apply reflexive_eq. f_equal. apply list_fmap_ext. intros _ k _.
  rewrite bounded_shards_concat by done.
  by apply slice_step_every.
Qed.

Lemma create_shards_length (m n : nat) tests :
  Forall (λ s, length s ≤ m) (create_shards m n tests).
Proof.
  rewrite create_shards_concat.
  induction (seq 0 n) as [|k ks IH]; simpl; [constructor|].
  apply Forall_app. split; [apply bounded_shards_length | exact IH].
Qed.

Lemma elem_of_concat_lookup shards (k : nat) (s : list A) (x : A) :
  shards !! k = Some s → x ∈ s → x ∈ concat shards.
Proof.
  revert k. induction shards as [|s0 shards IH]; intros k Hk Hx; [done|].
  simpl. apply elem_of_app. destruct k as [|k]; simpl in Hk.
  - left. congruence.
  - right. eauto.
Qed.

Lemma elem_of_concat_inv shards (x : A) :
  x ∈ concat shards → ∃ k s, shards !! k = Some s ∧ x ∈ s.
Proof.
  induction shards as [|s0 shards IH]; simpl; intros Hx.
  - by apply elem_of_nil in Hx.
  - apply elem_of_app in Hx as [Hx|Hx].
    + by exists 0, s0.
    + destruct (IH Hx) as (k & s & Hk & Hs). by exists (S k), s.
Qed.

(** In a duplicate-free concatenation an item sits in one piece only. *)
Lemma NoDup_concat_unique shards (i j : nat) (s s' : list A) (x : A) :
  NoDup (concat shards) →
  shards !! i = Some s → shards !! j = Some s' → x ∈ s → x ∈ s' → i = j.
Proof.
  revert i j. induction shards as [|s0 shards IH]; intros i j Hnd Hi Hj Hx Hx';
    [done|].
  simpl in Hnd. apply NoDup_app in Hnd as (_ & Hdisj & Hnd).
  destruct i as [|i], j as [|j]; simpl in Hi, Hj; [done| | |].
  - exfalso. apply (Hdisj x); [congruence|].
    by eapply elem_of_concat_lookup.
  - exfalso. apply (Hdisj x); [congruence|].
    by eapply elem_of_concat_lookup.
  - f_equal. by eapply IH.
Qed.

End Partitioner.

(** *** The list of tests *)

Lemma GetTests_elem_of (test_lists : list (option (list string))) (t : string) :
  t ∈ LocalDeviceGtestRun._GetTests test_lists
  ↔ ∃ tl, Some tl ∈ test_lists ∧ t ∈ tl.
Proof.
  unfold LocalDeviceGtestRun._GetTests.
  rewrite sorted_perm, elem_of_remove_dups. split.
  - intros Hin. apply elem_of_concat_inv in Hin as (k & tl & Hk & Ht).
    exists tl. split; [|done].
    apply list_elem_of_lookup_2 in Hk. apply list_elem_of_omap in Hk
      as ([tl'|] & Hin & Htl); [|done].
    destruct tl' as [|t' tl']; simpl in Htl; [done|].
    by injection Htl as <-.
  - intros (tl & Hin & Ht).
    assert (Htl : tl ∈ omap (λ o, if Py.truthy o then o else None) test_lists).
    { apply list_elem_of_omap. exists (Some tl). split; [done|].
      destruct tl as [|t' tl]; [by apply elem_of_nil in Ht|done]. }
    apply list_elem_of_lookup in Htl as [k Hk].
    by eapply elem_of_concat_lookup.
Qed.

(** [_GetTests] gives a sorted list without duplicates of the tests
    that some device listed, and nothing but these tests decides it. *)
Lemma GetTests_sorted_deduplicated (test_lists : list (option (list string))) :
  StronglySorted Py.str_le (LocalDeviceGtestRun._GetTests test_lists)
  ∧ NoDup (LocalDeviceGtestRun._GetTests test_lists).
Proof.
  unfold LocalDeviceGtestRun._GetTests. split; [apply sorted_sorted|].
  rewrite sorted_perm. apply NoDup_remove_dups.
Qed.

Lemma GetTests_deterministic (lists1 lists2 : list (option (list string))) :
  (∀ t, (∃ tl, Some tl ∈ lists1 ∧ t ∈ tl) ↔ (∃ tl, Some tl ∈ lists2 ∧ t ∈ tl)) →
  LocalDeviceGtestRun._GetTests lists1 = LocalDeviceGtestRun._GetTests lists2.
Proof.
  intros Hsame. apply (StronglySorted_unique Py.str_le).
  - apply GetTests_sorted_deduplicated.
  - apply GetTests_sorted_deduplicated.
  - apply NoDup_Permutation.
    + apply GetTests_sorted_deduplicated.
    + apply GetTests_sorted_deduplicated.
    + intros t. by rewrite !GetTests_elem_of.
Qed.

(** C1. For every task list and every live set of [N >= 1] workers,
    [_CreateShards] returns shards whose concatenation is a permutation of
    the task list (the multiset union of the shards is the task list: no
    task lost, none duplicated) and whose lengths are at most
    [_MAX_SHARD_SIZE] = 256; when the task list is duplicate-free, every
    task sits in exactly one shard. *)
Theorem CreateShards_partitions {A} (devices : list Device) (tests : list A) :
  1 ≤ length devices →
  ∃ shards,
    LocalDeviceGtestRun._CreateShards devices tests = Ok shards
    ∧ concat shards ≡ₚ tests
    ∧ Forall (λ s, length s ≤ 256) shards
    ∧ (NoDup tests →
       ∀ t, t ∈ tests →
         ∃ k s, shards !! k = Some s ∧ t ∈ s
                ∧ ∀ k' s', shards !! k' = Some s' → t ∈ s' → k' = k).
Proof.
  intros Hn. unfold LocalDeviceGtestRun._CreateShards.
  destruct devices as [|d ds]; [simpl in Hn; lia|].
  cbn [env_devices]. eexists. split; [reflexivity|].
  assert (Hperm :
    concat (LocalDeviceGtestRun.create_shards
              LocalDeviceGtestRun._MAX_SHARD_SIZE (length (d :: ds)) tests)
    ≡ₚ tests).
  { apply create_shards_perm; [unfold LocalDeviceGtestRun._MAX_SHARD_SIZE|];
      lia. }
  split; [exact Hperm|]. split; [apply create_shards_length|].
  intros Hnd t Ht.
  assert (Hin : t ∈ concat (LocalDeviceGtestRun.create_shards
              LocalDeviceGtestRun._MAX_SHARD_SIZE (length (d :: ds)) tests))
    by (by rewrite Hperm).
  destruct (elem_of_concat_inv _ _ Hin) as (k & s & Hk & Hs).
  exists k, s. split; [done|]. split; [done|].
  intros k' s' Hk' Hs'.
  eapply NoDup_concat_unique; [|exact Hk'|exact Hk|exact Hs'|exact Hs].
  by rewrite Hperm.
Qed.

Lemma CreateShards_partitions_witness :
  1 ≤ length [mkDevice "emulator-5554"; mkDevice "emulator-5556"]
  ∧ ∃ shards,
      LocalDeviceGtestRun._CreateShards
        [mkDevice "emulator-5554"; mkDevice "emulator-5556"]
        ["A.a"; "A.b"; "B.a"] = Ok shards
      ∧ concat shards ≡ₚ ["A.a"; "A.b"; "B.a"]
      ∧ Forall (λ s, length s ≤ 256) shards
      ∧ (NoDup ["A.a"; "A.b"; "B.a"] →
         ∀ t, t ∈ ["A.a"; "A.b"; "B.a"] →
           ∃ k s, shards !! k = Some s ∧ t ∈ s
                  ∧ ∀ k' s', shards !! k' = Some s' → t ∈ s' → k' = k).
Proof.
  split; [simpl; lia|].
  apply (CreateShards_partitions
           [mkDevice "emulator-5554"; mkDevice "emulator-5556"]
           ["A.a"; "A.b"; "B.a"]).
  simpl; lia.
Defined.

(** C2. The task at flat index [i] goes to worker [i mod N] (as item
    [i / N] of that worker's list, so in the original order), each
    worker's list is cut sequentially into shards of at most the shard
    bound, and the shards of worker 0, worker 1, ... follow each other in
    the outcome.  With 5 tasks, 2 workers and bound 3, worker 0 gets the
    tasks at indices 0, 2, 4 as one shard and worker 1 those at 1, 3. *)
Theorem CreateShards_round_robin {A} (m n : nat) (tests : list A) :
  1 ≤ m → 1 ≤ n →
  (∀ i t, tests !! i = Some t →
     LocalDeviceGtestRun.unbounded_shard n tests (i mod n) !! (i / n) = Some t)
  ∧ (∀ w j t, LocalDeviceGtestRun.unbounded_shard n tests w !! j = Some t →
       tests !! (w + j * n) = Some t)
  ∧ LocalDeviceGtestRun.create_shards m n tests
    = concat ((λ w, LocalDeviceGtestRun.bounded_shards m
                      (LocalDeviceGtestRun.unbounded_shard n tests w))
              <$> seq 0 n)
  ∧ (∀ u : list A,
       concat (LocalDeviceGtestRun.bounded_shards m u) = u
       ∧ Forall (λ s, length s ≤ m) (LocalDeviceGtestRun.bounded_shards m u)
       ∧ ∀ k s, LocalDeviceGtestRun.bounded_shards m u !! k = Some s →
                s = take m (drop (k * m) u))
  ∧ (∀ devices : list Device, length devices = n →
       LocalDeviceGtestRun._CreateShards devices tests
       = Ok (LocalDeviceGtestRun.create_shards 256 n tests))
  ∧ (∀ t0 t1 t2 t3 t4 : A,
       LocalDeviceGtestRun.bounded_shards 3
         (LocalDeviceGtestRun.unbounded_shard 2 [t0; t1; t2; t3; t4] 0)
       = [[t0; t2; t4]]
       ∧ LocalDeviceGtestRun.bounded_shards 3
           (LocalDeviceGtestRun.unbounded_shard 2 [t0; t1; t2; t3; t4] 1)
         = [[t1; t3]]
       ∧ LocalDeviceGtestRun.create_shards 3 2 [t0; t1; t2; t3; t4]
         = [[t0; t2; t4]; [t1; t3]]).
Proof.
  intros Hm Hn. unfold LocalDeviceGtestRun.unbounded_shard.
  split; [|split; [|split; [|split; [|split]]]].
  - intros i t Hi. rewrite slice_step_every, every_lookup by done.
    rewrite <- Hi. f_equal.
    pose proof (Nat.div_mod_eq i n). lia.
  - intros w j t Hj. by rewrite slice_step_every, every_lookup in Hj.
  - apply create_shards_concat.
  - intros u. split; [by apply bounded_shards_concat|].
    split; [apply bounded_shards_length|].
    intros k s Hk. unfold LocalDeviceGtestRun.bounded_shards, Py.xrange in Hk.
    rewrite <- list_fmap_compose in Hk.
    apply list_lookup_fmap_Some in Hk as (j & -> & Hj).
    apply lookup_seq in Hj as [-> _]. simpl. unfold Py.slice.
    f_equal. lia.
  - intros devices Hlen. unfold LocalDeviceGtestRun._CreateShards.
    destruct devices as [|d ds]; [simpl in Hlen; lia|].
    cbn [env_devices]. by rewrite Hlen.
  - intros. split; [reflexivity|]. split; reflexivity.
Qed.

Lemma CreateShards_round_robin_witness :
  1 ≤ 3 ∧ 1 ≤ 2
  ∧ LocalDeviceGtestRun.unbounded_shard 2 ["t0"; "t1"; "t2"; "t3"; "t4"]
      (4 mod 2) !! (4 / 2) = Some "t4"
  ∧ LocalDeviceGtestRun.create_shards 3 2 ["t0"; "t1"; "t2"; "t3"; "t4"]
    = [["t0"; "t2"; "t4"]; ["t1"; "t3"]].
Proof.
  split; [lia|]. split; [lia|].
  destruct (CreateShards_round_robin 3 2 ["t0"; "t1"; "t2"; "t3"; "t4"]
              ltac:(lia) ltac:(lia))
    as (Hindex & _ & _ & _ & _ & Hscenario).
  split; [by apply Hindex|apply (Hscenario "t0" "t1" "t2" "t3" "t4")].
Defined.

(** *** Steps and their recorded results *)

Section StepFacts.
Import bb_run_sharded_steps.
Variable h : Host.

Lemma prefix_refl (s : string) : String.prefix s s = true.
Proof.
  induction s as [|c s IH]; [done|]. simpl.
  destruct (ascii_dec c c); [exact IH|done].
Qed.

Lemma contains_suffix (sub a : string) : contains sub (a +:+ sub) = true.
Proof.
  induction a as [|c a IH]; simpl.
  - destruct sub; simpl; [done|]. rewrite prefix_refl.
    destruct (ascii_dec _ _); done.
  - rewrite IH. apply orb_true_r.
Qed.

Lemma last_char_append (a : string) (c : ascii) (b : string) :
  last_char (a +:+ String c b) = last_char (String c b).
Proof.
  induction a as [|c' a IH]; [done|].
  change (String c' a +:+ String c b) with (String c' (a +:+ String c b)).
  cbn [last_char]. rewrite IH. by destruct a.
Qed.

Lemma last_char_join_out (root : string) :
  last_char (path_join root "out") = Some "t"%char.
Proof.
  unfold path_join. simpl String.prefix. cbv iota.
  destruct (last_char root) as [c|]; [|done].
  destruct (Ascii.eqb c "/").
  - by rewrite last_char_append.
  - change ("/" +:+ "out") with "/out". by rewrite last_char_append.
Qed.

(** The assertion on [_OUTPUT_DIR] in [_RunShardedSteps] never fails. *)
Lemma output_dir_asserted : contains "/step_results" (_OUTPUT_DIR h) = true.
Proof.
  unfold _OUTPUT_DIR.
  unfold path_join at 1. simpl String.prefix. cbv iota.
  rewrite last_char_join_out. simpl Ascii.eqb. cbv iota.
  apply (contains_suffix "/step_results").
Qed.

Lemma timedelta_elapsed (t e : nat) :
  timedelta_seconds t (t + e) = e mod (24 * 60 * 60).
Proof. unfold timedelta_seconds. f_equal. lia. Qed.

(** One step: its result, the file written, the lines printed and the
    time spent. *)
Lemma run_step_spec (step : StepParams) (w : World) files :
  store w = Some files →
  run_step h step w
  = (Ok (result_of h step),
     {| store := Some (<[step_name step := result_of h step]> files);
        stdout := stdout w ++ step_log h step (clock w);
        clock := clock w + elapsed h (step_cmd step) |}).
Proof.
  intros Hst. unfold run_step, result_of, step_log, starting_line,
    finished_line, run, _SaveResult.
  destruct (pexpect_run h (step_cmd step)) as [output exit_code].
  unfold bind, now, print, sleep, get_store, set_store, ret, raise.
  cbn [store stdout clock fst snd]. rewrite Hst.
  cbn [res_name]. rewrite timedelta_elapsed.
  rewrite <- !app_assoc. reflexivity.
Qed.

Lemma run_steps_from_spec (steps : list StepParams) results (w : World) files :
  store w = Some files →
  run_steps_from h steps results w
  = (Ok (results ++ (result_of h <$> steps)),
     {| store := Some (save_all files (result_of h <$> steps));
        stdout := stdout w ++ steps_log h steps (clock w);
        clock := clock w + steps_elapsed h steps |}).
Proof.
  revert results w files.
  induction steps as [|step steps IH]; intros results w files Hst.
  - simpl. unfold ret. rewrite !app_nil_r, Nat.add_0_r, <- Hst.
    by destruct w.
  - cbn [run_steps_from]. unfold bind at 1.
    rewrite (run_step_spec step w files Hst).
    erewrite IH by reflexivity. cbn [store stdout clock].
    rewrite fmap_cons. cbn [steps_log steps_elapsed foldr save_all foldl].
    rewrite <- !app_assoc, Nat.add_assoc. reflexivity.
Qed.

Lemma RunStepsPerDevice_spec (steps : list StepParams) (w : World) files :
  store w = Some files →
  _RunStepsPerDevice h steps w
  = (Ok (result_of h <$> steps),
     {| store := Some (save_all files (result_of h <$> steps));
        stdout := stdout w ++ steps_log h steps (clock w);
        clock := clock w + steps_elapsed h steps |}).
Proof. intros Hst. unfold _RunStepsPerDevice. by erewrite run_steps_from_spec. Qed.

Lemma save_all_app files (rs rs' : list StepResult) :
  save_all files (rs ++ rs') = save_all (save_all files rs) rs'.
Proof. unfold save_all. apply foldl_app. Qed.

(** With one step per name, the file of a step holds its result. *)
Lemma save_all_lookup files (rs : list StepResult) (r : StepResult) :
  r ∈ rs → NoDup (res_name <$> rs) →
  save_all files rs !! res_name r = Some r.
Proof.
  revert files. induction rs as [|r0 rs IH]; intros files Hin Hnd.
  - by apply elem_of_nil in Hin.
  - rewrite fmap_cons in Hnd. apply NoDup_cons in Hnd as [Hfresh Hnd].
    cbn [save_all foldl]. fold (save_all (<[res_name r0:=r0]> files) rs).
    apply elem_of_cons in Hin as [->|Hin].
    + clear IH Hnd. revert files.
      induction rs as [|r1 rs IH]; intros files.
      * cbn. apply lookup_insert_eq.
      * cbn [save_all foldl].
        rewrite fmap_cons in Hfresh. apply not_elem_of_cons in Hfresh as [Hne Hfresh].
        rewrite insert_insert_ne by done. by apply IH.
    + by apply IH.
Qed.

Lemma save_all_lookup_other files (rs : list StepResult) (name : string) :
  name ∉ res_name <$> rs → save_all files rs !! name = files !! name.
Proof.
  revert files. induction rs as [|r0 rs IH]; intros files Hnot; [done|].
  rewrite fmap_cons in Hnot. apply not_elem_of_cons in Hnot as [Hne Hnot].
  cbn [save_all foldl]. fold (save_all (<[res_name r0:=r0]> files) rs).
  rewrite IH by done. by rewrite lookup_insert_ne.
Qed.

Lemma steps_log_app (ps ps' : list StepParams) (t : nat) :
  steps_log h (ps ++ ps') t
  = steps_log h ps t ++ steps_log h ps' (t + steps_elapsed h ps).
Proof.
  revert t. induction ps as [|p ps IH]; intros t.
  - simpl. by rewrite Nat.add_0_r.
  - cbn [app steps_log steps_elapsed foldr].
    rewrite IH, <- !app_assoc, Nat.add_assoc. reflexivity.
Qed.

Lemma steps_elapsed_app (ps ps' : list StepParams) :
  steps_elapsed h (ps ++ ps') = steps_elapsed h ps + steps_elapsed h ps'.
Proof.
  induction ps as [|p ps IH]; [done|].
  cbn [app steps_elapsed foldr]. fold (steps_elapsed h (ps ++ ps')).
  fold (steps_elapsed h ps). lia.
Qed.

(** The runs of all the devices. *)
Lemma map_async_spec (pss : list (list StepParams)) (w : World) files :
  store w = Some files →
  map_async (_RunStepsPerDevice h) pss w
  = (Ok (fmap (M:=list) (result_of h) <$> pss),
     {| store := Some (save_all files (result_of h <$> concat pss));
        stdout := stdout w ++ steps_log h (concat pss) (clock w);
        clock := clock w + steps_elapsed h (concat pss) |}).
Proof.
  revert w files. induction pss as [|ps pss IH]; intros w files Hst.
  - simpl. unfold ret. rewrite app_nil_r, Nat.add_0_r, <- Hst. by destruct w.
  - cbn [map_async]. unfold bind at 1.
    rewrite (RunStepsPerDevice_spec ps w files Hst).
    unfold bind at 1. erewrite IH by reflexivity.
    unfold ret. cbn [store stdout clock concat].
    rewrite fmap_app, save_all_app, steps_log_app, steps_elapsed_app.
    rewrite <- !app_assoc, Nat.add_assoc. reflexivity.
Qed.

Lemma for_each_print {B} (f : B → string) (l : list B) (w : World) :
  for_each (λ b, print (f b)) l w
  = (Ok (), {| store := store w; stdout := stdout w ++ (f <$> l);
               clock := clock w |}).
Proof.
  revert w. induction l as [|b l IH]; intros w.
  - simpl. unfold ret. rewrite app_nil_r. by destruct w.
  - cbn [for_each]. unfold bind, print at 1. rewrite IH.
    cbn [store stdout clock]. by rewrite fmap_cons, <- app_assoc.
Qed.

Lemma for_each_for_each_print {B} (f : B → string) (ll : list (list B))
    (w : World) :
  for_each (for_each (λ b, print (f b))) ll w
  = (Ok (), {| store := store w; stdout := stdout w ++ (f <$> concat ll);
               clock := clock w |}).
Proof.
  revert w. induction ll as [|l ll IH]; intros w.
  - simpl. unfold ret. rewrite app_nil_r. by destruct w.
  - cbn [for_each]. unfold bind. rewrite for_each_print, IH.
    cbn [store stdout clock concat]. by rewrite fmap_app, <- app_assoc.
Qed.

Lemma concat_fmap_fmap {B C} (f : B → C) (ll : list (list B)) :
  concat (fmap (M:=list) f <$> ll) = f <$> concat ll.
Proof.
  induction ll as [|l ll IH]; [done|].
  rewrite fmap_cons, !concat_cons, fmap_app. by rewrite IH.
Qed.

(** [_RunShardedSteps] on a non-empty manifest and at least one device:
    it returns 0 and leaves a fresh directory with the results of the
    steps of [all_params]. *)
Lemma RunShardedSteps_spec (steps : list (string * string))
    (flaky_steps devices : list string) (w : World) :
  steps ≠ [] → devices ≠ [] →
  _RunShardedSteps h steps flaky_steps devices w
  = (Ok 0%Z,
     after_sharding h (concat (all_params steps flaky_steps devices)) w).
Proof.
  intros Hs Hd. unfold _RunShardedSteps.
  destruct steps as [|item steps]; [done|].
  destruct devices as [|device devices]; [done|].
  set (params := all_params _ _ _).
  assert (Hfresh : ∀ k : unit → unit → M Z,
    (let! st := get_store in
     let! u := match st with
               | Some _ =>
                   if contains "/step_results" (_OUTPUT_DIR h)
                   then set_store None
                   else raise (AssertionError "")
               | None => ret ()
               end in
     let! st' := get_store in
     let! u' := match st' with
                | None => set_store (Some ∅)
                | Some _ => ret ()
                end in
     k u u') w
    = k () () {| store := Some ∅; stdout := stdout w; clock := clock w |}).
  { intros k. rewrite output_dir_asserted.
    unfold bind, get_store, set_store, ret.
    destruct w as [[files|] out t]; reflexivity. }
  rewrite (Hfresh (λ _ _, _)). clear Hfresh.
  unfold bind at 1. unfold print at 1. cbn [store stdout clock].
  unfold bind at 1. unfold print at 1. cbn [store stdout clock].
  unfold bind at 1. unfold now at 1. cbn [store stdout clock].
  unfold bind at 1. erewrite map_async_spec by reflexivity.
  cbn [store stdout clock].
  unfold bind at 1. unfold now at 1. cbn [store stdout clock].
  unfold bind at 1. unfold print at 1. cbn [store stdout clock].
  unfold bind at 1. unfold print at 1. cbn [store stdout clock].
  unfold bind at 1. unfold print at 1. cbn [store stdout clock].
  unfold bind at 1. rewrite (for_each_for_each_print summary_line).
  cbn [store stdout clock].
  unfold bind at 1. unfold print at 1. cbn [store stdout clock].
  unfold bind at 1. unfold print at 1. cbn [store stdout clock].
  unfold ret, after_sharding, sharding_log.
  rewrite concat_fmap_fmap. rewrite <- !app_assoc. reflexivity.
Qed.

Lemma slices_cover {B} (l : list B) (n ss : nat) :
  length l ≤ n * ss →
  concat ((λ i, Py.slice l (i * ss) ((i + 1) * ss)) <$> seq 0 n) = l.
Proof.
  intros Hlen. etrans; [|exact (take_ge l (n * ss) Hlen)].
  rewrite <- slice_chunks_take, <- list_fmap_compose.
  f_equal. apply list_fmap_ext. intros _ i _. simpl. f_equal; lia.
Qed.

Lemma shard_size_covers (len n : nat) :
  1 ≤ n → len ≤ n * ((len + n - 1) / n).
Proof.
  intros Hn. pose proof (xrange_count_covers len n Hn) as H.
  replace (len - 0 + n - 1) with (len + n - 1) in H by lia. lia.
Qed.

Lemma enumerate_fst {B} (l : list B) : (Py.enumerate l).*1 = seq 0 (length l).
Proof. unfold Py.enumerate. apply fst_zip. by rewrite length_seq. Qed.

Lemma enumerate_lookup {B} (l : list B) (i : nat) (b : B) :
  (i, b) ∈ Py.enumerate l ↔ l !! i = Some b.
Proof.
  unfold Py.enumerate. rewrite list_elem_of_lookup. split.
  - intros [k Hk]. apply lookup_zip_with_Some in Hk as (i' & b' & Heq & Hi & Hb).
    injection Heq as -> ->. apply lookup_seq in Hi as [-> _]. done.
  - intros Hi. exists i. apply lookup_zip_with_Some. exists i, b.
    split; [done|]. split; [|done].
    apply lookup_seq. split; [done|]. by eapply lookup_lt_Some.
Qed.

(** The shards of the devices hold the steps of the manifest, in its
    order, each once. *)
Lemma all_params_names (steps : list (string * string))
    (flaky_steps devices : list string) :
  devices ≠ [] →
  step_name <$> concat (all_params steps flaky_steps devices) = steps.*1.
Proof.
  intros Hd. unfold all_params, steps_per_device.
  set (ss := (length steps + length devices - 1) / length devices).
  rewrite <- concat_fmap_fmap, <- list_fmap_compose.
  transitivity
    (concat ((λ i, (Py.slice steps (i * ss) ((i + 1) * ss)).*1)
             <$> (Py.enumerate devices).*1)).
  - rewrite <- list_fmap_compose. f_equal. apply list_fmap_ext.
    intros _ [i d] _. simpl. rewrite <- list_fmap_compose.
    by apply list_fmap_ext.
  - rewrite enumerate_fst.
    assert (Hcov : length steps ≤ length devices * ss).
    { apply shard_size_covers. destruct devices; [done|simpl; lia]. }
    etrans; [|exact (f_equal (fmap fst)
                       (slices_cover steps (length devices) ss Hcov))].
    by rewrite <- concat_fmap_fmap, <- list_fmap_compose.
Qed.

Lemma all_params_covers (steps : list (string * string))
    (flaky_steps devices : list string) (item : string * string) :
  devices ≠ [] → item ∈ steps →
  ∃ device, device ∈ devices
    ∧ step_params flaky_steps device item
      ∈ concat (all_params steps flaky_steps devices).
Proof.
  intros Hd Hin. unfold all_params, steps_per_device.
  set (ss := (length steps + length devices - 1) / length devices).
  assert (Hcov : item ∈ concat ((λ i, Py.slice steps (i * ss) ((i + 1) * ss))
                                <$> seq 0 (length devices))).
  { rewrite slices_cover; [done|].
    apply shard_size_covers. destruct devices; [done|simpl; lia]. }
  apply elem_of_concat_inv in Hcov as (k & sl & Hk & Hsl).
  apply list_lookup_fmap_Some in Hk as (i & -> & Hi).
  apply lookup_seq in Hi as [-> Hlt]. simpl in Hlt.
  destruct (lookup_lt_is_Some_2 devices k Hlt) as [device Hdev].
  exists device. split; [by eapply list_elem_of_lookup_2|].
  assert (Hp : (k, device) ∈ Py.enumerate devices) by by apply enumerate_lookup.
  apply list_elem_of_lookup in Hp as [j Hj].
  eapply elem_of_concat_lookup.
  - rewrite list_lookup_fmap, Hj. reflexivity.
  - simpl. by apply list_elem_of_fmap_2.
Qed.

(** After [_RunShardedSteps] every step of the manifest has its result
    on file, as run on one of the devices. *)
Lemma RunShardedSteps_records (steps : list (string * string))
    (flaky_steps devices : list string) (w : World) (item : string * string) :
  NoDup steps.*1 → devices ≠ [] → item ∈ steps →
  ∃ device, device ∈ devices
    ∧ recorded (after_sharding h (concat (all_params steps flaky_steps devices)) w)
               item.1
      = Some (result_of h (step_params flaky_steps device item))
    ∧ (∃ t, finished_line h (step_params flaky_steps device item) t
            ∈ stdout (after_sharding h
                        (concat (all_params steps flaky_steps devices)) w)).
Proof.
  intros Hnd Hd Hin.
  destruct (all_params_covers steps flaky_steps devices item Hd Hin)
    as (device & Hdev & Hp).
  exists device. split; [done|]. split.
  - unfold recorded, after_sharding. cbn [store].
    change item.1 with
      (res_name (result_of h (step_params flaky_steps device item))).
    apply save_all_lookup.
    + by apply list_elem_of_fmap_2.
    + rewrite <- list_fmap_compose.
      change (res_name ∘ result_of h) with step_name.
      by rewrite all_params_names.
  - unfold after_sharding, sharding_log. cbn [stdout].
    set (ps := concat _) in *. clearbody ps.
    assert (Hlog : ∀ t0, ∃ t,
      finished_line h (step_params flaky_steps device item) t
      ∈ steps_log h ps t0).
    { induction ps as [|p ps IH]; intros t0.
      - by apply elem_of_nil in Hp.
      - apply elem_of_cons in Hp as [<-|Hp].
        + eexists. cbn [steps_log]. apply elem_of_app. left.
          unfold step_log. rewrite !elem_of_cons. right. right. by left.
        + destruct (IH Hp (t0 + elapsed h (step_cmd p))) as [t Ht].
          exists t. cbn [steps_log]. apply elem_of_app. by right. }
    destruct (Hlog (clock w)) as [t Ht]. exists t.
    rewrite !elem_of_app. right. right. by left.
Qed.

(** Printing recorded results. *)
Lemma PrintStepOutput_spec (step_name : string) (w : World) :
  _PrintStepOutput h step_name w
  = (Ok (printed_code w step_name),
     {| store := store w;
        stdout := stdout w ++ [printed_line h w step_name];
        clock := clock w |}).
Proof.
  unfold _PrintStepOutput, printed_code, printed_line, recorded.
  unfold bind, get_store, print, ret.
  destruct w as [[files|] out t]; simpl; [|done].
  by destruct (files !! step_name).
Qed.

Lemma print_steps_from_spec (names : list string) (acc : Z) (w : World) :
  print_steps_from h names acc w
  = (Ok (foldl Z.lor acc (printed_code w <$> names)),
     {| store := store w;
        stdout := stdout w ++ (printed_line h w <$> names);
        clock := clock w |}).
Proof.
  revert acc w. induction names as [|name names IH]; intros acc w.
  - simpl. unfold ret. rewrite app_nil_r. by destruct w.
  - cbn [print_steps_from]. unfold bind. rewrite PrintStepOutput_spec, IH.
    cbn [store stdout clock]. rewrite !fmap_cons, <- app_assoc.
    reflexivity.
Qed.

Lemma foldl_lor_zero (acc : Z) (codes : list Z) :
  foldl Z.lor acc codes = 0%Z ↔ acc = 0%Z ∧ Forall (λ c, c = 0%Z) codes.
Proof.
  revert acc. induction codes as [|c codes IH]; intros acc; simpl.
  - split; [intros ->; by split|by intros [-> _]].
  - rewrite IH, Z.lor_eq_0_iff, Forall_cons. tauto.
Qed.

Lemma append_assoc (a b c : string) : (a +:+ b) +:+ c = a +:+ b +:+ c.
Proof.
  induction a as [|x a IH]; [done|].
  change (String x ((a +:+ b) +:+ c) = String x (a +:+ b +:+ c)).
  by rewrite IH.
Qed.

Lemma prefix_append (s c : string) : String.prefix s (s +:+ c) = true.
Proof.
  induction s as [|x s IH]; [by destruct c|].
  change (String x s +:+ c) with (String x (s +:+ c)). simpl.
  destruct (ascii_dec x x); [exact IH|done].
Qed.

Lemma contains_prefix (sub c : string) : contains sub (sub +:+ c) = true.
Proof.
  pose proof (prefix_append sub c) as Hp.
  destruct (sub +:+ c); cbn [contains]; by rewrite Hp.
Qed.

Lemma contains_skip (sub a b : string) :
  contains sub b = true → contains sub (a +:+ b) = true.
Proof.
  intros Hb. induction a as [|x a IH]; [done|].
  change (String x a +:+ b) with (String x (a +:+ b)).
  cbn [contains]. rewrite IH. apply orb_true_r.
Qed.

(** The line printed when a flaky step is over carries the annotation. *)
Lemma finished_line_flaky (step : StepParams) (t : nat) :
  step_is_flaky step = true →
  contains "(ignored, flaky step)" (finished_line h step t) = true.
Proof.
  intros Hf. unfold finished_line, exit_msg. rewrite Hf.
  do 3 apply contains_skip. rewrite !append_assoc.
  do 2 apply contains_skip. apply contains_prefix.
Qed.

(** The results of the steps of one device, on file afterwards. *)
Lemma RunStepsPerDevice_records (steps : list StepParams) (w : World) files
    (step : StepParams) :
  store w = Some files → NoDup (step_name <$> steps) → step ∈ steps →
  ∃ w', _RunStepsPerDevice h steps w = (Ok (result_of h <$> steps), w')
        ∧ recorded w' (step_name step) = Some (result_of h step).
Proof.
  intros Hst Hnd Hin. rewrite (RunStepsPerDevice_spec steps w files Hst).
  eexists. split; [reflexivity|]. unfold recorded. cbn [store].
  change (step_name step) with (res_name (result_of h step)).
  apply save_all_lookup; [by apply list_elem_of_fmap_2|].
  by rewrite <- list_fmap_compose.
Qed.

(** Waiting for a device passes time only. *)
Lemma KillPendingServers_spec (w : World) :
  ∃ t, _KillPendingServers h w
       = (Ok (), {| store := store w; stdout := stdout w;
                    clock := clock w + t |}).
Proof.
  unfold _KillPendingServers. cbn [wait_for_devices].
  destruct (GetAttachedDevices h) as [|d ds].
  - exists 15. unfold bind, sleep, ret. cbn. do 2 f_equal. lia.
  - exists 0. unfold ret. rewrite Nat.add_0_r. by destruct w.
Qed.

End StepFacts.

(** *** Runs whose system calls may raise *)

Section FallibleFacts.
Import bb_run_sharded_steps.
Variable h : Host.
Variable sys : Fallible.System.

(** [exit_code or 0] is the exit code, and 0 when there is none. *)
Lemma or_zero_default (status : option Z) :
  or_zero status = default 0%Z status.
Proof.
  destruct status as [c|]; [|done]. simpl.
  by destruct (Z.eqb_spec c 0) as [->|].
Qed.

Lemma result_of_exit_code (step : StepParams) :
  res_exit_code (result_of h step)
  = if step_is_flaky step then 0%Z
    else default 0%Z (pexpect_run h (step_cmd step)).2.
Proof. unfold result_of. cbn. by rewrite or_zero_default. Qed.

(** The parameters of the steps come from the items of the manifest and
    from the devices. *)
Lemma all_params_elem_of (steps : list (string * string))
    (flaky_steps devices : list string) (p : StepParams) :
  p ∈ concat (all_params steps flaky_steps devices) →
  ∃ item device,
    item ∈ steps ∧ device ∈ devices ∧ p = step_params flaky_steps device item.
Proof.
  unfold all_params, steps_per_device. intros Hp.
  apply elem_of_concat_inv in Hp as (k & ps & Hk & Hp).
  apply list_lookup_fmap_Some in Hk as ([i device] & -> & Hk).
  apply list_elem_of_lookup_2, enumerate_lookup in Hk.
  cbn [fst snd] in Hp. apply list_elem_of_fmap in Hp as (item & -> & Hitem).
  exists item, device. split; [|split; [|done]].
  - unfold Py.slice in Hitem. by apply subseteq_take, subseteq_drop in Hitem.
  - by eapply list_elem_of_lookup_2.
Qed.

Lemma runnable_runs (steps : list (string * string))
    (flaky_steps devices : list string) :
  Forall (Fallible.runnable h sys devices) steps →
  Forall (Fallible.runs h sys) (concat (all_params steps flaky_steps devices)).
Proof.
  rewrite !Forall_forall. intros Hall p Hp.
  apply all_params_elem_of in Hp as (item & device & Hitem & Hdev & ->).
  destruct (Hall item Hitem) as [Hspawn Hopen]. split; [|exact Hopen].
  by apply Hspawn.
Qed.

(** [_SaveResult] writes one entry of the directory at most. *)
Lemma fallible_SaveResult_cases (r : StepResult) (w : World) :
  (∃ e, Fallible._SaveResult h sys r w = (Raise e, w))
  ∨ Fallible._SaveResult h sys r w = (Ok (), w)
  ∨ ∃ files name,
      store w = Some files
      ∧ Fallible.open_w sys (path_join (_OUTPUT_DIR h) (res_name r))
        = Ok (Fallible.InOutputDir name)
      ∧ Fallible._SaveResult h sys r w
        = (Ok (), {| store := Some (<[name := r]> files);
                     stdout := stdout w; clock := clock w |}).
Proof.
  unfold Fallible._SaveResult.
  destruct (Fallible.open_w sys _) as [[name|]|e].
  - unfold bind, get_store, set_store, raise.
    destruct (store w) as [files|] eqn:Hst.
    + right. right. by exists files, name.
    + left. by eexists.
  - right. by left.
  - left. by eexists.
Qed.

(** One step, up to the file of its result. *)
Lemma fallible_run_step_unfold (step : StepParams) (w : World) :
  Fallible.run_step h sys step w
  = match Fallible.spawn_error sys (step_cmd step) with
    | Some e =>
        (Raise e,
         {| store := store w;
            stdout := stdout w ++ [starting_line h step (clock w)];
            clock := clock w |})
    | None =>
        match Fallible._SaveResult h sys (result_of h step)
                {| store := store w;
                   stdout := stdout w ++ step_log h step (clock w);
                   clock := clock w + elapsed h (step_cmd step) |} with
        | (Ok _, w') => (Ok (result_of h step), w')
        | (Raise e, w') => (Raise e, w')
        end
    end.
Proof.
  unfold Fallible.run_step, Fallible.run, run, result_of, step_log,
    starting_line, finished_line.
  destruct (Fallible.spawn_error sys (step_cmd step)) as [e|]; [reflexivity|].
  destruct (pexpect_run h (step_cmd step)) as [output exit_code].
  unfold bind at 1. unfold now at 1.
  unfold bind at 1. unfold print at 1. cbn [store stdout clock].
  unfold bind at 1. unfold bind at 1. unfold print at 1.
  cbn [store stdout clock].
  unfold bind at 1. unfold sleep at 1. unfold ret at 1.
  cbn [store stdout clock fst snd].
  unfold bind at 1. unfold now at 1. cbn [store stdout clock].
  unfold bind at 1. unfold print at 1. cbn [store stdout clock].
  unfold bind at 1. rewrite timedelta_elapsed, <- !app_assoc.
  reflexivity.
Qed.

(** A step that the system lets run does what it does when every call is
    granted. *)
Lemma fallible_run_step_spec (step : StepParams) (w : World) files :
  store w = Some files → Fallible.runs h sys step →
  Fallible.run_step h sys step w
  = (Ok (result_of h step),
     {| store := Some (<[step_name step := result_of h step]> files);
        stdout := stdout w ++ step_log h step (clock w);
        clock := clock w + elapsed h (step_cmd step) |}).
Proof.
  intros Hst [Hspawn Hopen]. rewrite fallible_run_step_unfold, Hspawn.
  unfold Fallible._SaveResult. cbn [res_name result_of]. rewrite Hopen.
  unfold bind, get_store, set_store. cbn [store stdout clock].
  by rewrite Hst.
Qed.

Lemma fallible_run_steps_from_spec (steps : list StepParams) results
    (w : World) files :
  store w = Some files → Forall (Fallible.runs h sys) steps →
  Fallible.run_steps_from h sys steps results w
  = (Ok (results ++ (result_of h <$> steps)),
     {| store := Some (save_all files (result_of h <$> steps));
        stdout := stdout w ++ steps_log h steps (clock w);
        clock := clock w + steps_elapsed h steps |}).
Proof.
  revert results w files.
  induction steps as [|step steps IH]; intros results w files Hst Hruns.
  - simpl. unfold ret. rewrite !app_nil_r, Nat.add_0_r, <- Hst.
    by destruct w.
  - apply Forall_cons in Hruns as [Hrun Hruns].
    cbn [Fallible.run_steps_from]. unfold bind at 1.
    rewrite (fallible_run_step_spec step w files Hst Hrun).
    erewrite IH; [|reflexivity|exact Hruns]. cbn [store stdout clock].
    rewrite fmap_cons. cbn [steps_log steps_elapsed foldr save_all foldl].
    rewrite <- !app_assoc, Nat.add_assoc. reflexivity.
Qed.

Lemma fallible_map_async_spec (pss : list (list StepParams)) (w : World)
    files :
  store w = Some files → Forall (Fallible.runs h sys) (concat pss) →
  map_async (Fallible._RunStepsPerDevice h sys) pss w
  = (Ok (fmap (M:=list) (result_of h) <$> pss),
     {| store := Some (save_all files (result_of h <$> concat pss));
        stdout := stdout w ++ steps_log h (concat pss) (clock w);
        clock := clock w + steps_elapsed h (concat pss) |}).
Proof.
  revert w files. induction pss as [|ps pss IH]; intros w files Hst Hruns.
  - simpl. unfold ret. rewrite app_nil_r, Nat.add_0_r, <- Hst. by destruct w.
  - cbn [concat] in Hruns. apply Forall_app in Hruns as [Hps Hpss].
    cbn [map_async]. unfold bind at 1. unfold Fallible._RunStepsPerDevice at 1.
    rewrite (fallible_run_steps_from_spec ps [] w files Hst Hps).
    unfold bind at 1. erewrite IH; [|reflexivity|exact Hpss].
    unfold ret. cbn [store stdout clock concat app].
    rewrite fmap_app, save_all_app, steps_log_app, steps_elapsed_app.
    rewrite <- !app_assoc, Nat.add_assoc. reflexivity.
Qed.

(** The start of [_RunShardedSteps]: the result directory is made
    anew. *)
Lemma fresh_directory (w : World) (k : unit → unit → M Z) :
  (let! st := get_store in
   let! u := match st with
             | Some _ =>
                 if contains "/step_results" (_OUTPUT_DIR h)
                 then set_store None
                 else raise (AssertionError "")
             | None => ret ()
             end in
   let! st' := get_store in
   let! u' := match st' with
              | None => set_store (Some ∅)
              | Some _ => ret ()
              end in
   k u u') w
  = k () () {| store := Some ∅; stdout := stdout w; clock := clock w |}.
Proof.
  rewrite output_dir_asserted. unfold bind, get_store, set_store, ret.
  destruct w as [[files|] out t]; reflexivity.
Qed.

(** The end of [_RunShardedSteps]: the summary leaves the directory
    alone. *)
Lemma summary_keeps_store (results_per_device : list (list StepResult))
    (start_time : nat) (w : World) :
  ∃ out,
    (let! end_time := now in
     let! _ := print stars in
     let! _ := print "Finished sharding." in
     let! _ := print "Summary" in
     let! _ := for_each (for_each (λ result, print (summary_line result)))
                        results_per_device in
     let total_time :=
       foldl (λ t result, t + res_total_time result) 0
             (concat results_per_device) in
     let! _ := print ("Step time: "
                      +:+ pretty (timedelta_seconds start_time end_time)
                      +:+ " secs") in
     let! _ := print ("Bots time: " +:+ pretty total_time +:+ " secs") in
     ret 0%Z) w
    = (Ok 0%Z, {| store := store w; stdout := out; clock := clock w |}).
Proof.
  unfold bind at 1. unfold now at 1. cbn [store stdout clock].
  unfold bind at 1. unfold print at 1. cbn [store stdout clock].
  unfold bind at 1. unfold print at 1. cbn [store stdout clock].
  unfold bind at 1. unfold print at 1. cbn [store stdout clock].
  unfold bind at 1. rewrite (for_each_for_each_print summary_line).
  cbn [store stdout clock].
  unfold bind at 1. unfold print at 1. cbn [store stdout clock].
  unfold bind at 1. unfold print at 1. cbn [store stdout clock].
  unfold ret. by eexists.
Qed.

(** [_RunShardedSteps] on a non-empty manifest whose steps the system
    lets run, with at least one device: as when every call is granted. *)
Lemma fallible_RunShardedSteps_spec (steps : list (string * string))
    (flaky_steps devices : list string) (w : World) :
  steps ≠ [] → devices ≠ [] →
  Forall (Fallible.runnable h sys devices) steps →
  Fallible._RunShardedSteps h sys steps flaky_steps devices w
  = (Ok 0%Z,
     after_sharding h (concat (all_params steps flaky_steps devices)) w).
Proof.
  intros Hs Hd Hruns.
  apply (runnable_runs steps flaky_steps devices) in Hruns.
  unfold Fallible._RunShardedSteps.
  destruct steps as [|item steps]; [done|].
  destruct devices as [|device devices]; [done|].
  set (params := all_params _ _ _) in *.
  rewrite (fresh_directory w (λ _ _, _)).
  unfold bind at 1. unfold print at 1. cbn [store stdout clock].
  unfold bind at 1. unfold print at 1. cbn [store stdout clock].
  unfold bind at 1. unfold now at 1. cbn [store stdout clock].
  unfold bind at 1.
  erewrite fallible_map_async_spec; [|reflexivity|exact Hruns].
  cbn [store stdout clock].
  unfold bind at 1. unfold now at 1. cbn [store stdout clock].
  unfold bind at 1. unfold print at 1. cbn [store stdout clock].
  unfold bind at 1. unfold print at 1. cbn [store stdout clock].
  unfold bind at 1. unfold print at 1. cbn [store stdout clock].
  unfold bind at 1. rewrite (for_each_for_each_print summary_line).
  cbn [store stdout clock].
  unfold bind at 1. unfold print at 1. cbn [store stdout clock].
  unfold bind at 1. unfold print at 1. cbn [store stdout clock].
  unfold ret, after_sharding, sharding_log.
  rewrite concat_fmap_fmap. rewrite <- !app_assoc. reflexivity.
Qed.

(** So the run of the steps that the system lets run is the run in which
    every call is granted. *)
Lemma fallible_RunShardedSteps_granted (steps : list (string * string))
    (flaky_steps devices : list string) (w : World) :
  Forall (Fallible.runnable h sys devices) steps →
  Fallible._RunShardedSteps h sys steps flaky_steps devices w
  = _RunShardedSteps h steps flaky_steps devices w.
Proof.
  intros Hruns.
  destruct steps as [|item steps]; [reflexivity|].
  destruct devices as [|device devices]; [reflexivity|].
  rewrite fallible_RunShardedSteps_spec by done.
  by rewrite RunShardedSteps_spec.
Qed.

(** What the directory holds when a run has failed.  The property
    depends on the directory alone. *)
Lemma only_results_of_store (params : list StepParams) (w w' : World) :
  store w' = store w →
  Fallible.only_results_of h params w → Fallible.only_results_of h params w'.
Proof. intros Heq (files & Hst & Hall). exists files. by rewrite Heq. Qed.

Lemma fallible_run_step_only_results (params : list StepParams)
    (step : StepParams) (w : World) :
  step ∈ params → Fallible.only_results_of h params w →
  Fallible.only_results_of h params (Fallible.run_step h sys step w).2.
Proof.
  intros Hin Hinv. rewrite fallible_run_step_unfold.
  destruct (Fallible.spawn_error sys (step_cmd step)) as [e|].
  { by apply (only_results_of_store params w). }
  set (w1 := {| store := store w; stdout := _; clock := _ |}).
  assert (Hinv1 : Fallible.only_results_of h params w1)
    by (by apply (only_results_of_store params w)).
  destruct (fallible_SaveResult_cases (result_of h step) w1)
    as [[e He]|[He|(files & name & Hst & _ & He)]]; rewrite He; cbn [snd];
    [done|done|].
  destruct Hinv1 as (files' & Hst' & Hall). rewrite Hst in Hst'.
  injection Hst' as <-. eexists. split; [reflexivity|].
  intros n r Hl. apply lookup_insert_Some in Hl as [[_ <-]|[_ Hl]].
  - by exists step.
  - by eapply Hall.
Qed.

Lemma fallible_run_steps_from_only_results (params steps : list StepParams)
    results (w : World) :
  (∀ p, p ∈ steps → p ∈ params) → Fallible.only_results_of h params w →
  Fallible.only_results_of h params
    (Fallible.run_steps_from h sys steps results w).2.
Proof.
  revert results w.
  induction steps as [|step steps IH]; intros results w Hsub Hinv; [done|].
  cbn [Fallible.run_steps_from]. unfold bind.
  pose proof (fallible_run_step_only_results params step w
                (Hsub step (list_elem_of_here _ _)) Hinv) as Hstep.
  destruct (Fallible.run_step h sys step w) as [[r|e] w1]; cbn [snd] in *.
  - apply IH; [|done]. intros p Hp. by apply Hsub, list_elem_of_further.
  - done.
Qed.

(** A property that every call keeps is kept by the calls of the pool. *)
Lemma map_async_invariant {A B} (f : A → M B) (I : World → Prop)
    (l : list A) (w : World) :
  (∀ a w0, a ∈ l → I w0 → I (f a w0).2) → I w → I (map_async f l w).2.
Proof.
  revert w. induction l as [|a l IH]; intros w Hf Hw; [done|].
  cbn [map_async]. unfold bind at 1.
  pose proof (Hf a w (list_elem_of_here _ _) Hw) as Ha.
  destruct (f a w) as [[b|e] w1]; cbn [snd] in *; [|done].
  unfold bind at 1.
  assert (Hl : I (map_async f l w1).2).
  { apply IH; [|done]. intros a' w0 Ha'. by apply Hf, list_elem_of_further. }
  by destruct (map_async f l w1) as [[bs|e] w2].
Qed.

(** Once the directory is made anew, [_RunShardedSteps] leaves in it
    results of the steps of this run only, whether it returns or
    raises. *)
Lemma fallible_RunShardedSteps_only_results (steps : list (string * string))
    (flaky_steps devices : list string) (w : World) :
  steps ≠ [] → devices ≠ [] →
  Fallible.only_results_of h (concat (all_params steps flaky_steps devices))
    (Fallible._RunShardedSteps h sys steps flaky_steps devices w).2.
Proof.
  intros Hs Hd. unfold Fallible._RunShardedSteps.
  destruct steps as [|item steps]; [done|].
  destruct devices as [|device devices]; [done|].
  set (params := all_params _ _ _) in *.
  rewrite (fresh_directory w (λ _ _, _)).
  unfold bind at 1. unfold print at 1. cbn [store stdout clock].
  unfold bind at 1. unfold print at 1. cbn [store stdout clock].
  unfold bind at 1. unfold now at 1. cbn [store stdout clock].
  unfold bind at 1.
  set (w0 := {| store := Some ∅; stdout := _; clock := clock w |}).
  assert (Hinv : Fallible.only_results_of h (concat params)
                   (map_async (Fallible._RunStepsPerDevice h sys) params w0).2).
  { apply (map_async_invariant _ (Fallible.only_results_of h (concat params))).
    - intros ps w1 Hps Hw1. apply fallible_run_steps_from_only_results; [|done].
      intros p Hp. apply list_elem_of_lookup in Hps as [k Hk].
      by eapply elem_of_concat_lookup.
    - exists ∅. split; [done|]. intros n r Hl. by rewrite lookup_empty in Hl. }
  destruct (map_async (Fallible._RunStepsPerDevice h sys) params w0)
    as [[rs|e] w1]; cbn [snd] in Hinv; [|done].
  destruct (summary_keeps_store rs (clock w) w1) as [out Hout].
  cbv beta zeta in Hout |- *. rewrite Hout.
  by apply (only_results_of_store _ w1).
Qed.

End FallibleFacts.



(** C6, as the code has it.  Every step of the manifest that is listed
    as flaky (whatever the exit status of its command) is recorded by
    [_RunShardedSteps] with exit code 0 and with the captured output of
    its command as it is; the annotation, which reads
    [(ignored, flaky step)], is part of the line printed when the step is
    over, not of the recorded output. *)
Theorem flaky_step_recorded (h : bb_run_sharded_steps.Host)
    (steps : list (string * string)) (flaky_steps devices : list string)
    (w : bb_run_sharded_steps.World) (name cmd : string) :
  NoDup steps.*1 → devices ≠ [] → (name, cmd) ∈ steps → name ∈ flaky_steps →
  ∃ device w' r line,
    device ∈ devices
    ∧ bb_run_sharded_steps._RunShardedSteps h steps flaky_steps devices w
      = (Ok 0%Z, w')
    ∧ bb_run_sharded_steps.recorded w' name = Some r
    ∧ bb_run_sharded_steps.res_exit_code r = 0%Z
    ∧ bb_run_sharded_steps.res_output r
      = (bb_run_sharded_steps.pexpect_run h
           (cmd +:+ " --device " +:+ device +:+ " --keep_test_server_ports")).1
    ∧ line ∈ bb_run_sharded_steps.stdout w'
    ∧ String.prefix ("Finished " +:+ name) line = true
    ∧ bb_run_sharded_steps.contains "(ignored, flaky step)" line = true.
Proof.
  intros Hnd Hd Hin Hflaky.
  assert (Hs : steps ≠ []) by (intros ->; by apply elem_of_nil in Hin).
  destruct (RunShardedSteps_records h steps flaky_steps devices w (name, cmd)
              Hnd Hd Hin) as (device & Hdev & Hrec & t & Hline).
  exists device. eexists _, _, _. split; [done|].
  split; [by apply RunShardedSteps_spec|].
  split; [exact Hrec|].
  assert (Hf : bb_run_sharded_steps.step_is_flaky
                 (bb_run_sharded_steps.step_params flaky_steps device (name, cmd))
               = true).
  { cbn. by apply bool_decide_eq_true. }
  split. { unfold bb_run_sharded_steps.result_of. by rewrite Hf. }
  split; [reflexivity|]. split; [exact Hline|]. split.
  - unfold bb_run_sharded_steps.finished_line.
    rewrite <- append_assoc. apply prefix_append.
  - by apply finished_line_flaky.
Qed.

(** C10. A step whose command ends without an exit status ([pexpect.run]
    gives [None], as for a child killed by a signal) is recorded with
    exit code 0: [_RunStepsPerDevice] returns and the file of the step
    holds a result, also part of the returned list, whose exit code is 0
    and whose output is the captured one. *)
Theorem step_without_status_recorded_passing (h : bb_run_sharded_steps.Host)
    (steps : list bb_run_sharded_steps.StepParams)
    (w : bb_run_sharded_steps.World)
    (files : gmap string bb_run_sharded_steps.StepResult)
    (step : bb_run_sharded_steps.StepParams) :
  bb_run_sharded_steps.store w = Some files →
  NoDup (bb_run_sharded_steps.step_name <$> steps) →
  step ∈ steps →
  (bb_run_sharded_steps.pexpect_run h
     (bb_run_sharded_steps.step_cmd step)).2 = None →
  ∃ results w' r,
    bb_run_sharded_steps._RunStepsPerDevice h steps w = (Ok results, w')
    ∧ bb_run_sharded_steps.recorded w' (bb_run_sharded_steps.step_name step)
      = Some r
    ∧ r ∈ results
    ∧ bb_run_sharded_steps.res_exit_code r = 0%Z
    ∧ bb_run_sharded_steps.res_output r
      = (bb_run_sharded_steps.pexpect_run h
           (bb_run_sharded_steps.step_cmd step)).1.
Proof.
  intros Hst Hnd Hin Hnone.
  destruct (RunStepsPerDevice_records h steps w files step Hst Hnd Hin)
    as (w' & Hrun & Hrec).
  eexists _, w', _. split; [exact Hrun|]. split; [exact Hrec|].
  split; [by apply list_elem_of_fmap_2|]. split; [|done].
  unfold bb_run_sharded_steps.result_of. cbn. rewrite Hnone.
  by destruct (bb_run_sharded_steps.step_is_flaky step).
Qed.

Lemma flaky_step_recorded_witness :
  ∃ device w' r line,
    device ∈ ["emulator-5554"]
    ∧ bb_run_sharded_steps._RunShardedSteps Scenario.host
        [("foo", "run_foo"); ("bar", "run_bar")] ["foo"] ["emulator-5554"]
        Scenario.fresh
      = (Ok 0%Z, w')
    ∧ bb_run_sharded_steps.recorded w' "foo" = Some r
    ∧ bb_run_sharded_steps.res_exit_code r = 0%Z
    ∧ bb_run_sharded_steps.res_output r
      = (bb_run_sharded_steps.pexpect_run Scenario.host
           ("run_foo" +:+ " --device " +:+ device
            +:+ " --keep_test_server_ports")).1
    ∧ line ∈ bb_run_sharded_steps.stdout w'
    ∧ String.prefix ("Finished " +:+ "foo") line = true
    ∧ bb_run_sharded_steps.contains "(ignored, flaky step)" line = true.
Proof.
  apply (flaky_step_recorded Scenario.host
           [("foo", "run_foo"); ("bar", "run_bar")] ["foo"] ["emulator-5554"]
           Scenario.fresh "foo" "run_foo").
  - apply (bool_decide_unpack _). vm_compute. exact I.
  - discriminate.
  - apply (bool_decide_unpack _). vm_compute. exact I.
  - apply (bool_decide_unpack _). vm_compute. exact I.
Defined.

(** C6 as stated fails: the flaky step [foo] exits with 1 and is recorded
    with exit code 0, but its recorded output is the captured output
    [FAILED foo], without any annotation. *)
Lemma flaky_output_not_annotated :
  ¬ ∃ r,
      bb_run_sharded_steps.recorded
        (bb_run_sharded_steps._RunShardedSteps Scenario.host
           [("foo", "run_foo")] ["foo"] ["emulator-5554"] Scenario.fresh).2
        "foo" = Some r
      ∧ bb_run_sharded_steps.res_exit_code r = 0%Z
      ∧ bb_run_sharded_steps.contains "(ignored, flaky"
          (bb_run_sharded_steps.res_output r) = true.
Proof.
  intros (r & Hr & _ & Hc). vm_compute in Hr.
  injection Hr as <-. vm_compute in Hc. discriminate.
Qed.

Lemma step_without_status_recorded_passing_witness :
  ∃ results w' r,
    bb_run_sharded_steps._RunStepsPerDevice Scenario.host
      [bb_run_sharded_steps.step_params [] "emulator-5554" ("bar", "run_bar")]
      Scenario.stale = (Ok results, w')
    ∧ bb_run_sharded_steps.recorded w' "bar" = Some r
    ∧ r ∈ results
    ∧ bb_run_sharded_steps.res_exit_code r = 0%Z
    ∧ bb_run_sharded_steps.res_output r = "Killed".
Proof.
  apply (step_without_status_recorded_passing Scenario.host
           [bb_run_sharded_steps.step_params [] "emulator-5554"
              ("bar", "run_bar")]
           Scenario.stale Scenario.old_files
           (bb_run_sharded_steps.step_params [] "emulator-5554"
              ("bar", "run_bar"))).
  - reflexivity.
  - apply (bool_decide_unpack _). vm_compute. exact I.
  - apply list_elem_of_here.
  - reflexivity.
Defined.

(** C9, as the code has it.  In a run (no print option given):
    - when the port reset succeeded, a device is attached, the
      manifests named by the options can be read, the manifest of the
      steps is not empty and the system lets every step of it run (the
      command line of the step can be spawned for the attached devices,
      and the file of its result opens under the name of the step in
      the result directory), [main] returns 0, whatever the exit codes
      of the steps;
    - when no device is attached, the result directory is left as it
      was and [main] does not return 0: it prints its message and
      returns 1 when the port reset succeeded, and raises the exception
      of the failed port reset otherwise. *)
Theorem run_exit_status (h : bb_run_sharded_steps.Host)
    (sys : Fallible.System) (options : bb_run_sharded_steps.Options)
    (w : bb_run_sharded_steps.World) :
  bb_run_sharded_steps.given
    (bb_run_sharded_steps.opt_print_results options) = None →
  bb_run_sharded_steps.given
    (bb_run_sharded_steps.opt_print_all options) = None →
  (bb_run_sharded_steps.ResetTestServerPortAllocation h = true →
   bb_run_sharded_steps.GetAttachedDevices h ≠ [] →
   ∀ path, bb_run_sharded_steps.opt_steps options = Some path →
     Fallible.load_error sys path = None →
     (∀ flaky,
        bb_run_sharded_steps.given
          (bb_run_sharded_steps.opt_flaky_steps options) = Some flaky →
        Fallible.load_error sys flaky = None) →
     bb_run_sharded_steps.json_dict h path ≠ [] →
     Forall (Fallible.runnable h sys
               (bb_run_sharded_steps.GetAttachedDevices h))
            (bb_run_sharded_steps.json_dict h path) →
     ∃ w', Fallible.main h sys options w = (Ok 0%Z, w'))
  ∧ (bb_run_sharded_steps.GetAttachedDevices h = [] →
     ∃ out w',
       Fallible.main h sys options w = (out, w')
       ∧ out ≠ Ok 0%Z
       ∧ bb_run_sharded_steps.store w' = bb_run_sharded_steps.store w
       ∧ (bb_run_sharded_steps.ResetTestServerPortAllocation h = true →
          out = Ok 1%Z
          ∧ bb_run_sharded_steps.stdout w'
            = bb_run_sharded_steps.stdout w ++ ["You must attach a device"])
       ∧ (bb_run_sharded_steps.ResetTestServerPortAllocation h = false →
          out = Raise (Exception "Failed to reset test server port."))).
Proof.
  intros Hp HP. unfold Fallible.main. rewrite Hp, HP.
  destruct (KillPendingServers_spec h w) as [t Hk]. split.
  - intros Hreset Hdev path Hpath Hload Hflaky Hsteps Hruns.
    unfold bb_run_sharded_steps.bind at 1. rewrite Hk, Hreset. cbn [negb].
    destruct (Py.sorted (bb_run_sharded_steps.GetAttachedDevices h))
      as [|d ds] eqn:Hsorted; [by apply sorted_nil_inv in Hsorted|].
    assert (Hruns' : Forall (Fallible.runnable h sys (d :: ds))
                       (bb_run_sharded_steps.json_dict h path)).
    { eapply Forall_impl; [exact Hruns|]. intros item [Hspawn Hopen].
      split; [|exact Hopen]. intros device Hin. apply Hspawn.
      by rewrite <- (sorted_perm _), Hsorted. }
    rewrite Hpath. unfold bb_run_sharded_steps.bind at 1.
    unfold Fallible.load at 1. rewrite Hload.
    unfold bb_run_sharded_steps.ret at 1.
    unfold bb_run_sharded_steps.bind at 1.
    destruct (bb_run_sharded_steps.given
                (bb_run_sharded_steps.opt_flaky_steps options))
      as [flaky|] eqn:Hf.
    + unfold bb_run_sharded_steps.bind at 1. unfold Fallible.load at 1.
      rewrite (Hflaky flaky eq_refl). unfold bb_run_sharded_steps.ret.
      rewrite fallible_RunShardedSteps_spec by done. by eexists.
    + unfold bb_run_sharded_steps.ret.
      rewrite fallible_RunShardedSteps_spec by done. by eexists.
  - intros Hdev. unfold bb_run_sharded_steps.bind at 1.
    rewrite Hk, Hdev. cbn [Py.sorted foldr].
    destruct (bb_run_sharded_steps.ResetTestServerPortAllocation h).
    + cbn [negb]. unfold bb_run_sharded_steps.bind,
        bb_run_sharded_steps.print, bb_run_sharded_steps.ret.
      cbn [bb_run_sharded_steps.store bb_run_sharded_steps.stdout
           bb_run_sharded_steps.clock].
      eexists _, _. split; [reflexivity|]. split; [discriminate|].
      split; [reflexivity|]. split; [|discriminate].
      intros _. split; reflexivity.
    + cbn [negb]. unfold bb_run_sharded_steps.raise.
      eexists _, _. split; [reflexivity|]. split; [discriminate|].
      split; [reflexivity|]. split; [discriminate|]. intros _. reflexivity.
Qed.

Lemma run_exit_status_witness :
  (∃ w', Fallible.main Scenario.host Scenario.system Scenario.run_options
           Scenario.stale = (Ok 0%Z, w'))
  ∧ (∃ out w',
       Fallible.main Scenario.host_without_devices Scenario.system
         Scenario.run_options Scenario.stale = (out, w')
       ∧ out = Ok 1%Z
       ∧ bb_run_sharded_steps.store w'
         = bb_run_sharded_steps.store Scenario.stale
       ∧ bb_run_sharded_steps.stdout w' = ["You must attach a device"])
  ∧ (∃ out w',
       Fallible.main Scenario.host_without_devices_and_ports Scenario.system
         Scenario.run_options Scenario.stale = (out, w')
       ∧ out = Raise (Exception "Failed to reset test server port.")
       ∧ bb_run_sharded_steps.store w'
         = bb_run_sharded_steps.store Scenario.stale).
Proof.
  split; [|split].
  - apply (proj1 (run_exit_status Scenario.host Scenario.system
                    Scenario.run_options Scenario.stale eq_refl eq_refl))
      with "steps.json".
    + reflexivity.
    + discriminate.
    + reflexivity.
    + reflexivity.
    + intros flaky [= <-]. reflexivity.
    + discriminate.
    + repeat constructor; intros device _; reflexivity.
  - destruct (proj2 (run_exit_status Scenario.host_without_devices
                       Scenario.system Scenario.run_options Scenario.stale
                       eq_refl eq_refl) eq_refl)
      as (out & w' & Hrun & _ & Hstore & Hreset & _).
    exists out, w'. destruct (Hreset eq_refl) as [Hout Hprinted].
    by repeat split.
  - destruct (proj2 (run_exit_status Scenario.host_without_devices_and_ports
                       Scenario.system Scenario.run_options Scenario.stale
                       eq_refl eq_refl) eq_refl)
      as (out & w' & Hrun & _ & Hstore & _ & Hreset).
    exists out, w'. by repeat split; [|apply Hreset|].
Defined.

(** C9 as stated fails.  With a device attached and the ports reset, a
    run does not return 0 when its manifest holds no step (the assertion
    at the head of [_RunShardedSteps] raises), when the command of a
    step is not installed ([pexpect.run] raises), when a step is named
    after a path (the file of its result cannot be opened), or when the
    manifest does not exist.  With a device attached and a failed port
    reset, it raises as well. *)
Lemma run_with_a_device_may_raise :
  bb_run_sharded_steps.GetAttachedDevices Scenario.bot = ["emulator-5554"]
  ∧ bb_run_sharded_steps.ResetTestServerPortAllocation Scenario.bot = true
  ∧ bb_run_sharded_steps.json_dict Scenario.bot "empty.json" = []
  ∧ (Fallible.main Scenario.bot Scenario.system
       (Scenario.run_options_for "empty.json") Scenario.fresh).1
    = Raise (AssertionError "")
  ∧ (¬ ∃ w', Fallible.main Scenario.bot Scenario.system
               (Scenario.run_options_for "empty.json") Scenario.fresh
             = (Ok 0%Z, w'))
  ∧ bb_run_sharded_steps.json_dict Scenario.bot "nosuch.json"
    = [("foo", "run_foo"); ("nosuch", "nosuch")]
  ∧ (Fallible.main Scenario.bot Scenario.system
       (Scenario.run_options_for "nosuch.json") Scenario.fresh).1
    = Raise (Exception
               "The command was not found or was not executable: nosuch.")
  ∧ bb_run_sharded_steps.json_dict Scenario.bot "nested.json"
    = [("perf/foo", "run_foo")]
  ∧ (Fallible.main Scenario.bot Scenario.system
       (Scenario.run_options_for "nested.json") Scenario.fresh).1
    = Raise (IOError "/b/build/src/out/step_results/perf/foo")
  ∧ (Fallible.main Scenario.bot Scenario.system
       (Scenario.run_options_for "missing.json") Scenario.fresh).1
    = Raise (IOError "missing.json")
  ∧ bb_run_sharded_steps.GetAttachedDevices Scenario.bot_without_ports
    = ["emulator-5554"]
  ∧ (Fallible.main Scenario.bot_without_ports Scenario.system
       Scenario.run_options Scenario.fresh).1
    = Raise (Exception "Failed to reset test server port.").
Proof.
  repeat (split; [reflexivity|]).
  split; [intros [w' Hw]; vm_compute in Hw; discriminate|].
  repeat (split; [reflexivity|]). reflexivity.
Qed.

(** *** The device pool *)

Section PoolFacts.
Import LocalDeviceEnvironment.

Lemma blacklisted_extend (bl : Blacklist) (serials : list string)
    (reason serial : string) :
  blacklisted bl serial = true ∨ serial ∈ serials →
  blacklisted (Extend bl serials reason) serial = true.
Proof.
  intros H. unfold blacklisted, Extend. apply bool_decide_eq_true.
  rewrite fmap_app, elem_of_app, <- list_fmap_compose.
  destruct H as [H|H].
  - left. by apply bool_decide_eq_true in H.
  - right. change (fst ∘ (λ s : string, (s, reason))) with (@id string).
    by rewrite list_fmap_id.
Qed.

Lemma HealthyDevices_skips (bl : Blacklist) (fleet : list Device) (d : Device) :
  blacklisted bl (GetDeviceSerial d) = true →
  d ∉ HealthyDevices (Some bl) fleet.
Proof.
  intros Hb Hin. unfold HealthyDevices in Hin.
  apply list_elem_of_filter in Hin as [Hf _]. congruence.
Qed.

(** The live set chosen by [SetUp] is part of the healthy devices, or
    the one it had. *)
Lemma SetUp_devices (env : Env) (fleet : list Device) (d : Device) :
  d ∈ _devices (SetUp env fleet).2 →
  d ∈ HealthyDevices (_blacklist env) fleet ∨ d ∈ _devices env.
Proof.
  unfold SetUp.
  destruct (HealthyDevices (_blacklist env) fleet) as [|d0 ds] eqn:Hh;
    [by right|].
  destruct (requested_serial env) as [serial|]; cbn zeta.
  - destruct (filter _ (d0 :: ds)) as [|d1 ds1] eqn:Hf; cbn [snd _devices set_devices].
    + intros H. by apply elem_of_nil in H.
    + rewrite <- Hf. intros H. apply list_elem_of_filter in H as [_ H]. by left.
  - cbn [snd _devices set_devices]. by left.
Qed.

Lemma SetUp_blacklist (env : Env) (fleet : list Device) :
  _blacklist (SetUp env fleet).2 = _blacklist env.
Proof.
  unfold SetUp. destruct (HealthyDevices _ _); [done|].
  destruct (requested_serial env); cbn zeta; [|done].
  by destruct (filter _ _).
Qed.

(** Once a serial is on the blacklist and off the live set, no later
    call brings a device of that serial back. *)
Lemma do_calls_excluded (calls : list call) (env : Env) (bl : Blacklist)
    (serial : string) :
  _blacklist env = Some bl → blacklisted bl serial = true →
  (∀ d, d ∈ _devices env → GetDeviceSerial d ≠ serial) →
  ∀ d, d ∈ _devices (do_calls env calls) → GetDeviceSerial d ≠ serial.
Proof.
  revert env bl. induction calls as [|c calls IH]; intros env bl Hbl Hb Hlive;
    [exact Hlive|].
  unfold do_calls. cbn [foldl]. fold (do_calls (do_call env c) calls).
  destruct c as [device reason|fleet]; cbn [do_call].
  - eapply (IH _ (Extend bl [GetDeviceSerial device] reason)).
    + unfold BlacklistDevice. by rewrite Hbl.
    + apply blacklisted_extend. by left.
    + unfold BlacklistDevice. rewrite Hbl. cbn [_devices].
      intros d Hd. apply list_elem_of_filter in Hd as [_ Hd]. by apply Hlive.
  - eapply (IH _ bl).
    + by rewrite SetUp_blacklist.
    + done.
    + intros d Hd. apply SetUp_devices in Hd as [Hd|Hd]; [|by apply Hlive].
      rewrite Hbl in Hd. intros <-.
      by apply (HealthyDevices_skips bl fleet d).
Qed.

End PoolFacts.

(** C5. With a blacklist store configured, [BlacklistDevice] on a live
    device appends the serial of the device (with the reason) to the
    blacklist and takes the device off the live set, leaving the others;
    from then on, whatever devices are blacklisted and whatever fleets
    are discovered again from that blacklist, no device of that serial
    is in the live set: the blacklist only grows, and nothing in the
    environment clears it. *)
Theorem BlacklistDevice_excludes (env : LocalDeviceEnvironment.Env)
    (bl : LocalDeviceEnvironment.Blacklist) (device : Device)
    (reason : string) :
  LocalDeviceEnvironment._blacklist env = Some bl →
  device ∈ LocalDeviceEnvironment._devices env →
  let env' := LocalDeviceEnvironment.BlacklistDevice env device reason in
  LocalDeviceEnvironment._blacklist env'
  = Some (bl ++ [(GetDeviceSerial device, reason)])
  ∧ LocalDeviceEnvironment._devices env'
    = filter (λ d, GetDeviceSerial d ≠ GetDeviceSerial device)
             (LocalDeviceEnvironment._devices env)
  ∧ (device ∉ LocalDeviceEnvironment._devices env')
  ∧ (∀ fleet,
       ¬ device ∈ LocalDeviceEnvironment.HealthyDevices
                    (LocalDeviceEnvironment._blacklist env') fleet)
  ∧ (∀ calls d,
       d ∈ LocalDeviceEnvironment._devices
             (LocalDeviceEnvironment.do_calls env' calls) →
       GetDeviceSerial d ≠ GetDeviceSerial device).
Proof.
  intros Hbl Hin env'. subst env'.
  unfold LocalDeviceEnvironment.BlacklistDevice. rewrite Hbl.
  cbn [LocalDeviceEnvironment._blacklist LocalDeviceEnvironment._devices].
  assert (Hb : LocalDeviceEnvironment.blacklisted
                 (LocalDeviceEnvironment.Extend bl [GetDeviceSerial device]
                    reason) (GetDeviceSerial device) = true).
  { apply blacklisted_extend. right. apply list_elem_of_here. }
  split; [reflexivity|]. split; [reflexivity|]. split; [|split].
  - intros H. by apply list_elem_of_filter in H as [H _].
  - intros fleet. by apply HealthyDevices_skips.
  - intros calls. eapply do_calls_excluded; [reflexivity|exact Hb|].
    cbn [LocalDeviceEnvironment._devices].
    intros d Hd. by apply list_elem_of_filter in Hd as [Hd _].
Qed.

Lemma BlacklistDevice_excludes_witness :
  let env' := LocalDeviceEnvironment.BlacklistDevice Scenario.env
                Scenario.device_a LocalDeviceEnvironment.default_reason in
  LocalDeviceEnvironment._blacklist env'
  = Some ([] ++ [("emulator-5554", "local_device_failure")])
  ∧ LocalDeviceEnvironment._devices env'
    = filter (λ d, GetDeviceSerial d ≠ "emulator-5554")
             [Scenario.device_a; Scenario.device_b]
  ∧ (Scenario.device_a ∉ LocalDeviceEnvironment._devices env')
  ∧ (∀ fleet,
       ¬ Scenario.device_a ∈ LocalDeviceEnvironment.HealthyDevices
                               (LocalDeviceEnvironment._blacklist env') fleet)
  ∧ (∀ calls d,
       d ∈ LocalDeviceEnvironment._devices
             (LocalDeviceEnvironment.do_calls env' calls) →
       GetDeviceSerial d ≠ "emulator-5554").
Proof.
  apply (BlacklistDevice_excludes Scenario.env [] Scenario.device_a
           LocalDeviceEnvironment.default_reason).
  - reflexivity.
  - apply list_elem_of_here.
Defined.

(** C7, as the code has it.  [SetUp] raises [NoDevicesError] exactly
    when no healthy device is left after the blacklist; when a serial is
    asked for, it raises [DeviceUnreachableError] exactly when there are
    healthy devices and none of them bears that serial (the empty healthy
    set is answered by [NoDevicesError] first); otherwise it succeeds
    and the live set is the healthy set, or the healthy devices of the
    serial asked for. *)
Theorem SetUp_outcome (env : LocalDeviceEnvironment.Env)
    (fleet : list Device) :
  let healthy :=
    LocalDeviceEnvironment.HealthyDevices
      (LocalDeviceEnvironment._blacklist env) fleet in
  let out := LocalDeviceEnvironment.SetUp env fleet in
  (out.1 = Raise NoDevicesError ↔ healthy = [])
  ∧ (∀ serial,
       LocalDeviceEnvironment.requested_serial env = Some serial →
       ((∃ msg, out.1 = Raise (DeviceUnreachableError msg))
        ↔ healthy ≠ [] ∧ serial ∉ GetDeviceSerial <$> healthy)
       ∧ (healthy ≠ [] → serial ∈ GetDeviceSerial <$> healthy →
          out.1 = Ok ()
          ∧ LocalDeviceEnvironment._devices out.2
            = filter (λ d, GetDeviceSerial d = serial) healthy))
  ∧ (LocalDeviceEnvironment.requested_serial env = None → healthy ≠ [] →
     out.1 = Ok () ∧ LocalDeviceEnvironment._devices out.2 = healthy).
Proof.
  intros healthy out. subst out. unfold LocalDeviceEnvironment.SetUp.
  fold healthy. destruct healthy as [|d0 ds] eqn:Hh.
  - split; [by split|]. split.
    + intros serial _. split; [|done]. split.
      * intros [msg Hmsg]. discriminate.
      * by intros [Hne _].
    + done.
  - assert (Hfilter : ∀ serial,
      filter (λ d, GetDeviceSerial d = serial) (d0 :: ds) = []
      ↔ serial ∉ GetDeviceSerial <$> (d0 :: ds)).
    { intros serial. split.
      - intros Hf Hin. apply list_elem_of_fmap in Hin as (d & -> & Hd).
        assert (Hdf : d ∈ filter (λ d', GetDeviceSerial d' = GetDeviceSerial d)
                            (d0 :: ds))
          by (by apply list_elem_of_filter).
        rewrite Hf in Hdf. by apply elem_of_nil in Hdf.
      - intros Hnot.
        destruct (filter _ (d0 :: ds)) as [|d1 ds1] eqn:Hf; [done|].
        exfalso. apply Hnot.
        assert (Hd1 : d1 ∈ filter (λ d, GetDeviceSerial d = serial) (d0 :: ds))
          by (rewrite Hf; apply list_elem_of_here).
        apply list_elem_of_filter in Hd1 as [<- Hd1].
        by apply list_elem_of_fmap_2. }
    split; [|split].
    + split; [|done]. destruct (LocalDeviceEnvironment.requested_serial env);
        cbn zeta; [|done]. by destruct (filter _ _).
    + intros serial ->. cbn zeta. specialize (Hfilter serial).
      destruct (filter _ (d0 :: ds)) as [|d1 ds1] eqn:Hf;
        cbn [fst snd LocalDeviceEnvironment._devices
             LocalDeviceEnvironment.set_devices].
      * split.
        -- split; [intros _; split; [done|by apply Hfilter]|by eexists].
        -- intros _ Hin. by apply Hfilter in Hin.
      * split; [|done]. split.
        -- intros [msg Hmsg]. discriminate.
        -- intros [_ Hnot]. by apply Hfilter in Hnot.
    + by intros ->.
Qed.

Lemma SetUp_outcome_witness :
  (LocalDeviceEnvironment.SetUp (Scenario.env_for "emulator-5556")
     [Scenario.device_a; Scenario.device_b]).1 = Ok ()
  ∧ LocalDeviceEnvironment._devices
      (LocalDeviceEnvironment.SetUp (Scenario.env_for "emulator-5556")
         [Scenario.device_a; Scenario.device_b]).2
    = filter (λ d, GetDeviceSerial d = "emulator-5556")
        (LocalDeviceEnvironment.HealthyDevices None
           [Scenario.device_a; Scenario.device_b]).
Proof.
  apply (proj1 (proj2 (SetUp_outcome (Scenario.env_for "emulator-5556")
                         [Scenario.device_a; Scenario.device_b]))
           "emulator-5556").
  - reflexivity.
  - discriminate.
  - apply (bool_decide_unpack _). vm_compute. exact I.
Defined.

(** C7 as stated fails: a serial is asked for, no healthy device is
    left, so the serial is not among the healthy devices; yet [SetUp]
    raises [NoDevicesError], not [DeviceUnreachableError]. *)
Lemma SetUp_no_devices_before_unreachable :
  LocalDeviceEnvironment.requested_serial (Scenario.env_for "emulator-5554")
  = Some "emulator-5554"
  ∧ ("emulator-5554"
     ∉ GetDeviceSerial
       <$> LocalDeviceEnvironment.HealthyDevices
             (LocalDeviceEnvironment._blacklist
                (Scenario.env_for "emulator-5554")) [])
  ∧ (LocalDeviceEnvironment.SetUp (Scenario.env_for "emulator-5554") []).1
    = Raise NoDevicesError
  ∧ ¬ ∃ msg,
        (LocalDeviceEnvironment.SetUp (Scenario.env_for "emulator-5554") []).1
        = Raise (DeviceUnreachableError msg).
Proof.
  split; [reflexivity|]. split; [apply not_elem_of_nil|].
  split; [reflexivity|]. intros [msg H]. discriminate.
Qed.

(** C3.  [_GetTests] sorts and de-duplicates the tests before they are
    sharded ([GetTests_sorted_deduplicated], [GetTests_deterministic]).
    [_RunShardedSteps] does not: it computes the sorted step names and
    then shards [steps.keys()], the keys in the order in which the
    dictionary iterates them; whatever that order is, the steps of the
    devices, taken together, follow it.  CPython 2.7 iterates the keys
    [a], [b], [c] as [a], [c], [b]: with two devices the first gets [a]
    and [c] and the second [b], where the sorted names would give [a]
    and [b] to the first and [c] to the second.  It iterates the keys of
    the manifest of the module's docstring as [step_name_foo],
    [step_name_bar]: the first device gets [step_name_foo] and the second
    [step_name_bar], where the sorted names would give them the other
    way round. *)
Theorem RunShardedSteps_shards_in_key_order :
  (∀ (steps : list (string * string)) (flaky_steps : list string)
     (device : string) (devices : list string),
     bb_run_sharded_steps.step_name
       <$> concat (bb_run_sharded_steps.all_params steps flaky_steps
                     (device :: devices))
     = steps.*1)
  ∧ Py.sorted [("a", "run_a"); ("c", "run_c"); ("b", "run_b")].*1
    = ["a"; "b"; "c"]
  ∧ fmap (M:=list) bb_run_sharded_steps.step_name
      <$> bb_run_sharded_steps.all_params
            [("a", "run_a"); ("c", "run_c"); ("b", "run_b")] []
            ["emulator-5554"; "emulator-5556"]
    = [["a"; "c"]; ["b"]]
  ∧ fmap (M:=list) bb_run_sharded_steps.step_name
      <$> bb_run_sharded_steps.all_params
            [("a", "run_a"); ("b", "run_b"); ("c", "run_c")] []
            ["emulator-5554"; "emulator-5556"]
    = [["a"; "b"]; ["c"]]
  ∧ Py.sorted [("step_name_foo", "script_to_execute foo");
               ("step_name_bar", "script_to_execute bar")].*1
    = ["step_name_bar"; "step_name_foo"]
  ∧ fmap (M:=list) bb_run_sharded_steps.step_name
      <$> bb_run_sharded_steps.all_params
            [("step_name_foo", "script_to_execute foo");
             ("step_name_bar", "script_to_execute bar")] []
            ["emulator-5554"; "emulator-5556"]
    = [["step_name_foo"]; ["step_name_bar"]].
Proof.
  split; [intros steps flaky_steps device devices; by apply all_params_names|].
  repeat split; reflexivity.
Qed.

(** *** More on the work partitioner *)

Section PartitionerMore.
Context {A : Type}.
Implicit Types (tests u : list A).
Import LocalDeviceGtestRun.

Lemma xrange_bound (start stop step k : nat) :
  1 ≤ step → k < (stop - start + step - 1) / step → start + k * step < stop.
Proof.
  intros Hs Hk.
  pose proof (Nat.div_mod_eq (stop - start + step - 1) step) as Hd.
  pose proof (Nat.mod_upper_bound (stop - start + step - 1) step ltac:(lia)) as Hr.
  nia.
Qed.

Lemma omap_lookup_length u (ks : list nat) :
  Forall (λ k, k < length u) ks → length (omap (λ k, u !! k) ks) = length ks.
Proof.
  induction 1 as [|k ks Hk _ IH]; [done|].
  cbn [omap list_omap]. destruct (lookup_lt_is_Some_2 u k Hk) as [x ->].
  simpl. by rewrite IH.
Qed.

(** [len(tests[i::n])], by the formula of Python's slices. *)
Lemma unbounded_shard_length (n : nat) tests (i : nat) :
  1 ≤ n →
  length (unbounded_shard n tests i) = (length tests - i + n - 1) / n.
Proof.
  intros Hn. unfold unbounded_shard, Py.slice_step.
  rewrite omap_lookup_length.
  - unfold Py.xrange. by rewrite length_fmap, length_seq.
  - unfold Py.xrange. apply Forall_fmap, Forall_forall. intros k Hk.
    apply elem_of_seq in Hk. simpl. apply xrange_bound; lia.
Qed.

Lemma bounded_shards_count (m : nat) u :
  length (bounded_shards m u) = (length u + m - 1) / m.
Proof.
  unfold bounded_shards, Py.xrange.
  rewrite !length_fmap, length_seq. f_equal. lia.
Qed.

Lemma bounded_shards_lookup (m : nat) u (k : nat) (s : list A) :
  bounded_shards m u !! k = Some s →
  s = take m (drop (k * m) u) ∧ k < (length u + m - 1) / m.
Proof.
  intros Hk. unfold bounded_shards, Py.xrange in Hk.
  rewrite <- list_fmap_compose in Hk.
  apply list_lookup_fmap_Some in Hk as (j & -> & Hj).
  apply lookup_seq in Hj as [-> Hlt]. simpl. unfold Py.slice. split.
  - f_equal. lia.
  - replace (length u - 0 + m - 1) with (length u + m - 1) in Hlt by lia.
    done.
Qed.

Lemma every_sublist (n k : nat) u : Py.every n k u `sublist_of` u.
Proof.
  revert k. induction u as [|x u IH]; intros k; [done|].
  destruct k; simpl; [apply sublist_skip|apply sublist_cons]; apply IH.
Qed.

Lemma create_shards_sublists (m n : nat) tests :
  1 ≤ n → Forall (λ s, s `sublist_of` tests) (create_shards m n tests).
Proof.
  intros Hn. rewrite create_shards_concat.
  induction (seq 0 n) as [|i l IH]; [constructor|].
  rewrite fmap_cons, concat_cons. apply Forall_app. split; [|exact IH].
  unfold bounded_shards. apply Forall_fmap, Forall_forall. intros j _.
  simpl. unfold Py.slice, unbounded_shard.
  rewrite slice_step_every by done.
  etrans; [apply sublist_take|]. etrans; [apply sublist_drop|].
  apply every_sublist.
Qed.

Lemma create_shards_nonempty (m n : nat) tests :
  1 ≤ m → Forall (λ s, s ≠ []) (create_shards m n tests).
Proof.
  intros Hm. rewrite create_shards_concat.
  induction (seq 0 n) as [|i l IH]; [constructor|].
  rewrite fmap_cons, concat_cons. apply Forall_app. split; [|exact IH].
  apply Forall_forall. intros s Hs.
  apply list_elem_of_lookup in Hs as [k Hk].
  apply bounded_shards_lookup in Hk as [-> Hk].
  set (u := unbounded_shard n tests i) in *.
  assert (Hlt : k * m < length u).
  { pose proof (xrange_bound 0 (length u) m k Hm) as Hb.
    replace (length u - 0 + m - 1) with (length u + m - 1) in Hb by lia.
    specialize (Hb Hk). lia. }
  intros Hnil. apply (f_equal length) in Hnil.
  rewrite length_take, length_drop in Hnil. simpl in Hnil. lia.
Qed.

(** With no more tests than devices, every test is a shard of its own. *)
Lemma singleton_shards (f : option A → list (list A)) u (n : nat) :
  f None = [] → (∀ x, f (Some x) = [[x]]) → length u ≤ n →
  concat ((λ i, f (u !! i)) <$> seq 0 n) = (λ x, [x]) <$> u.
Proof.
  intros Hnone Hsome. revert n. induction u as [|x u IH]; intros n Hlen.
  - induction (seq 0 n) as [|i l IHl]; [done|].
    by rewrite fmap_cons, concat_cons, IHl, lookup_nil, Hnone.
  - destruct n as [|n]; [simpl in Hlen; lia|].
    rewrite <- cons_seq, fmap_cons, concat_cons. simpl lookup at 1.
    rewrite Hsome, <- fmap_S_seq, <- list_fmap_compose.
    rewrite fmap_cons. simpl. f_equal. apply IH. simpl in Hlen. lia.
Qed.

Lemma unbounded_shard_few (n : nat) tests (i : nat) :
  1 ≤ n → length tests ≤ n → i < n →
  unbounded_shard n tests i = option_list (tests !! i).
Proof.
  intros Hn Hlen Hi. unfold unbounded_shard. rewrite slice_step_every by done.
  apply list_eq. intros j. rewrite every_lookup by done.
  destruct j as [|j].
  - rewrite Nat.add_0_r. by destruct (tests !! i).
  - rewrite (lookup_ge_None_2 tests) by (simpl; nia).
    by destruct (tests !! i).
Qed.

Lemma bounded_shards_nil (m : nat) : bounded_shards m ([] : list A) = [].
Proof.
  unfold bounded_shards, Py.xrange. simpl.
  destruct m as [|m]; [done|].
  by rewrite Nat.div_small by lia.
Qed.

Lemma bounded_shards_singleton (m : nat) (x : A) :
  1 ≤ m → bounded_shards m [x] = [[x]].
Proof.
  intros Hm. unfold bounded_shards, Py.xrange. simpl length.
  replace ((1 - 0 + m - 1) / m) with 1.
  - destruct m as [|m]; [lia|]. cbn [seq fmap list_fmap].
    unfold Py.slice. replace (0 + 0 * S m + S m - (0 + 0 * S m)) with (S m)
      by lia.
    replace (0 + 0 * S m) with 0 by lia. simpl. by rewrite take_nil.
  - replace (1 - 0 + m - 1) with (1 * m) by lia.
    by rewrite Nat.div_mul by lia.
Qed.

Lemma create_shards_few (m n : nat) tests :
  1 ≤ m → length tests ≤ n →
  create_shards m n tests = (λ t, [t]) <$> tests.
Proof.
  intros Hm Hlen. rewrite create_shards_concat.
  destruct n as [|n].
  { destruct tests; [done|simpl in Hlen; lia]. }
  rewrite <- (singleton_shards
                (λ o, bounded_shards m (option_list o)) tests (S n));
    [|apply bounded_shards_nil|intros x; by apply bounded_shards_singleton
     |done].
  f_equal. apply list_fmap_ext. intros k i Hi.
  apply lookup_seq in Hi as [-> Hi]. simpl.
  by rewrite unbounded_shard_few by lia.
Qed.

End PartitionerMore.

Lemma sublist_StronglySorted {A} (R : relation A) (l1 l2 : list A) :
  l1 `sublist_of` l2 → StronglySorted R l2 → StronglySorted R l1.
Proof.
  induction 1 as [|x l1 l2 Hsub IH|x l1 l2 Hsub IH]; intros Hs.
  - constructor.
  - apply StronglySorted_cons in Hs as [Hx Hs]. constructor; [by apply IH|].
    apply Forall_forall. intros y Hy.
    rewrite Forall_forall in Hx. apply Hx. by eapply elem_of_sublist.
  - apply StronglySorted_cons in Hs as [_ Hs]. by apply IH.
Qed.

(** X1. The shards of [_CreateShards] are never empty, and every shard
    lists its tests in the order of the list of tests (it is a
    subsequence of the list): a sorted list of tests gives sorted shards,
    a duplicate-free one duplicate-free shards. *)
Theorem CreateShards_shards_in_order (devices : list Device)
    (tests : list string) (shards : list (list string)) :
  LocalDeviceGtestRun._CreateShards devices tests = Ok shards →
  Forall (λ s, s ≠ [] ∧ s `sublist_of` tests
               ∧ (StronglySorted Py.str_le tests → StronglySorted Py.str_le s)
               ∧ (NoDup tests → NoDup s)) shards.
Proof.
  unfold LocalDeviceGtestRun._CreateShards.
  destruct devices as [|d ds]; [done|]. cbn [env_devices].
  intros [= <-].
  pose proof (create_shards_nonempty LocalDeviceGtestRun._MAX_SHARD_SIZE
                (length (d :: ds)) tests) as Hne.
  pose proof (create_shards_sublists LocalDeviceGtestRun._MAX_SHARD_SIZE
                (length (d :: ds)) tests) as Hsub.
  rewrite Forall_forall in *. intros s Hs.
  assert (Hs' : s `sublist_of` tests) by (apply Hsub; [simpl; lia|done]).
  split; [apply Hne; [unfold LocalDeviceGtestRun._MAX_SHARD_SIZE; lia|done]|].
  split; [done|]. split.
  - by apply sublist_StronglySorted.
  - intros Hnd. by eapply sublist_NoDup.
Qed.

Lemma CreateShards_shards_in_order_witness :
  Forall (λ s, s ≠ [] ∧ s `sublist_of` ["A.a"; "A.b"; "B.a"]
               ∧ (StronglySorted Py.str_le ["A.a"; "A.b"; "B.a"] →
                  StronglySorted Py.str_le s)
               ∧ (NoDup ["A.a"; "A.b"; "B.a"] → NoDup s))
         [["A.a"; "B.a"]; ["A.b"]].
Proof.
  apply (CreateShards_shards_in_order
           [mkDevice "emulator-5554"; mkDevice "emulator-5556"]
           ["A.a"; "A.b"; "B.a"]).
  reflexivity.
Defined.

(** X2. The round robin is balanced: worker [i] of [n] gets
    [(len(tests) - i + n - 1) / n] tests, so an earlier worker gets as
    many tests as a later one, or one more. *)
Theorem unbounded_shard_balanced {A} (n : nat) (tests : list A) (i j : nat) :
  1 ≤ n → i ≤ j → j < n →
  length (LocalDeviceGtestRun.unbounded_shard n tests i)
  = (length tests - i + n - 1) / n
  ∧ length (LocalDeviceGtestRun.unbounded_shard n tests j)
    ≤ length (LocalDeviceGtestRun.unbounded_shard n tests i)
  ∧ length (LocalDeviceGtestRun.unbounded_shard n tests i)
    ≤ length (LocalDeviceGtestRun.unbounded_shard n tests j) + 1.
Proof.
  intros Hn Hij Hj. rewrite !unbounded_shard_length by done.
  split; [done|]. split.
  - apply Nat.Div0.div_le_mono. lia.
  - replace ((length tests - j + n - 1) / n + 1)
      with ((length tests - j + n - 1 + 1 * n) / n)
      by (rewrite Nat.div_add by lia; done).
    apply Nat.Div0.div_le_mono. lia.
Qed.

Lemma unbounded_shard_balanced_witness :
  length (LocalDeviceGtestRun.unbounded_shard 3
            ["a"; "b"; "c"; "d"; "e"; "f"; "g"] 0) = (7 - 0 + 3 - 1) / 3
  ∧ length (LocalDeviceGtestRun.unbounded_shard 3
              ["a"; "b"; "c"; "d"; "e"; "f"; "g"] 2)
    ≤ length (LocalDeviceGtestRun.unbounded_shard 3
                ["a"; "b"; "c"; "d"; "e"; "f"; "g"] 0)
  ∧ length (LocalDeviceGtestRun.unbounded_shard 3
              ["a"; "b"; "c"; "d"; "e"; "f"; "g"] 0)
    ≤ length (LocalDeviceGtestRun.unbounded_shard 3
                ["a"; "b"; "c"; "d"; "e"; "f"; "g"] 2) + 1.
Proof.
  apply (unbounded_shard_balanced 3 ["a"; "b"; "c"; "d"; "e"; "f"; "g"] 0 2);
    lia.
Defined.

(** X3. With no more tests than live devices, [_CreateShards] makes one
    shard per test, in the order of the tests; the devices beyond the
    number of tests get no shard. *)
Theorem CreateShards_few_tests {A} (devices : list Device) (tests : list A) :
  1 ≤ length devices → length tests ≤ length devices →
  LocalDeviceGtestRun._CreateShards devices tests
  = Ok ((λ t, [t]) <$> tests).
Proof.
  intros Hd Hlen. unfold LocalDeviceGtestRun._CreateShards.
  destruct devices as [|d ds]; [simpl in Hd; lia|]. cbn [env_devices].
  f_equal. apply create_shards_few; [|done].
  unfold LocalDeviceGtestRun._MAX_SHARD_SIZE. lia.
Qed.

Lemma CreateShards_few_tests_witness :
  LocalDeviceGtestRun._CreateShards
    [mkDevice "emulator-5554"; mkDevice "emulator-5556";
     mkDevice "emulator-5558"] ["A.a"; "A.b"]
  = Ok ((λ t, [t]) <$> ["A.a"; "A.b"]).
Proof.
  apply (CreateShards_few_tests
           [mkDevice "emulator-5554"; mkDevice "emulator-5556";
            mkDevice "emulator-5558"] ["A.a"; "A.b"]); simpl; lia.
Defined.

(** X4. A worker's list of [len] tests is cut into [(len + m - 1) / m]
    shards, and every shard but the last one has exactly [m] tests, [m]
    being the bound on the size of a shard. *)
Theorem bounded_shards_full {A} (m : nat) (u : list A) (k : nat)
    (s : list A) :
  1 ≤ m →
  LocalDeviceGtestRun.bounded_shards m u !! k = Some s →
  length (LocalDeviceGtestRun.bounded_shards m u) = (length u + m - 1) / m
  ∧ 1 ≤ length s
  ∧ (S k < length (LocalDeviceGtestRun.bounded_shards m u) → length s = m).
Proof.
  intros Hm Hk. rewrite bounded_shards_count. split; [done|].
  apply bounded_shards_lookup in Hk as [-> Hk].
  rewrite length_take, length_drop.
  pose proof (Nat.div_mod_eq (length u + m - 1) m) as Hd.
  pose proof (Nat.mod_upper_bound (length u + m - 1) m ltac:(lia)) as Hr.
  split; [nia|]. intros Hlast. nia.
Qed.

Lemma bounded_shards_full_witness :
  length (LocalDeviceGtestRun.bounded_shards 2 ["a"; "b"; "c"; "d"; "e"])
  = (5 + 2 - 1) / 2
  ∧ 1 ≤ length ["c"; "d"]
  ∧ (2 < length (LocalDeviceGtestRun.bounded_shards 2
                   ["a"; "b"; "c"; "d"; "e"]) →
     length ["c"; "d"] = 2).
Proof.
  apply (bounded_shards_full 2 ["a"; "b"; "c"; "d"; "e"] 1 ["c"; "d"]).
  - lia.
  - reflexivity.
Defined.

(** X5. From the listing to the shards: for a non-empty live set, the
    shards made from [_GetTests] hold exactly the tests that some device
    listed, each of them in one shard only, and every shard is sorted
    and has at most 256 tests. *)
Theorem GetTests_CreateShards (devices : list Device)
    (test_lists : list (option (list string))) :
  1 ≤ length devices →
  ∃ shards,
    LocalDeviceGtestRun._CreateShards devices
      (LocalDeviceGtestRun._GetTests test_lists) = Ok shards
    ∧ (∀ t, (∃ tl, Some tl ∈ test_lists ∧ t ∈ tl)
            ↔ ∃ k s, shards !! k = Some s ∧ t ∈ s)
    ∧ (∀ t k k' s s', shards !! k = Some s → shards !! k' = Some s' →
         t ∈ s → t ∈ s' → k = k')
    ∧ Forall (λ s, StronglySorted Py.str_le s ∧ NoDup s ∧ length s ≤ 256)
             shards.
Proof.
  intros Hd. unfold LocalDeviceGtestRun._CreateShards.
  destruct devices as [|d ds]; [simpl in Hd; lia|]. cbn [env_devices].
  eexists. split; [reflexivity|].
  set (tests := LocalDeviceGtestRun._GetTests test_lists).
  set (shards := LocalDeviceGtestRun.create_shards _ _ _).
  assert (Hperm : concat shards ≡ₚ tests).
  { apply create_shards_perm;
      [unfold LocalDeviceGtestRun._MAX_SHARD_SIZE; lia|simpl; lia]. }
  destruct (GetTests_sorted_deduplicated test_lists) as [Hsorted Hnd].
  fold tests in Hsorted, Hnd.
  split; [|split].
  - intros t. rewrite <- GetTests_elem_of. fold tests. rewrite <- Hperm.
    split; [apply elem_of_concat_inv|].
    intros (k & s & Hk & Hs). by eapply elem_of_concat_lookup.
  - intros t k k' s s' Hk Hk' Hs Hs'.
    eapply NoDup_concat_unique; [|exact Hk|exact Hk'|exact Hs|exact Hs'].
    by rewrite Hperm.
  - pose proof (create_shards_sublists LocalDeviceGtestRun._MAX_SHARD_SIZE
                  (length (d :: ds)) tests ltac:(simpl; lia)) as Hsub.
    pose proof (create_shards_length LocalDeviceGtestRun._MAX_SHARD_SIZE
                  (length (d :: ds)) tests) as Hlen.
    fold shards in Hsub, Hlen. rewrite Forall_forall in *.
    intros s Hs. split; [|split].
    + eapply sublist_StronglySorted; [by apply Hsub|done].
    + eapply sublist_NoDup; [done|by apply Hsub].
    + by apply Hlen.
Qed.

Lemma GetTests_CreateShards_witness :
  ∃ shards,
    LocalDeviceGtestRun._CreateShards
      [mkDevice "emulator-5554"; mkDevice "emulator-5556"]
      (LocalDeviceGtestRun._GetTests
         [Some ["B.a"; "A.a"]; None; Some ["A.b"; "A.a"]]) = Ok shards
    ∧ (∀ t, (∃ tl, Some tl ∈ [Some ["B.a"; "A.a"]; None; Some ["A.b"; "A.a"]]
                   ∧ t ∈ tl)
            ↔ ∃ k s, shards !! k = Some s ∧ t ∈ s)
    ∧ (∀ t k k' s s', shards !! k = Some s → shards !! k' = Some s' →
         t ∈ s → t ∈ s' → k = k')
    ∧ Forall (λ s, StronglySorted Py.str_le s ∧ NoDup s ∧ length s ≤ 256)
             shards.
Proof.
  apply (GetTests_CreateShards
           [mkDevice "emulator-5554"; mkDevice "emulator-5556"]
           [Some ["B.a"; "A.a"]; None; Some ["A.b"; "A.a"]]).
  simpl; lia.
Defined.

(** X6. [_GetTests] does not raise when listings fail: it returns the
    empty list exactly when every device gave [None] or no test at all.
    What [_CreateShards] makes of that empty list depends on the live
    set alone: no shard at all while some device is live, and
    [NoDevicesError] when none is (as after every device was blacklisted
    for its failed listing). *)
Theorem GetTests_all_devices_fail (devices : list Device)
    (test_lists : list (option (list string))) :
  (LocalDeviceGtestRun._GetTests test_lists = []
   ↔ Forall (λ tl, tl = None ∨ tl = Some []) test_lists)
  ∧ (Forall (λ tl, tl = None ∨ tl = Some []) test_lists →
     LocalDeviceGtestRun._CreateShards devices
       (LocalDeviceGtestRun._GetTests test_lists)
     = match devices with
       | [] => Raise NoDevicesError
       | _ :: _ => Ok []
       end).
Proof.
  assert (Hnil : Forall (λ tl, tl = None ∨ tl = Some []) test_lists →
                 LocalDeviceGtestRun._GetTests test_lists = []).
  { intros Hfail. unfold LocalDeviceGtestRun._GetTests.
    replace (omap (λ tl, if Py.truthy tl then tl else None) test_lists)
      with ([] : list (list string)); [done|].
    induction Hfail as [|tl l [->| ->] _ IH]; [done| |]; by cbn. }
  split; [split; [|exact Hnil]|].
  - intros Hempty. apply Forall_forall. intros [[|t tl]|] Hin;
      [by right| |by left].
    assert (Ht : t ∈ LocalDeviceGtestRun._GetTests test_lists).
    { apply GetTests_elem_of. exists (t :: tl). split; [done|].
      apply list_elem_of_here. }
    rewrite Hempty in Ht. by apply elem_of_nil in Ht.
  - intros Hfail. rewrite (Hnil Hfail).
    unfold LocalDeviceGtestRun._CreateShards.
    destruct devices as [|d ds]; [done|]. cbn [env_devices].
    rewrite create_shards_few; [done| |simpl; lia].
    unfold LocalDeviceGtestRun._MAX_SHARD_SIZE. lia.
Qed.

Lemma GetTests_all_devices_fail_witness :
  LocalDeviceGtestRun._GetTests [None; Some []; None] = []
  ∧ LocalDeviceGtestRun._CreateShards [mkDevice "emulator-5554"]
      (LocalDeviceGtestRun._GetTests [None; Some []; None]) = Ok []
  ∧ LocalDeviceGtestRun._CreateShards []
      (LocalDeviceGtestRun._GetTests [None; Some []; None])
    = Raise NoDevicesError.
Proof.
  assert (Hfail : Forall (λ tl : option (list string), tl = None ∨ tl = Some [])
                    [None; Some []; None]).
  { apply Forall_cons; split; [by left|].
    apply Forall_cons; split; [by right|].
    apply Forall_cons; split; [by left|]. apply Forall_nil_2. }
  split; [|split].
  - by apply (proj1 (GetTests_all_devices_fail [] [None; Some []; None])).
  - exact (proj2 (GetTests_all_devices_fail [mkDevice "emulator-5554"]
                    [None; Some []; None]) Hfail).
  - exact (proj2 (GetTests_all_devices_fail [] [None; Some []; None]) Hfail).
Defined.

(** *** More on the sharded steps *)

Section StepFactsMore.
Import bb_run_sharded_steps.
Variable h : Host.

Lemma recorded_after_sharding (ps : list StepParams) (w : World) (p : StepParams) :
  NoDup (step_name <$> ps) → p ∈ ps →
  recorded (after_sharding h ps w) (step_name p) = Some (result_of h p).
Proof.
  intros Hnd Hin. unfold recorded, after_sharding. cbn [store].
  change (step_name p) with (res_name (result_of h p)).
  apply save_all_lookup; [by apply list_elem_of_fmap_2|].
  by rewrite <- list_fmap_compose.
Qed.

Lemma recorded_after_sharding_other (ps : list StepParams) (w : World)
    (name : string) :
  name ∉ step_name <$> ps → recorded (after_sharding h ps w) name = None.
Proof.
  intros Hnot. unfold recorded, after_sharding. cbn [store].
  rewrite save_all_lookup_other; [apply lookup_empty|].
  by rewrite <- list_fmap_compose.
Qed.

Lemma all_params_NoDup (steps : list (string * string))
    (flaky_steps devices : list string) :
  NoDup steps.*1 → devices ≠ [] →
  NoDup (step_name <$> concat (all_params steps flaky_steps devices)).
Proof. intros Hnd Hd. by rewrite all_params_names. Qed.

Lemma all_params_length (steps : list (string * string))
    (flaky_steps devices : list string) :
  length (all_params steps flaky_steps devices) = length devices.
Proof.
  unfold all_params, Py.enumerate.
  rewrite length_fmap, length_zip_with, length_seq. lia.
Qed.

Lemma all_params_lookup (steps : list (string * string))
    (flaky_steps devices : list string) (i : nat) (ps : list StepParams) :
  all_params steps flaky_steps devices !! i = Some ps →
  ∃ device, devices !! i = Some device
    ∧ ps = steps_per_device steps flaky_steps
             ((length steps + length devices - 1) / length devices) i device.
Proof.
  unfold all_params. intros Hi.
  apply list_lookup_fmap_Some in Hi as ([i' device] & -> & Hi).
  assert (Hin : (i', device) ∈ Py.enumerate devices)
    by (by eapply list_elem_of_lookup_2).
  unfold Py.enumerate in Hi.
  apply lookup_zip_with_Some in Hi as (i'' & d' & [= -> ->] & Hseq & Hd).
  apply lookup_seq in Hseq as [-> _]. by exists d'.
Qed.

(** The outputs and the codes that [_PrintAllStepsOutput] meets after a
    run. *)
Lemma printed_after_sharding (ps : list StepParams) (w : World) :
  NoDup (step_name <$> ps) →
  printed_code (after_sharding h ps w) <$> (step_name <$> ps)
  = res_exit_code ∘ result_of h <$> ps
  ∧ printed_line h (after_sharding h ps w) <$> (step_name <$> ps)
    = res_output ∘ result_of h <$> ps.
Proof.
  intros Hnd. rewrite <- !list_fmap_compose.
  split; apply list_fmap_ext; intros i p Hp;
    apply list_elem_of_lookup_2 in Hp;
    unfold printed_code, printed_line; simpl;
    by rewrite recorded_after_sharding.
Qed.

(** Without the result directory the first step is run and its result
    is lost. *)
Lemma run_step_no_directory (step : StepParams) (w : World) :
  store w = None →
  run_step h step w
  = (Raise (IOError (path_join (_OUTPUT_DIR h) (step_name step))),
     {| store := None;
        stdout := stdout w ++ step_log h step (clock w);
        clock := clock w + elapsed h (step_cmd step) |}).
Proof.
  intros Hst. unfold run_step, step_log, starting_line, finished_line, run,
    _SaveResult.
  destruct (pexpect_run h (step_cmd step)) as [output exit_code].
  unfold bind, now, print, sleep, get_store, set_store, ret, raise.
  cbn [store stdout clock fst snd]. rewrite Hst. cbn [res_name].
  rewrite <- !app_assoc. reflexivity.
Qed.

End StepFactsMore.

(** X7. Recording and printing compose.  Take a manifest (its names
    are distinct, as the keys of a dictionary are) whose steps the system
    lets run: the command line of each step can be spawned for the
    devices, and the file of its result opens under the name of the step
    in the result directory.  After [_RunShardedSteps], which returns 0,
    the print of a step of the manifest gives back the output that its
    command produced on the device that ran it, and returns 0 when the
    step is listed as flaky, the exit status of the command when it is
    not, and 0 when the command reported no status. *)
Theorem run_then_print_step (h : bb_run_sharded_steps.Host)
    (sys : Fallible.System)
    (steps : list (string * string)) (flaky_steps devices : list string)
    (w : bb_run_sharded_steps.World) (name cmd : string) :
  NoDup steps.*1 → devices ≠ [] → (name, cmd) ∈ steps →
  Forall (Fallible.runnable h sys devices) steps →
  ∃ device w' output status,
    device ∈ devices
    ∧ bb_run_sharded_steps.pexpect_run h (Fallible.command_line cmd device)
      = (output, status)
    ∧ Fallible._RunShardedSteps h sys steps flaky_steps devices w
      = (Ok 0%Z, w')
    ∧ bb_run_sharded_steps._PrintStepOutput h name w'
      = (Ok (if bool_decide (name ∈ flaky_steps) then 0%Z
             else match status with
                  | Some code => code
                  | None => 0%Z
                  end),
         {| bb_run_sharded_steps.store := bb_run_sharded_steps.store w';
            bb_run_sharded_steps.stdout :=
              bb_run_sharded_steps.stdout w' ++ [output];
            bb_run_sharded_steps.clock := bb_run_sharded_steps.clock w' |}).
Proof.
  intros Hnd Hd Hin Hruns.
  assert (Hs : steps ≠ []) by (intros ->; by apply elem_of_nil in Hin).
  destruct (RunShardedSteps_records h steps flaky_steps devices w (name, cmd)
              Hnd Hd Hin) as (device & Hdev & Hrec & _).
  exists device.
  destruct (bb_run_sharded_steps.pexpect_run h
              (Fallible.command_line cmd device))
    as [output status] eqn:Hran.
  eexists _, output, status. split; [done|]. split; [done|].
  split; [by apply fallible_RunShardedSteps_spec|].
  rewrite PrintStepOutput_spec.
  unfold bb_run_sharded_steps.printed_code, bb_run_sharded_steps.printed_line.
  cbn [fst] in Hrec. rewrite Hrec, result_of_exit_code.
  unfold bb_run_sharded_steps.result_of.
  cbn [bb_run_sharded_steps.res_output bb_run_sharded_steps.step_is_flaky
       bb_run_sharded_steps.step_cmd bb_run_sharded_steps.step_params
       fst snd].
  unfold Fallible.command_line in Hran. rewrite Hran. cbn [fst snd].
  by destruct status.
Qed.

Lemma run_then_print_step_witness :
  ∃ w',
    Fallible._RunShardedSteps Scenario.host Scenario.system
      [("foo", "run_foo"); ("bar", "run_bar")] ["bar"] ["emulator-5554"]
      Scenario.stale
    = (Ok 0%Z, w')
    ∧ bb_run_sharded_steps._PrintStepOutput Scenario.host "foo" w'
      = (Ok 1%Z,
         {| bb_run_sharded_steps.store := bb_run_sharded_steps.store w';
            bb_run_sharded_steps.stdout :=
              bb_run_sharded_steps.stdout w' ++ ["FAILED foo"];
            bb_run_sharded_steps.clock := bb_run_sharded_steps.clock w' |}).
Proof.
  destruct (run_then_print_step Scenario.host Scenario.system
              [("foo", "run_foo"); ("bar", "run_bar")] ["bar"]
              ["emulator-5554"] Scenario.stale "foo" "run_foo")
    as (device & w' & output & status & Hdev & Hran & Hrun & Hprint).
  - apply (bool_decide_unpack _). vm_compute. exact I.
  - discriminate.
  - apply (bool_decide_unpack _). vm_compute. exact I.
  - repeat constructor; intros device _; reflexivity.
  - exists w'. split; [exact Hrun|].
    apply list_elem_of_singleton in Hdev as ->.
    injection Hran as <- <-. exact Hprint.
Defined.

(** X8. A run starts from an empty result directory.  For a manifest
    with at least one step (its names are distinct, as the keys of a
    dictionary are) whose steps the system lets run (command lines that
    can be spawned for the devices, result files that open under the
    names of the steps in the result directory), [_RunShardedSteps]
    returns 0, and the entries of the result directory are then exactly
    the names of the steps of the manifest, whatever the directory held
    before. *)
Theorem RunShardedSteps_fresh_store (h : bb_run_sharded_steps.Host)
    (sys : Fallible.System)
    (steps : list (string * string)) (flaky_steps devices : list string)
    (w : bb_run_sharded_steps.World) :
  NoDup steps.*1 → steps ≠ [] → devices ≠ [] →
  Forall (Fallible.runnable h sys devices) steps →
  ∃ w',
    Fallible._RunShardedSteps h sys steps flaky_steps devices w
    = (Ok 0%Z, w')
    ∧ ∀ name, is_Some (bb_run_sharded_steps.recorded w' name)
              ↔ name ∈ steps.*1.
Proof.
  intros Hnd Hs Hd Hruns. eexists.
  split; [by apply fallible_RunShardedSteps_spec|].
  intros name. set (ps := concat _).
  assert (Hnames : bb_run_sharded_steps.step_name <$> ps = steps.*1)
    by (by apply all_params_names).
  destruct (decide (name ∈ steps.*1)) as [Hin|Hnot].
  - split; [done|]. intros _. rewrite <- Hnames in Hin.
    apply list_elem_of_fmap in Hin as (p & -> & Hp).
    rewrite recorded_after_sharding; [done| |done]. by rewrite Hnames.
  - rewrite recorded_after_sharding_other by (by rewrite Hnames).
    split; [by intros [? ?]|done].
Qed.

Lemma RunShardedSteps_fresh_store_witness :
  ∃ w',
    Fallible._RunShardedSteps Scenario.host Scenario.system
      [("foo", "run_foo"); ("bar", "run_bar")] ["foo"] ["emulator-5554"]
      Scenario.stale
    = (Ok 0%Z, w')
    ∧ ∀ name, is_Some (bb_run_sharded_steps.recorded w' name)
              ↔ name ∈ [("foo", "run_foo"); ("bar", "run_bar")].*1.
Proof.
  apply (RunShardedSteps_fresh_store Scenario.host Scenario.system
           [("foo", "run_foo"); ("bar", "run_bar")] ["foo"] ["emulator-5554"]
           Scenario.stale).
  - apply (bool_decide_unpack _). vm_compute. exact I.
  - discriminate.
  - discriminate.
  - repeat constructor; intros device _; reflexivity.
Defined.

(** X9. How [_RunShardedSteps] shares the steps out: one list of steps
    per device; with [shard_size] the number of steps divided by the
    number of devices, rounded up, device [i] gets the steps of
    [steps.keys()] from position [i * shard_size] on, [shard_size] of
    them or what is left, with its own serial in each of them; all the
    lists together are the steps of the manifest, in its order. *)
Theorem all_params_partition (steps : list (string * string))
    (flaky_steps devices : list string) :
  devices ≠ [] →
  let shard_size := (length steps + length devices - 1) / length devices in
  length (bb_run_sharded_steps.all_params steps flaky_steps devices)
  = length devices
  ∧ (∀ i ps,
       bb_run_sharded_steps.all_params steps flaky_steps devices !! i
       = Some ps →
       ∃ device, devices !! i = Some device
         ∧ ps = bb_run_sharded_steps.step_params flaky_steps device
                  <$> take shard_size (drop (i * shard_size) steps)
         ∧ length ps = shard_size `min` (length steps - i * shard_size))
  ∧ bb_run_sharded_steps.step_name
      <$> concat (bb_run_sharded_steps.all_params steps flaky_steps devices)
    = steps.*1.
Proof.
  intros Hd shard_size. split; [apply all_params_length|].
  split; [|by apply all_params_names].
  intros i ps Hi. apply all_params_lookup in Hi as (device & Hdev & ->).
  exists device. split; [done|]. fold shard_size.
  unfold bb_run_sharded_steps.steps_per_device, Py.slice.
  replace ((i + 1) * shard_size - i * shard_size) with shard_size by lia.
  split; [done|]. by rewrite length_fmap, length_take, length_drop.
Qed.

Lemma all_params_partition_witness :
  length (bb_run_sharded_steps.all_params
            [("a", "run_a"); ("b", "run_b"); ("c", "run_c")] []
            ["emulator-5554"; "emulator-5556"])
  = 2
  ∧ bb_run_sharded_steps.step_name
      <$> concat (bb_run_sharded_steps.all_params
                    [("a", "run_a"); ("b", "run_b"); ("c", "run_c")] []
                    ["emulator-5554"; "emulator-5556"])
    = ["a"; "b"; "c"].
Proof.
  destruct (all_params_partition
              [("a", "run_a"); ("b", "run_b"); ("c", "run_c")] []
              ["emulator-5554"; "emulator-5556"] ltac:(discriminate))
    as (Hlen & _ & Hnames).
  split; [exact Hlen|exact Hnames].
Defined.

(** X10. What a run does to the result directory.  Take [main]
    without a print option.  When the run gets to the sharding (the port
    reset succeeded, a device is attached, the manifests named by the
    options can be read and the manifest of the steps is not empty), the
    directory is made anew: whether [main] then returns or raises (a
    command that cannot be spawned, a result file that cannot be
    opened), the directory holds nothing but results recorded by this
    run for steps of its manifest, and no result of an earlier run.
    When the run ends before that (failed port reset, no device, no
    manifest named, a manifest that cannot be read, a manifest without
    steps), [main] does not return 0 and the directory is as it was. *)
Theorem main_run_replaces_results (h : bb_run_sharded_steps.Host)
    (sys : Fallible.System) (options : bb_run_sharded_steps.Options)
    (w : bb_run_sharded_steps.World) :
  bb_run_sharded_steps.given
    (bb_run_sharded_steps.opt_print_results options) = None →
  bb_run_sharded_steps.given
    (bb_run_sharded_steps.opt_print_all options) = None →
  let flaky_steps :=
    match bb_run_sharded_steps.given
            (bb_run_sharded_steps.opt_flaky_steps options) with
    | Some flaky => bb_run_sharded_steps.json_list h flaky
    | None => []
    end in
  ∃ out w',
    Fallible.main h sys options w = (out, w')
    ∧ (bb_run_sharded_steps.ResetTestServerPortAllocation h = true →
       bb_run_sharded_steps.GetAttachedDevices h ≠ [] →
       ∀ path, bb_run_sharded_steps.opt_steps options = Some path →
         Fallible.load_error sys path = None →
         (∀ flaky,
            bb_run_sharded_steps.given
              (bb_run_sharded_steps.opt_flaky_steps options) = Some flaky →
            Fallible.load_error sys flaky = None) →
         bb_run_sharded_steps.json_dict h path ≠ [] →
         Fallible.only_results_of h
           (concat (bb_run_sharded_steps.all_params
                      (bb_run_sharded_steps.json_dict h path) flaky_steps
                      (Py.sorted (bb_run_sharded_steps.GetAttachedDevices h))))
           w')
    ∧ (bb_run_sharded_steps.ResetTestServerPortAllocation h = false
       ∨ bb_run_sharded_steps.GetAttachedDevices h = []
       ∨ bb_run_sharded_steps.opt_steps options = None
       ∨ (∃ path, bb_run_sharded_steps.opt_steps options = Some path
            ∧ (Fallible.load_error sys path ≠ None
               ∨ bb_run_sharded_steps.json_dict h path = []))
       ∨ (∃ flaky,
            bb_run_sharded_steps.given
              (bb_run_sharded_steps.opt_flaky_steps options) = Some flaky
            ∧ Fallible.load_error sys flaky ≠ None) →
       out ≠ Ok 0%Z
       ∧ bb_run_sharded_steps.store w' = bb_run_sharded_steps.store w).
Proof.
  intros Hp HP flaky_steps. unfold Fallible.main. rewrite Hp, HP.
  destruct (KillPendingServers_spec h w) as [t Hk].
  unfold bb_run_sharded_steps.bind at 1. rewrite Hk.
  destruct (bb_run_sharded_steps.ResetTestServerPortAllocation h)
    eqn:Hreset; cbn [negb].
  2:{ eexists _, _. split; [reflexivity|]. split; [discriminate|].
      intros _. by split. }
  destruct (Py.sorted (bb_run_sharded_steps.GetAttachedDevices h))
    as [|d ds] eqn:Hsorted.
  { eexists _, _. split; [reflexivity|]. split.
    - intros _ Hdev. by apply sorted_nil_inv in Hsorted.
    - intros _. by split. }
  assert (Hdev : bb_run_sharded_steps.GetAttachedDevices h ≠ []).
  { intros Hnil. by rewrite Hnil in Hsorted. }
  destruct (bb_run_sharded_steps.opt_steps options) as [path|] eqn:Hpath.
  2:{ eexists _, _. split; [reflexivity|]. split; [by intros _ _ path' [=]|].
      intros _. by split. }
  unfold bb_run_sharded_steps.bind at 1. unfold Fallible.load at 1.
  destruct (Fallible.load_error sys path) as [e|] eqn:Hload.
  { eexists _, _. split; [reflexivity|]. split.
    - intros _ _ path' [= <-] Hl. by rewrite Hl in Hload.
    - intros _. by split. }
  unfold bb_run_sharded_steps.ret at 1.
  unfold bb_run_sharded_steps.bind at 1. subst flaky_steps.
  assert (Hstarted : ∀ flaky_steps out w1 w',
    (∀ flaky,
       bb_run_sharded_steps.given
         (bb_run_sharded_steps.opt_flaky_steps options) = Some flaky →
       Fallible.load_error sys flaky = None) →
    Fallible._RunShardedSteps h sys (bb_run_sharded_steps.json_dict h path)
      flaky_steps (d :: ds) w1 = (out, w') →
    bb_run_sharded_steps.store w1 = bb_run_sharded_steps.store w →
    (bb_run_sharded_steps.json_dict h path ≠ [] →
     Fallible.only_results_of h
       (concat (bb_run_sharded_steps.all_params
                  (bb_run_sharded_steps.json_dict h path) flaky_steps
                  (d :: ds))) w')
    ∧ (true = false
       ∨ bb_run_sharded_steps.GetAttachedDevices h = []
       ∨ Some path = None
       ∨ (∃ path', Some path = Some path'
            ∧ (Fallible.load_error sys path' ≠ None
               ∨ bb_run_sharded_steps.json_dict h path' = []))
       ∨ (∃ flaky,
            bb_run_sharded_steps.given
              (bb_run_sharded_steps.opt_flaky_steps options) = Some flaky
            ∧ Fallible.load_error sys flaky ≠ None) →
       out ≠ Ok 0%Z
       ∧ bb_run_sharded_steps.store w' = bb_run_sharded_steps.store w)).
  { intros flaky_steps out w1 w' Hflaky Hrun Hw1. split.
    - intros Hsteps.
      pose proof (fallible_RunShardedSteps_only_results h sys
                    (bb_run_sharded_steps.json_dict h path) flaky_steps
                    (d :: ds) w1 Hsteps ltac:(discriminate)) as Hinv.
      by rewrite Hrun in Hinv.
    - intros [Hc|[Hc|[Hc|[(path' & [= <-] & [Hc|Hc])|(flaky & Hf & Hc)]]]];
        [discriminate|done|discriminate|done| |by apply Hflaky in Hf].
      rewrite Hc in Hrun. injection Hrun as <- <-. by split. }
  destruct (bb_run_sharded_steps.given
              (bb_run_sharded_steps.opt_flaky_steps options))
    as [flaky|] eqn:Hf.
  - unfold bb_run_sharded_steps.bind at 1. unfold Fallible.load at 1.
    destruct (Fallible.load_error sys flaky) as [e|] eqn:Hlf.
    + eexists _, _. split; [reflexivity|]. split.
      * intros _ _ path' _ _ Hflaky. specialize (Hflaky flaky eq_refl).
        by rewrite Hflaky in Hlf.
      * intros _. by split.
    + unfold bb_run_sharded_steps.ret.
      destruct (Fallible._RunShardedSteps h sys
                  (bb_run_sharded_steps.json_dict h path)
                  (bb_run_sharded_steps.json_list h flaky) (d :: ds) _)
        as [out w'] eqn:Hrun.
      exists out, w'. split; [reflexivity|].
      destruct (Hstarted _ out _ w'
                  ltac:(by intros flaky' [= <-]) Hrun eq_refl)
        as [Hinv Hnot].
      split; [|exact Hnot]. intros _ _ path' [= <-] _ _ Hsteps.
      by apply Hinv.
  - unfold bb_run_sharded_steps.ret.
    destruct (Fallible._RunShardedSteps h sys
                (bb_run_sharded_steps.json_dict h path) [] (d :: ds) _)
      as [out w'] eqn:Hrun.
    exists out, w'. split; [reflexivity|].
    destruct (Hstarted _ out _ w' ltac:(by intros flaky') Hrun eq_refl)
      as [Hinv Hnot].
    split; [|exact Hnot]. intros _ _ path' [= <-] _ _ Hsteps.
    by apply Hinv.
Qed.

Lemma main_run_replaces_results_witness :
  ∃ w',
    Fallible.main Scenario.bot Scenario.system
      (Scenario.run_options_for "nosuch.json") Scenario.stale
    = (Raise (Exception
                "The command was not found or was not executable: nosuch."),
       w')
    ∧ Fallible.only_results_of Scenario.bot
        (concat (bb_run_sharded_steps.all_params
                   [("foo", "run_foo"); ("nosuch", "nosuch")] []
                   ["emulator-5554"]))
        w'
    ∧ bb_run_sharded_steps.recorded w' "old" = None
    ∧ is_Some (bb_run_sharded_steps.recorded w' "foo").
Proof.
  destruct (main_run_replaces_results Scenario.bot Scenario.system
              (Scenario.run_options_for "nosuch.json") Scenario.stale
              eq_refl eq_refl)
    as (out & w' & Hrun & Hinv & _).
  specialize (Hinv eq_refl ltac:(discriminate) "nosuch.json" eq_refl eq_refl
                ltac:(discriminate) ltac:(discriminate)).
  exists w'.
  assert (Hout : out = Raise (Exception
                   "The command was not found or was not executable: nosuch.")).
  { pose proof (f_equal fst Hrun) as H. vm_compute in H. by symmetry. }
  subst out. split; [exact Hrun|]. split; [exact Hinv|].
  pose proof (f_equal
                (λ x, (bb_run_sharded_steps.recorded x.2 "old",
                       bb_run_sharded_steps.res_name
                         <$> bb_run_sharded_steps.recorded x.2 "foo"))
                Hrun) as H.
  cbn beta in H. cbn [snd] in H.
  destruct (bb_run_sharded_steps.recorded w' "old") as [r|];
    [vm_compute in H; discriminate|].
  destruct (bb_run_sharded_steps.recorded w' "foo") as [r|];
    [by split|vm_compute in H; discriminate].
Defined.



(** X12. Without the result directory, [_RunStepsPerDevice] still runs
    the command of its first step and prints its two lines, then fails
    in [_SaveResult] with the error of the file it could not open: no
    result is kept and the steps that follow are not run. *)
Theorem RunStepsPerDevice_without_directory (h : bb_run_sharded_steps.Host)
    (step : bb_run_sharded_steps.StepParams)
    (rest : list bb_run_sharded_steps.StepParams)
    (w : bb_run_sharded_steps.World) :
  bb_run_sharded_steps.store w = None →
  bb_run_sharded_steps._RunStepsPerDevice h (step :: rest) w
  = (Raise (IOError (bb_run_sharded_steps.path_join
                       (bb_run_sharded_steps._OUTPUT_DIR h)
                       (bb_run_sharded_steps.step_name step))),
     {| bb_run_sharded_steps.store := None;
        bb_run_sharded_steps.stdout :=
          bb_run_sharded_steps.stdout w
          ++ bb_run_sharded_steps.step_log h step
               (bb_run_sharded_steps.clock w);
        bb_run_sharded_steps.clock :=
          bb_run_sharded_steps.clock w
          + bb_run_sharded_steps.elapsed h
              (bb_run_sharded_steps.step_cmd step) |}).
Proof.
  intros Hst. unfold bb_run_sharded_steps._RunStepsPerDevice.
  cbn [bb_run_sharded_steps.run_steps_from].
  unfold bb_run_sharded_steps.bind at 1.
  by rewrite run_step_no_directory.
Qed.

Lemma RunStepsPerDevice_without_directory_witness :
  (bb_run_sharded_steps._RunStepsPerDevice Scenario.host
     [bb_run_sharded_steps.step_params [] "emulator-5554" ("foo", "run_foo");
      bb_run_sharded_steps.step_params [] "emulator-5554" ("bar", "run_bar")]
     Scenario.fresh).1
  = Raise (IOError "/b/build/src/out/step_results/foo").
Proof.
  rewrite (RunStepsPerDevice_without_directory Scenario.host
             (bb_run_sharded_steps.step_params [] "emulator-5554"
                ("foo", "run_foo"))
             [bb_run_sharded_steps.step_params [] "emulator-5554"
                ("bar", "run_bar")]
             Scenario.fresh eq_refl).
  reflexivity.
Defined.

(** X13. A run followed by the print of all the steps of the same
    manifest.  Take a manifest with at least one step (its names are
    distinct, as the keys of a dictionary are) whose steps the system
    lets run (command lines that can be spawned for the devices, result
    files that open under the names of the steps in the result
    directory).  [_RunShardedSteps] returns 0; [_PrintAllStepsOutput]
    then prints the output of every step, in the order of the manifest,
    and its status is the bitwise or of the statuses of the steps: 0 for
    a flaky step, the exit status of the command otherwise, 0 when the
    command reported none.  So the status is 0 exactly when every step
    is flaky or had a command that exited with 0 or without a status. *)
Theorem run_then_print_all (h : bb_run_sharded_steps.Host)
    (sys : Fallible.System)
    (steps_file : string) (flaky_steps devices : list string)
    (w : bb_run_sharded_steps.World) :
  let steps := bb_run_sharded_steps.json_dict h steps_file in
  let params :=
    concat (bb_run_sharded_steps.all_params steps flaky_steps devices) in
  let status_of (p : bb_run_sharded_steps.StepParams) : Z :=
    if bb_run_sharded_steps.step_is_flaky p then 0%Z
    else match (bb_run_sharded_steps.pexpect_run h
                  (bb_run_sharded_steps.step_cmd p)).2 with
         | Some code => code
         | None => 0%Z
         end in
  NoDup steps.*1 → steps ≠ [] → devices ≠ [] →
  Forall (Fallible.runnable h sys devices) steps →
  ∃ w' code w'',
    Fallible._RunShardedSteps h sys steps flaky_steps devices w
    = (Ok 0%Z, w')
    ∧ bb_run_sharded_steps._PrintAllStepsOutput h steps_file w'
      = (Ok code, w'')
    ∧ bb_run_sharded_steps.stdout w''
      = bb_run_sharded_steps.stdout w'
        ++ ((λ p, (bb_run_sharded_steps.pexpect_run h
                     (bb_run_sharded_steps.step_cmd p)).1) <$> params)
    ∧ code = foldl Z.lor 0%Z (status_of <$> params)
    ∧ (code = 0%Z ↔
       ∀ p, p ∈ params →
         bb_run_sharded_steps.step_is_flaky p = true
         ∨ (bb_run_sharded_steps.pexpect_run h
              (bb_run_sharded_steps.step_cmd p)).2 = None
         ∨ (bb_run_sharded_steps.pexpect_run h
              (bb_run_sharded_steps.step_cmd p)).2 = Some 0%Z).
Proof.
  intros steps params status_of Hnd Hs Hd Hruns.
  eexists _, _, _. split; [by apply fallible_RunShardedSteps_spec|].
  unfold bb_run_sharded_steps._PrintAllStepsOutput. fold steps params.
  rewrite print_steps_from_spec. split; [reflexivity|].
  cbn [bb_run_sharded_steps.stdout].
  assert (Hnames : bb_run_sharded_steps.step_name <$> params = steps.*1)
    by (by apply all_params_names).
  rewrite <- Hnames.
  destruct (printed_after_sharding h params w) as [Hcodes Hlines];
    [by rewrite Hnames|].
  rewrite Hcodes, Hlines. split; [reflexivity|].
  assert (Hstatus : bb_run_sharded_steps.res_exit_code
                    ∘ bb_run_sharded_steps.result_of h <$> params
                    = status_of <$> params).
  { apply list_fmap_ext. intros _ p _. cbn [compose].
    rewrite result_of_exit_code. unfold status_of.
    destruct (bb_run_sharded_steps.step_is_flaky p); [done|].
    by destruct (bb_run_sharded_steps.pexpect_run h _).2. }
  rewrite Hstatus. split; [reflexivity|].
  rewrite foldl_lor_zero, Forall_fmap, Forall_forall.
  split.
  - intros [_ Hall] p Hp. specialize (Hall p Hp). cbn in Hall.
    unfold status_of in Hall.
    destruct (bb_run_sharded_steps.step_is_flaky p); [by left|right].
    destruct (bb_run_sharded_steps.pexpect_run h _).2 as [code|];
      [right; by subst|by left].
  - intros Hall. split; [done|]. intros p Hp. cbn. unfold status_of.
    destruct (Hall p Hp) as [-> | [-> | ->]]; [done| |];
      by destruct (bb_run_sharded_steps.step_is_flaky p).
Qed.

Lemma run_then_print_all_witness :
  ∃ w' w'',
    Fallible._RunShardedSteps Scenario.host Scenario.system
      (bb_run_sharded_steps.json_dict Scenario.host "steps.json")
      ["bar"] ["emulator-5554"] Scenario.stale
    = (Ok 0%Z, w')
    ∧ bb_run_sharded_steps._PrintAllStepsOutput Scenario.host "steps.json" w'
      = (Ok 1%Z, w'')
    ∧ bb_run_sharded_steps.stdout w''
      = bb_run_sharded_steps.stdout w' ++ ["FAILED foo"; "Killed"].
Proof.
  destruct (run_then_print_all Scenario.host Scenario.system "steps.json"
              ["bar"] ["emulator-5554"] Scenario.stale)
    as (w' & code & w'' & Hrun & Hprint & Hout & Hcode & _).
  - apply (bool_decide_unpack _). vm_compute. exact I.
  - discriminate.
  - discriminate.
  - repeat constructor; intros device _; reflexivity.
  - exists w', w''. split; [exact Hrun|]. split; [|exact Hout].
    rewrite Hprint. by rewrite Hcode.
Defined.

(** *** More on the device pool *)

Lemma filter_all {A} (P : A → Prop) `{!∀ x, Decision (P x)} (l : list A) :
  (∀ x, x ∈ l → P x) → filter P l = l.
Proof.
  induction l as [|x l IH]; intros Hall; [done|].
  rewrite filter_cons_True by (apply Hall, list_elem_of_here).
  f_equal. apply IH. intros y Hy. by apply Hall, list_elem_of_further.
Qed.

Lemma filter_none {A} (P : A → Prop) `{!∀ x, Decision (P x)} (l : list A) :
  (∀ x, x ∈ l → ¬ P x) → filter P l = [].
Proof.
  induction l as [|x l IH]; intros Hall; [done|].
  rewrite filter_cons_False by (apply Hall, list_elem_of_here).
  apply IH. intros y Hy. by apply Hall, list_elem_of_further.
Qed.

Section PoolMore.
Import LocalDeviceEnvironment.

Lemma blacklist_devices (env : Env) (bl : Blacklist) (failed : list Device)
    (reason : string) :
  _blacklist env = Some bl →
  _devices (do_calls env ((λ d, CallBlacklistDevice d reason) <$> failed))
  = filter (λ d, GetDeviceSerial d ∉ GetDeviceSerial <$> failed) (_devices env)
  ∧ _blacklist (do_calls env ((λ d, CallBlacklistDevice d reason) <$> failed))
    = Some (bl ++ ((λ d, (GetDeviceSerial d, reason)) <$> failed)).
Proof.
  revert env bl. induction failed as [|d failed IH]; intros env bl Hbl.
  - cbn. split; [|by rewrite app_nil_r].
    symmetry. apply filter_all. intros d _. apply not_elem_of_nil.
  - rewrite fmap_cons. unfold do_calls. cbn [foldl do_call].
    fold (do_calls (BlacklistDevice env d reason)
            ((λ d, CallBlacklistDevice d reason) <$> failed)).
    destruct (IH (BlacklistDevice env d reason)
                (Extend bl [GetDeviceSerial d] reason)) as [Hdev Hblk].
    { unfold BlacklistDevice. by rewrite Hbl. }
    rewrite Hdev, Hblk. unfold BlacklistDevice at 1. rewrite Hbl.
    cbn [_devices]. split.
    + rewrite list_filter_filter. apply list_filter_iff. intros d'.
      unfold str_of_device. rewrite fmap_cons, not_elem_of_cons. tauto.
    + unfold Extend. rewrite fmap_cons, <- app_assoc. reflexivity.
Qed.

Lemma no_blacklist_calls (env : Env) (failed : list Device) (reason : string) :
  _blacklist env = None →
  _devices (do_calls env ((λ d, CallBlacklistDevice d reason) <$> failed))
  = _devices env
  ∧ _blacklist (do_calls env ((λ d, CallBlacklistDevice d reason) <$> failed))
    = None
  ∧ warnings (do_calls env ((λ d, CallBlacklistDevice d reason) <$> failed))
    = warnings env
      ++ ((λ d, "Attempted to blacklist " +:+ GetDeviceSerial d
                +:+ ", but no blacklist was provided.") <$> failed).
Proof.
  revert env. induction failed as [|d failed IH]; intros env Hbl.
  - cbn. by rewrite app_nil_r.
  - rewrite !fmap_cons. unfold do_calls. cbn [foldl do_call].
    fold (do_calls (BlacklistDevice env d reason)
            ((λ d, CallBlacklistDevice d reason) <$> failed)).
    destruct (IH (BlacklistDevice env d reason)) as (Hdev & Hblk & Hwarn).
    { unfold BlacklistDevice. by rewrite Hbl. }
    rewrite Hdev, Hblk, Hwarn. unfold BlacklistDevice. rewrite Hbl.
    cbn [_devices warnings]. by rewrite <- app_assoc.
Qed.

End PoolMore.

(** X14. With a blacklist configured, blacklisting a list of failed
    devices leaves in the live set the devices of the other serials,
    and appends one entry per failed device to the blacklist.  When the
    failed devices cover the live set, nothing is left: the [devices]
    property raises [NoDevicesError], and so does [_CreateShards], for
    any tests. *)
Theorem blacklist_failed_devices (env : LocalDeviceEnvironment.Env)
    (bl : LocalDeviceEnvironment.Blacklist) (failed : list Device)
    (reason : string) :
  LocalDeviceEnvironment._blacklist env = Some bl →
  let env' :=
    LocalDeviceEnvironment.do_calls env
      ((λ d, LocalDeviceEnvironment.CallBlacklistDevice d reason) <$> failed) in
  LocalDeviceEnvironment._devices env'
  = filter (λ d, GetDeviceSerial d ∉ GetDeviceSerial <$> failed)
           (LocalDeviceEnvironment._devices env)
  ∧ LocalDeviceEnvironment._blacklist env'
    = Some (bl ++ ((λ d, (GetDeviceSerial d, reason)) <$> failed))
  ∧ ((∀ d, d ∈ LocalDeviceEnvironment._devices env → d ∈ failed) →
     LocalDeviceEnvironment._devices env' = []
     ∧ LocalDeviceEnvironment.devices env' = Raise NoDevicesError
     ∧ ∀ tests : list string,
         LocalDeviceGtestRun._CreateShards
           (LocalDeviceEnvironment._devices env') tests
         = Raise NoDevicesError).
Proof.
  intros Hbl env'. subst env'.
  destruct (blacklist_devices env bl failed reason Hbl) as [Hdev Hblk].
  split; [exact Hdev|]. split; [exact Hblk|]. intros Hall.
  assert (Hnil : LocalDeviceEnvironment._devices
                   (LocalDeviceEnvironment.do_calls env
                      ((λ d, LocalDeviceEnvironment.CallBlacklistDevice d reason)
                       <$> failed)) = []).
  { rewrite Hdev. apply filter_none. intros d Hd Hnot.
    apply Hnot. by apply list_elem_of_fmap_2, Hall. }
  split; [exact Hnil|]. unfold LocalDeviceEnvironment.devices,
    LocalDeviceGtestRun._CreateShards. by rewrite Hnil.
Qed.

Lemma blacklist_failed_devices_witness :
  LocalDeviceEnvironment._devices
    (LocalDeviceEnvironment.do_calls Scenario.env
       ((λ d, LocalDeviceEnvironment.CallBlacklistDevice d "failed")
        <$> [Scenario.device_b; Scenario.device_a])) = []
  ∧ LocalDeviceEnvironment.devices
      (LocalDeviceEnvironment.do_calls Scenario.env
         ((λ d, LocalDeviceEnvironment.CallBlacklistDevice d "failed")
          <$> [Scenario.device_b; Scenario.device_a]))
    = Raise NoDevicesError
  ∧ ∀ tests : list string,
      LocalDeviceGtestRun._CreateShards
        (LocalDeviceEnvironment._devices
           (LocalDeviceEnvironment.do_calls Scenario.env
              ((λ d, LocalDeviceEnvironment.CallBlacklistDevice d "failed")
               <$> [Scenario.device_b; Scenario.device_a]))) tests
      = Raise NoDevicesError.
Proof.
  apply (blacklist_failed_devices Scenario.env []
           [Scenario.device_b; Scenario.device_a] "failed" eq_refl).
  intros d Hd. apply elem_of_cons in Hd as [->|Hd].
  - apply list_elem_of_further, list_elem_of_here.
  - apply elem_of_cons in Hd as [->|Hd]; [apply list_elem_of_here|].
    exfalso. exact (proj1 (elem_of_nil d) Hd).
Defined.

(** X15. Without a blacklist file, [BlacklistDevice] only warns: after
    any number of calls the live set is what it was (a failed device
    stays selected), there is still no blacklist, and one warning per
    call was logged. *)
Theorem BlacklistDevice_without_blacklist (env : LocalDeviceEnvironment.Env)
    (failed : list Device) (reason : string) :
  LocalDeviceEnvironment._blacklist env = None →
  let env' :=
    LocalDeviceEnvironment.do_calls env
      ((λ d, LocalDeviceEnvironment.CallBlacklistDevice d reason) <$> failed) in
  LocalDeviceEnvironment._devices env' = LocalDeviceEnvironment._devices env
  ∧ LocalDeviceEnvironment._blacklist env' = None
  ∧ LocalDeviceEnvironment.warnings env'
    = LocalDeviceEnvironment.warnings env
      ++ ((λ d, "Attempted to blacklist " +:+ GetDeviceSerial d
                +:+ ", but no blacklist was provided.") <$> failed).
Proof. intros Hbl env'. by apply no_blacklist_calls. Qed.

Lemma BlacklistDevice_without_blacklist_witness :
  LocalDeviceEnvironment._devices
    (LocalDeviceEnvironment.do_calls
       (LocalDeviceEnvironment.SetUp (LocalDeviceEnvironment.init None None)
          [Scenario.device_a; Scenario.device_b]).2
       ((λ d, LocalDeviceEnvironment.CallBlacklistDevice d "failed")
        <$> [Scenario.device_a]))
  = [Scenario.device_a; Scenario.device_b].
Proof.
  apply (BlacklistDevice_without_blacklist
           (LocalDeviceEnvironment.SetUp (LocalDeviceEnvironment.init None None)
              [Scenario.device_a; Scenario.device_b]).2
           [Scenario.device_a] "failed" eq_refl).
Defined.

(** *** The device caches *)

Lemma length_append (a b : string) :
  String.length (a +:+ b) = String.length a + String.length b.
Proof.
  induction a as [|x a IH]; [done|].
  change (String x a +:+ b) with (String x (a +:+ b)). simpl. by rewrite IH.
Qed.

Lemma append_inj_r (a b c : string) : a +:+ c = b +:+ c → a = b.
Proof.
  revert b. induction a as [|x a IH]; intros [|y b] H.
  - done.
  - apply (f_equal String.length) in H.
    change (String.length c = S (String.length (b +:+ c))) in H.
    rewrite length_append in H. lia.
  - apply (f_equal String.length) in H.
    change (S (String.length (a +:+ c)) = String.length c) in H.
    rewrite length_append in H. lia.
  - change (String x a +:+ c) with (String x (a +:+ c)) in H.
    change (String y b +:+ c) with (String y (b +:+ c)) in H.
    injection H as -> H. f_equal. by apply IH.
Qed.

Section CacheFacts.
Import DeviceCache.
Context {Cache : Type}.
Variable DumpCacheData : Cache → string.
Variable LoadCacheData : string → Cache → Cache.
Variable GetOutDirectory : string.

#[local] Abbreviation cache_path := (_DeviceCachePath GetOutDirectory).
#[local] Abbreviation write := (write_cache DumpCacheData GetOutDirectory).
#[local] Abbreviation load := (load_cache LoadCacheData GetOutDirectory).

(** Devices of different serials have different cache files. *)
Lemma DeviceCachePath_inj (d d' : Device) :
  cache_path d = cache_path d' → GetDeviceSerial d = GetDeviceSerial d'.
Proof.
  unfold _DeviceCachePath, bb_run_sharded_steps.path_join.
  change (String.prefix "/" ("device_cache_" +:+ GetDeviceSerial d +:+ ".json"))
    with false.
  change (String.prefix "/" ("device_cache_" +:+ GetDeviceSerial d' +:+ ".json"))
    with false.
  cbv iota. intros H.
  assert (Hname : "device_cache_" +:+ GetDeviceSerial d +:+ ".json"
                  = "device_cache_" +:+ GetDeviceSerial d' +:+ ".json").
  { destruct (bb_run_sharded_steps.last_char GetOutDirectory) as [c|];
      [|done].
    destruct (Ascii.eqb c "/").
    - by apply String.app_inj in H.
    - apply String.app_inj in H. by apply String.app_inj in H. }
  apply String.app_inj in Hname. by apply append_inj_r in Hname.
Qed.

Lemma write_caches_spec (ds : list Device) (w : World) :
  caches (foldl write w ds) = caches w
  ∧ (∀ d, d ∈ ds →
       files (foldl write w ds) !! cache_path d
       = Some (DumpCacheData (caches w (GetDeviceSerial d))))
  ∧ (∀ path, path ∉ cache_path <$> ds →
       files (foldl write w ds) !! path = files w !! path).
Proof.
  revert w. induction ds as [|d0 ds IH]; intros w.
  - split; [done|]. split; [|done]. intros d Hd.
    exfalso. exact (proj1 (elem_of_nil d) Hd).
  - cbn [foldl]. destruct (IH (write w d0)) as (Hc & Hin & Hout).
    split; [by rewrite Hc|]. split.
    + intros d Hd.
      destruct (decide (cache_path d ∈ cache_path <$> ds)) as [Hds|Hnot].
      * apply list_elem_of_fmap in Hds as (d' & Hpath & Hd').
        rewrite Hpath, (Hin d' Hd'). cbn [caches write_cache].
        by rewrite (DeviceCachePath_inj _ _ Hpath).
      * rewrite (Hout _ Hnot). cbn [files write_cache].
        apply elem_of_cons in Hd as [->|Hd].
        -- apply lookup_insert_eq.
        -- exfalso. apply Hnot. by apply list_elem_of_fmap_2.
    + intros path Hpath. rewrite fmap_cons in Hpath.
      apply not_elem_of_cons in Hpath as [Hne Hpath].
      rewrite (Hout _ Hpath). cbn [files write_cache].
      by rewrite lookup_insert_ne.
Qed.

Lemma load_caches_spec (ds : list Device) (w : World) :
  NoDup (GetDeviceSerial <$> ds) →
  (∀ d, d ∈ ds →
     files (foldl load w ds) !! cache_path d = None
     ∧ caches (foldl load w ds) (GetDeviceSerial d)
       = match files w !! cache_path d with
         | Some data => LoadCacheData data (caches w (GetDeviceSerial d))
         | None => caches w (GetDeviceSerial d)
         end)
  ∧ (∀ path, path ∉ cache_path <$> ds →
       files (foldl load w ds) !! path = files w !! path)
  ∧ (∀ serial, serial ∉ GetDeviceSerial <$> ds →
       caches (foldl load w ds) serial = caches w serial).
Proof.
  revert w. induction ds as [|d0 ds IH]; intros w Hnd.
  - split; [|done]. intros d Hd. exfalso. exact (proj1 (elem_of_nil d) Hd).
  - rewrite fmap_cons in Hnd. apply NoDup_cons in Hnd as [Hfresh Hnd].
    cbn [foldl]. destruct (IH (load w d0) Hnd) as (Hin & Hfiles & Hcaches).
    assert (Hpath0 : cache_path d0 ∉ cache_path <$> ds).
    { intros H. apply list_elem_of_fmap in H as (d' & Hp & Hd').
      apply Hfresh. rewrite (DeviceCachePath_inj _ _ Hp).
      by apply list_elem_of_fmap_2. }
    assert (Hload_files : ∀ path,
      files (load w d0) !! path
      = if decide (path = cache_path d0) then None else files w !! path).
    { intros path. unfold load_cache.
      destruct (files w !! cache_path d0) as [data|] eqn:Hd0;
        cbn [files]; case_decide as Hp; subst.
      - apply lookup_delete_eq.
      - by rewrite lookup_delete_ne.
      - done.
      - done. }
    assert (Hload_caches : ∀ serial, serial ≠ GetDeviceSerial d0 →
      caches (load w d0) serial = caches w serial).
    { intros serial Hne. unfold load_cache.
      destruct (files w !! cache_path d0); cbn [caches]; [|done].
      by rewrite decide_False. }
    split; [|split].
    + intros d Hd. apply elem_of_cons in Hd as [->|Hd].
      * rewrite (Hfiles _ Hpath0), (Hcaches _ Hfresh), Hload_files.
        rewrite decide_True by done. split; [done|].
        unfold load_cache. destruct (files w !! cache_path d0);
          cbn [caches]; [|done]. by rewrite decide_True.
      * destruct (Hin d Hd) as [Hnone Hc]. split; [done|].
        rewrite Hc. rewrite Hload_files.
        assert (Hne : GetDeviceSerial d ≠ GetDeviceSerial d0).
        { intros Heq. apply Hfresh. rewrite <- Heq.
          by apply list_elem_of_fmap_2. }
        rewrite decide_False by (intros Hp; by apply DeviceCachePath_inj in Hp).
        by rewrite Hload_caches.
    + intros path Hpath. rewrite fmap_cons in Hpath.
      apply not_elem_of_cons in Hpath as [Hne Hpath].
      rewrite (Hfiles _ Hpath), Hload_files. by rewrite decide_False.
    + intros serial Hserial. rewrite fmap_cons in Hserial.
      apply not_elem_of_cons in Hserial as [Hne Hserial].
      rewrite (Hcaches _ Hserial). by apply Hload_caches.
Qed.

End CacheFacts.

(** X16. [TearDown] writes, for every live device, the dumped cache of
    the device into the cache file of its serial, and nothing else:
    the caches of the devices and all the other files are as before. *)
Theorem TearDown_writes_caches {Cache : Type}
    (DumpCacheData : Cache → string) (GetOutDirectory : string)
    (env : LocalDeviceEnvironment.Env) (w : @DeviceCache.World Cache) :
  let w' := DeviceCache.TearDown DumpCacheData GetOutDirectory env w in
  DeviceCache.caches w' = DeviceCache.caches w
  ∧ (∀ d, d ∈ LocalDeviceEnvironment._devices env →
       DeviceCache.files w' !! DeviceCache._DeviceCachePath GetOutDirectory d
       = Some (DumpCacheData (DeviceCache.caches w (GetDeviceSerial d))))
  ∧ (∀ path,
       path ∉ DeviceCache._DeviceCachePath GetOutDirectory
              <$> LocalDeviceEnvironment._devices env →
       DeviceCache.files w' !! path = DeviceCache.files w !! path).
Proof. intros w'. apply write_caches_spec. Qed.

(** X17. The caches make a round trip: when [SetUp] with the device
    cache enabled succeeds on what [TearDown] left, on a live set of
    distinct serials, then every live device has its cache file removed,
    every live device that was live at [TearDown] has loaded what was
    dumped for it, and loading the caches once more changes nothing (a
    cache file is used once). *)
Theorem cache_round_trip {Cache : Type}
    (DumpCacheData : Cache → string) (LoadCacheData : string → Cache → Cache)
    (GetOutDirectory : string)
    (env0 env env' : LocalDeviceEnvironment.Env) (fleet : list Device)
    (w w'' : @DeviceCache.World Cache) :
  DeviceCache.SetUp LoadCacheData GetOutDirectory env fleet true
    (DeviceCache.TearDown DumpCacheData GetOutDirectory env0 w)
  = (Ok (), env', w'') →
  NoDup (GetDeviceSerial <$> LocalDeviceEnvironment._devices env') →
  (∀ d, d ∈ LocalDeviceEnvironment._devices env' →
     DeviceCache.files w'' !! DeviceCache._DeviceCachePath GetOutDirectory d
     = None
     ∧ (GetDeviceSerial d
        ∈ GetDeviceSerial <$> LocalDeviceEnvironment._devices env0 →
        DeviceCache.caches w'' (GetDeviceSerial d)
        = LoadCacheData
            (DumpCacheData (DeviceCache.caches w (GetDeviceSerial d)))
            (DeviceCache.caches w (GetDeviceSerial d))))
  ∧ DeviceCache.load_caches LoadCacheData GetOutDirectory true
      (LocalDeviceEnvironment._devices env') w'' = w''.
Proof.
  unfold DeviceCache.SetUp, DeviceCache.TearDown, DeviceCache.load_caches.
  destruct (LocalDeviceEnvironment.SetUp env fleet) as [[[]|e] env1];
    [|discriminate].
  intros [= <- <-] Hnd.
  set (w1 := foldl (DeviceCache.write_cache DumpCacheData GetOutDirectory) w
               (LocalDeviceEnvironment._devices env0)).
  destruct (write_caches_spec DumpCacheData GetOutDirectory
              (LocalDeviceEnvironment._devices env0) w)
    as (Hc1 & Hin1 & _). fold w1 in Hc1, Hin1.
  destruct (load_caches_spec LoadCacheData GetOutDirectory
              (LocalDeviceEnvironment._devices env1) w1 Hnd)
    as (Hin & _ & _).
  set (w2 := foldl (DeviceCache.load_cache LoadCacheData GetOutDirectory) w1
               (LocalDeviceEnvironment._devices env1)) in *.
  split.
  - intros d Hd. destruct (Hin d Hd) as [Hnone Hcache].
    split; [done|]. intros Hlive.
    apply list_elem_of_fmap in Hlive as (d0 & Hserial & Hd0).
    rewrite Hcache.
    assert (Hpath : DeviceCache._DeviceCachePath GetOutDirectory d
                    = DeviceCache._DeviceCachePath GetOutDirectory d0).
    { unfold DeviceCache._DeviceCachePath. by rewrite Hserial. }
    rewrite Hpath, (Hin1 d0 Hd0), Hc1. by rewrite Hserial.
  - assert (Hfix : ∀ ds,
      (∀ d, d ∈ ds →
         DeviceCache.files w2
           !! DeviceCache._DeviceCachePath GetOutDirectory d = None) →
      foldl (DeviceCache.load_cache LoadCacheData GetOutDirectory) w2 ds = w2).
    { induction ds as [|d ds IH]; intros Hnone; [done|].
      cbn [foldl]. unfold DeviceCache.load_cache at 2.
      rewrite (Hnone d (list_elem_of_here _ _)).
      apply IH. intros d' Hd'. by apply Hnone, list_elem_of_further. }
    apply Hfix. intros d Hd. by apply Hin.
Qed.

Lemma cache_round_trip_witness :
  let w1 := DeviceCache.TearDown Scenario2.dump Scenario2.out_directory
              Scenario.env Scenario2.world in
  let out := DeviceCache.SetUp Scenario2.load Scenario2.out_directory
               (LocalDeviceEnvironment.init None None)
               [Scenario.device_a; Scenario.device_b] true w1 in
  (∀ d, d ∈ LocalDeviceEnvironment._devices out.1.2 →
     DeviceCache.files out.2
       !! DeviceCache._DeviceCachePath Scenario2.out_directory d
     = None
     ∧ (GetDeviceSerial d
        ∈ GetDeviceSerial <$> LocalDeviceEnvironment._devices Scenario.env →
        DeviceCache.caches out.2 (GetDeviceSerial d)
        = Scenario2.load
            (Scenario2.dump (DeviceCache.caches Scenario2.world
                               (GetDeviceSerial d)))
            (DeviceCache.caches Scenario2.world (GetDeviceSerial d))))
  ∧ DeviceCache.load_caches Scenario2.load Scenario2.out_directory true
      (LocalDeviceEnvironment._devices out.1.2) out.2 = out.2.
Proof.
  intros w1 out.
  apply (cache_round_trip Scenario2.dump Scenario2.load
           Scenario2.out_directory Scenario.env
           (LocalDeviceEnvironment.init None None) out.1.2
           [Scenario.device_a; Scenario.device_b] Scenario2.world out.2).
  - reflexivity.
  - apply (bool_decide_unpack _). vm_compute. exact I.
Defined.

(** *** Pulled files *)

Section PullFacts.
Import PullAppFiles.
Variable device_path : string → string.
Variable host_split : string → string * string.
Variable PullFile :
  string → string → gmap string string → result unit * gmap string string.
Implicit Types (host : gmap string string) (base ext : string).

Lemma host_file_name_inj base ext (i j : nat) :
  host_file_name base ext i = host_file_name base ext j → i = j.
Proof.
  unfold host_file_name. intros H.
  apply String.app_inj in H. apply String.app_inj in H.
  apply append_inj_r in H. by apply pretty_nat_inj in H.
Qed.

Lemma first_free_found host base ext (tries i j : nat) :
  i ≤ j → j < i + tries → host !! host_file_name base ext j = None →
  ∃ k, first_free host base ext tries i = Some (host_file_name base ext k)
       ∧ i ≤ k ∧ k ≤ j
       ∧ host !! host_file_name base ext k = None
       ∧ ∀ m, i ≤ m → m < k → is_Some (host !! host_file_name base ext m).
Proof.
  revert i. induction tries as [|tries IH]; intros i Hij Hj Hfree; [lia|].
  cbn [first_free].
  destruct (host !! host_file_name base ext i) as [content|] eqn:Hi.
  - assert (Hne : i ≠ j) by (intros ->; congruence).
    destruct (IH (S i)) as (k & Hk & Hik & Hkj & Hnone & Hbelow);
      [lia|lia|done|].
    exists k. split; [done|]. split; [lia|]. split; [done|]. split; [done|].
    intros m Him Hmk. destruct (decide (m = i)) as [->|Hmi].
    + by rewrite Hi.
    + apply Hbelow; lia.
  - exists i. split; [done|]. split; [lia|]. split; [lia|]. split; [done|].
    intros m Him Hmi. lia.
Qed.

(** Among one name more than there are files, one name is free. *)
Lemma free_name_exists host base ext :
  ∃ j, j < S (size host) ∧ host !! host_file_name base ext j = None.
Proof.
  set (names := host_file_name base ext <$> seq 0 (S (size host))).
  destruct (decide (Forall (λ name, is_Some (host !! name)) names))
    as [Hall|Hsome].
  - exfalso.
    assert (Hsub : (list_to_set names : gset string) ⊆ dom host).
    { intros name Hname. apply elem_of_list_to_set in Hname.
      rewrite Forall_forall in Hall. by apply elem_of_dom, Hall. }
    apply subseteq_size in Hsub.
    rewrite size_dom, size_list_to_set in Hsub.
    + unfold names in Hsub. rewrite length_fmap, length_seq in Hsub. lia.
    + apply NoDup_fmap_2; [|apply NoDup_seq].
      intros i j. apply host_file_name_inj.
  - apply not_Forall_Exists in Hsome; [|apply _].
    apply Exists_exists in Hsome as (name & Hname & Hfree).
    apply list_elem_of_fmap in Hname as (j & -> & Hj).
    apply elem_of_seq in Hj. exists j. split; [lia|].
    destruct (host !! host_file_name base ext j) eqn:E; [|done].
    exfalso. apply Hfree. by eexists.
Qed.

Lemma first_free_least host base ext (tries : nat) :
  S (size host) ≤ tries →
  ∃ i, first_free host base ext tries 0 = Some (host_file_name base ext i)
       ∧ i ≤ size host
       ∧ host !! host_file_name base ext i = None
       ∧ ∀ j, j < i → is_Some (host !! host_file_name base ext j).
Proof.
  intros Htries. destruct (free_name_exists host base ext) as (j & Hj & Hfree).
  destruct (first_free_found host base ext tries 0 j)
    as (k & Hk & _ & Hkj & Hnone & Hbelow); [lia|lia|done|].
  exists k. split; [done|]. split; [lia|]. split; [done|].
  intros m Hm. apply Hbelow; lia.
Qed.

Lemma PullAppFilesImpl_spec (files : list string) host :
  (∀ device_file host_file host0,
     host0 !! host_file = None →
     host0 ⊆ (PullFile device_file host_file host0).2) →
  host ⊆ (PullAppFilesImpl device_path host_split PullFile files host).2
  ∧ ((PullAppFilesImpl device_path host_split PullFile files host).1 = Ok ()
     ∨ ∃ f host_file host0,
         f ∈ files ∧ host ⊆ host0 ∧ host0 !! host_file = None
         ∧ (PullAppFilesImpl device_path host_split PullFile files host).1
           = (PullFile (device_path f) host_file host0).1
         ∧ (PullFile (device_path f) host_file host0).1 ≠ Ok ()).
Proof.
  intros Hpull. revert host. induction files as [|f files IH]; intros host.
  - cbn. split; [done|by left].
  - cbn [PullAppFilesImpl].
    destruct (first_free_least host (host_split f).1 (host_split f).2
                (S (size host)) ltac:(lia)) as (i & -> & _ & Hfree & _).
    pose proof (Hpull (device_path f)
                  (host_file_name (host_split f).1 (host_split f).2 i)
                  host Hfree) as Hkeep.
    destruct (PullFile (device_path f)
                (host_file_name (host_split f).1 (host_split f).2 i) host)
      as [[[]|e] host'] eqn:Hp; cbn [fst snd] in *.
    + destruct (IH host') as [Hsub Hout]. split; [by etrans|].
      destruct Hout as [Hok|(f' & hf & host0 & Hf' & Hsub0 & Hnone & Heq & Hne)];
        [by left|].
      right. exists f', hf, host0. split; [by apply list_elem_of_further|].
      split; [by etrans|]. done.
    + split; [done|]. right.
      exists f, (host_file_name (host_split f).1 (host_split f).2 i), host.
      split; [apply list_elem_of_here|]. split; [done|]. split; [done|].
      rewrite Hp. cbn [fst]. by split.
Qed.

End PullFacts.

(** X18. The search of a free name for a pulled file always ends, within
    one try more than there are files on the host, and a bound on the
    tries beyond that does not change its outcome: the name found is the
    one of the smallest index that no file of the host bears, so a
    pulled file never takes the name of an existing file. *)
Theorem first_free_smallest_index (host : gmap string string)
    (host_file_base ext : string) (tries : nat) :
  S (size host) ≤ tries →
  ∃ i,
    PullAppFiles.first_free host host_file_base ext tries 0
    = Some (PullAppFiles.host_file_name host_file_base ext i)
    ∧ PullAppFiles.first_free host host_file_base ext (S (size host)) 0
      = Some (PullAppFiles.host_file_name host_file_base ext i)
    ∧ i ≤ size host
    ∧ host !! PullAppFiles.host_file_name host_file_base ext i = None
    ∧ ∀ j, j < i →
        is_Some (host !! PullAppFiles.host_file_name host_file_base ext j).
Proof.
  intros Htries.
  destruct (first_free_least host host_file_base ext tries Htries)
    as (i & Hi & Hle & Hnone & Hbelow).
  destruct (first_free_least host host_file_base ext (S (size host))
              ltac:(lia)) as (i' & Hi' & _ & Hnone' & Hbelow').
  assert (i' = i) as ->.
  { destruct (Nat.lt_trichotomy i' i) as [Hlt|[Heq|Hgt]]; [|done|].
    - destruct (Hbelow i' Hlt) as [c Hc]. congruence.
    - destruct (Hbelow' i Hgt) as [c Hc]. congruence. }
  by exists i.
Qed.

Lemma first_free_smallest_index_witness :
  ∃ i,
    PullAppFiles.first_free Scenario2.host_files
      "/tmp/pulled/emulator-5554/trace" "" 5 0
    = Some (PullAppFiles.host_file_name "/tmp/pulled/emulator-5554/trace" "" i)
    ∧ PullAppFiles.first_free Scenario2.host_files
        "/tmp/pulled/emulator-5554/trace" "" (S (size Scenario2.host_files)) 0
      = Some (PullAppFiles.host_file_name
                "/tmp/pulled/emulator-5554/trace" "" i)
    ∧ i ≤ size Scenario2.host_files
    ∧ Scenario2.host_files
        !! PullAppFiles.host_file_name "/tmp/pulled/emulator-5554/trace" "" i
      = None
    ∧ ∀ j, j < i →
        is_Some (Scenario2.host_files
                   !! PullAppFiles.host_file_name
                        "/tmp/pulled/emulator-5554/trace" "" j).
Proof.
  apply (first_free_smallest_index Scenario2.host_files
           "/tmp/pulled/emulator-5554/trace" "" 5).
  vm_compute. lia.
Defined.

(** X19. [PullAppFilesImpl] never overwrites a file of the host.  As
    long as [PullFile] to a path that is free keeps the files that the
    host has, the files that were there are there afterwards, with
    their content, whether the pulling succeeds or not; the search of
    a name never fails, so [PullAppFilesImpl] succeeds unless one
    [PullFile], called on a free path, raises. *)
Theorem PullAppFilesImpl_keeps_host_files
    (device_path : string → string) (host_split : string → string * string)
    (PullFile : string → string → gmap string string
                → result unit * gmap string string)
    (files : list string) (host : gmap string string) :
  (∀ device_file host_file host0,
     host0 !! host_file = None →
     host0 ⊆ (PullFile device_file host_file host0).2) →
  let out :=
    PullAppFiles.PullAppFilesImpl device_path host_split PullFile files host in
  (∀ path content, host !! path = Some content →
     out.2 !! path = Some content)
  ∧ (out.1 = Ok ()
     ∨ ∃ f host_file host0,
         f ∈ files ∧ host ⊆ host0 ∧ host0 !! host_file = None
         ∧ out.1 = (PullFile (device_path f) host_file host0).1
         ∧ (PullFile (device_path f) host_file host0).1 ≠ Ok ()).
Proof.
  intros Hpull out. subst out.
  destruct (PullAppFilesImpl_spec device_path host_split PullFile files host
              Hpull) as [Hsub Hout].
  split; [|exact Hout].
  intros path content Hpath. by eapply lookup_weaken.
Qed.

Lemma PullAppFilesImpl_keeps_host_files_witness :
  let out :=
    PullAppFiles.PullAppFilesImpl Scenario2.device_path Scenario2.host_split
      Scenario2.pull_file ["trace"; "trace"] Scenario2.host_files in
  out.2 !! "/tmp/pulled/emulator-5554/trace_0" = Some "older trace"
  ∧ out.2 !! "/tmp/pulled/emulator-5554/trace_1" = Some "first trace"
  ∧ out.2 !! "/tmp/pulled/emulator-5554/trace_2" = Some "first trace".
Proof.
  intros out.
  destruct (PullAppFilesImpl_keeps_host_files Scenario2.device_path
              Scenario2.host_split Scenario2.pull_file ["trace"; "trace"]
              Scenario2.host_files) as [Hkeep _].
  - intros device_file host_file host0 Hfree. unfold Scenario2.pull_file.
    destruct (Scenario2.device_files !! device_file); [|done].
    by apply insert_subseteq.
  - split; [apply Hkeep; reflexivity|]. split; reflexivity.
Defined.

(** X20. After a [SetUp] that did not raise, the live set is not empty,
    so that the [devices] property gives it and [_CreateShards] makes
    shards; every live device is a healthy device of the fleet, is not
    on the blacklist, and bears the serial asked for, if one was. *)
Theorem SetUp_ok_live_set (env : LocalDeviceEnvironment.Env)
    (fleet : list Device) :
  (LocalDeviceEnvironment.SetUp env fleet).1 = Ok () →
  let env' := (LocalDeviceEnvironment.SetUp env fleet).2 in
  LocalDeviceEnvironment._devices env' ≠ []
  ∧ LocalDeviceEnvironment.devices env'
    = Ok (LocalDeviceEnvironment._devices env')
  ∧ (∀ tests : list string,
       ∃ shards,
         LocalDeviceGtestRun._CreateShards
           (LocalDeviceEnvironment._devices env') tests = Ok shards)
  ∧ (∀ d, d ∈ LocalDeviceEnvironment._devices env' →
       d ∈ fleet
       ∧ (∀ bl, LocalDeviceEnvironment._blacklist env = Some bl →
            LocalDeviceEnvironment.blacklisted bl (GetDeviceSerial d) = false)
       ∧ (∀ serial,
            LocalDeviceEnvironment.requested_serial env = Some serial →
            GetDeviceSerial d = serial)).
Proof.
  intros Hok env'. subst env'.
  assert (Hhealthy : ∀ d,
    d ∈ LocalDeviceEnvironment.HealthyDevices
          (LocalDeviceEnvironment._blacklist env) fleet →
    d ∈ fleet
    ∧ ∀ bl, LocalDeviceEnvironment._blacklist env = Some bl →
        LocalDeviceEnvironment.blacklisted bl (GetDeviceSerial d) = false).
  { intros d Hd. unfold LocalDeviceEnvironment.HealthyDevices in Hd.
    destruct (LocalDeviceEnvironment._blacklist env) as [bl|].
    - apply list_elem_of_filter in Hd as [Hb Hd]. split; [done|].
      by intros bl' [= <-].
    - by split. }
  unfold LocalDeviceEnvironment.SetUp in *.
  destruct (LocalDeviceEnvironment.HealthyDevices
              (LocalDeviceEnvironment._blacklist env) fleet)
    as [|d0 ds] eqn:Hh; [discriminate|].
  assert (Hlive : ∀ live : list Device, live ≠ [] →
    LocalDeviceEnvironment.devices (LocalDeviceEnvironment.set_devices env live)
    = Ok live
    ∧ ∀ tests : list string,
        ∃ shards, LocalDeviceGtestRun._CreateShards live tests = Ok shards).
  { intros [|d live] Hne; [done|]. split; [done|]. intros tests.
    by eexists. }
  destruct (LocalDeviceEnvironment.requested_serial env) as [serial|];
    cbn zeta in *.
  - destruct (filter _ (d0 :: ds)) as [|d1 ds1] eqn:Hf; [discriminate|].
    cbn [snd LocalDeviceEnvironment._devices
         LocalDeviceEnvironment.set_devices].
    split; [done|]. destruct (Hlive (d1 :: ds1)) as [Hdev Hshards]; [done|].
    split; [exact Hdev|]. split; [exact Hshards|].
    intros d Hd. rewrite <- Hf in Hd.
    apply list_elem_of_filter in Hd as [Hserial Hd].
    destruct (Hhealthy d Hd) as [Hfleet Hbl]. split; [done|]. split; [done|].
    by intros serial' [= <-].
  - cbn [snd LocalDeviceEnvironment._devices
         LocalDeviceEnvironment.set_devices].
    split; [done|]. destruct (Hlive (d0 :: ds)) as [Hdev Hshards]; [done|].
    split; [exact Hdev|]. split; [exact Hshards|].
    intros d Hd. destruct (Hhealthy d Hd) as [Hfleet Hbl].
    split; [done|]. split; [done|]. intros serial. discriminate.
Qed.

Lemma SetUp_ok_live_set_witness :
  let env' := (LocalDeviceEnvironment.SetUp
                 (Scenario.env_for "emulator-5556")
                 [Scenario.device_a; Scenario.device_b]).2 in
  LocalDeviceEnvironment._devices env' ≠ []
  ∧ LocalDeviceEnvironment.devices env'
    = Ok (LocalDeviceEnvironment._devices env').
Proof.
  intros env'.
  destruct (SetUp_ok_live_set (Scenario.env_for "emulator-5556")
              [Scenario.device_a; Scenario.device_b] eq_refl)
    as (Hne & Hdev & _).
  split; [exact Hne|exact Hdev].
Defined.

(** *** The order of the attached devices *)

Lemma steps_log_host_with_devices (h : bb_run_sharded_steps.Host)
    (attached : list string) (ps : list bb_run_sharded_steps.StepParams)
    (t : nat) :
  bb_run_sharded_steps.steps_log (host_with_devices h attached) ps t
  = bb_run_sharded_steps.steps_log h ps t.
Proof.
  revert t. induction ps as [|p ps IH]; intros t; [done|].
  cbn [bb_run_sharded_steps.steps_log]. rewrite IH. reflexivity.
Qed.

Lemma steps_elapsed_host_with_devices (h : bb_run_sharded_steps.Host)
    (attached : list string) (ps : list bb_run_sharded_steps.StepParams) :
  bb_run_sharded_steps.steps_elapsed (host_with_devices h attached) ps
  = bb_run_sharded_steps.steps_elapsed h ps.
Proof. reflexivity. Qed.

Lemma after_sharding_host_with_devices (h : bb_run_sharded_steps.Host)
    (attached : list string) (ps : list bb_run_sharded_steps.StepParams)
    (w : bb_run_sharded_steps.World) :
  bb_run_sharded_steps.after_sharding (host_with_devices h attached) ps w
  = bb_run_sharded_steps.after_sharding h ps w.
Proof.
  unfold bb_run_sharded_steps.after_sharding,
    bb_run_sharded_steps.sharding_log.
  rewrite steps_log_host_with_devices, steps_elapsed_host_with_devices.
  reflexivity.
Qed.

Lemma RunShardedSteps_host_with_devices (h : bb_run_sharded_steps.Host)
    (attached : list string) (steps : list (string * string))
    (flaky_steps devices : list string) (w : bb_run_sharded_steps.World) :
  bb_run_sharded_steps._RunShardedSteps (host_with_devices h attached)
    steps flaky_steps devices w
  = bb_run_sharded_steps._RunShardedSteps h steps flaky_steps devices w.
Proof.
  destruct steps as [|item steps]; [reflexivity|].
  destruct devices as [|d devices]; [reflexivity|].
  rewrite !RunShardedSteps_spec by done.
  by rewrite after_sharding_host_with_devices.
Qed.

Lemma print_host_with_devices (h : bb_run_sharded_steps.Host)
    (attached : list string) (w : bb_run_sharded_steps.World) :
  (∀ name,
     bb_run_sharded_steps._PrintStepOutput (host_with_devices h attached) name w
     = bb_run_sharded_steps._PrintStepOutput h name w)
  ∧ (∀ path,
       bb_run_sharded_steps._PrintAllStepsOutput (host_with_devices h attached)
         path w
       = bb_run_sharded_steps._PrintAllStepsOutput h path w).
Proof.
  split; [reflexivity|]. intros path.
  unfold bb_run_sharded_steps._PrintAllStepsOutput.
  rewrite !print_steps_from_spec. reflexivity.
Qed.

(** X21. The devices are sorted before the steps are shared out, so
    the order in which the attached devices are reported does not
    matter: on a host that reports the same devices in another order,
    [main] returns the same status and leaves the same world, with every
    step run on the same device. *)
Theorem main_device_order (h : bb_run_sharded_steps.Host)
    (attached : list string) (options : bb_run_sharded_steps.Options)
    (w : bb_run_sharded_steps.World) :
  bb_run_sharded_steps.GetAttachedDevices h ≡ₚ attached →
  bb_run_sharded_steps.main (host_with_devices h attached) options w
  = bb_run_sharded_steps.main h options w.
Proof.
  intros Hperm. unfold bb_run_sharded_steps.main.
  destruct (print_host_with_devices h attached w) as [Hone Hall].
  destruct (bb_run_sharded_steps.given
              (bb_run_sharded_steps.opt_print_results options)) as [name|];
    [apply Hone|].
  destruct (bb_run_sharded_steps.given
              (bb_run_sharded_steps.opt_print_all options)) as [path|];
    [apply Hall|].
  assert (Hkill :
    bb_run_sharded_steps._KillPendingServers (host_with_devices h attached) w
    = bb_run_sharded_steps._KillPendingServers h w).
  { unfold bb_run_sharded_steps._KillPendingServers.
    cbn [bb_run_sharded_steps.wait_for_devices
         bb_run_sharded_steps.GetAttachedDevices host_with_devices].
    destruct (bb_run_sharded_steps.GetAttachedDevices h) as [|d ds],
      attached as [|d' ds']; try reflexivity.
    - by apply Permutation_nil_cons in Hperm.
    - symmetry in Hperm. by apply Permutation_nil_cons in Hperm. }
  unfold bb_run_sharded_steps.bind at 1 3. rewrite Hkill.
  destruct (bb_run_sharded_steps._KillPendingServers h w) as [[[]|e] w1];
    [|reflexivity].
  cbn [bb_run_sharded_steps.ResetTestServerPortAllocation
       bb_run_sharded_steps.GetAttachedDevices
       bb_run_sharded_steps.json_dict bb_run_sharded_steps.json_list
       host_with_devices].
  rewrite <- (sorted_unique _ _ Hperm).
  destruct (negb (bb_run_sharded_steps.ResetTestServerPortAllocation h));
    [reflexivity|].
  destruct (Py.sorted (bb_run_sharded_steps.GetAttachedDevices h));
    [reflexivity|].
  destruct (bb_run_sharded_steps.opt_steps options); [|reflexivity].
  apply RunShardedSteps_host_with_devices.
Qed.

Lemma main_device_order_witness :
  bb_run_sharded_steps.main
    (host_with_devices Scenario.host ["emulator-5556"; "emulator-5554"])
    Scenario.run_options Scenario.stale
  = bb_run_sharded_steps.main
      (host_with_devices Scenario.host ["emulator-5554"; "emulator-5556"])
      Scenario.run_options Scenario.stale.
Proof.
  apply (main_device_order
           (host_with_devices Scenario.host ["emulator-5554"; "emulator-5556"])
           ["emulator-5556"; "emulator-5554"] Scenario.run_options
           Scenario.stale).
  apply Permutation_swap.
Defined.
